(** * EBC: post-quantum keys, address codec and cut-over phases

    A shallow embedding of the Emergency Bitcoin Cut-Over Chain sources
    (crypto/pq/pq_keys.{h,cpp}, ebc/ebc_address.{h,cpp}, chainparams_ebc.cpp,
    script/pq_interpreter.h) and the properties stated about them.

    Conventions.  [unsigned char] is [byte]; a [std::vector<unsigned char>]
    is a [list byte]; [size_t] quantities that only count elements are [nat];
    fixed-width integer arithmetic is carried out in [Z] with the wrap-around
    written where the source can reach it; a [std::string] is a [string]. *)

From Stdlib Require Import Ascii String.
From Stdlib Require Import ZArith List Bool Lia.
From Stdlib Require Import Strings.Byte.
Import ListNotations.

(** ** crypto/pq/pq_keys.h : algorithm identifiers *)

(** [enum class PQAlgorithm { DILITHIUM3, FALCON512, UNKNOWN }]: a scoped
    enumeration with no underlying type given, so its values are those of
    [int], and [static_cast<PQAlgorithm>(n)] makes every [int] one of them;
    the constructors that take a [PQAlgorithm] are public.  A value is an
    integer here.  The sources compare it with the enumerators, convert an
    [unsigned char] to it ([byte_val] below) and convert it to [unsigned
    char] ([octet] below, the residue modulo 256 also for a negative [int]);
    nothing depends on the bounds of [int], and statements over every
    integer cover them. *)
Abbreviation PQAlgorithm := Z (only parsing).
Definition DILITHIUM3 : PQAlgorithm := 0%Z.
Definition FALCON512 : PQAlgorithm := 1%Z.
Definition UNKNOWN : PQAlgorithm := 2%Z.

(** ** liboqs, as seen through the calls pq_keys.cpp makes

    The signature primitives are an external library.  What the sources use
    of an [OQS_SIG] object is its three length fields and the three entry
    points [OQS_SIG_keypair], [OQS_SIG_sign], [OQS_SIG_verify].  Key
    generation and signing draw randomness inside the library; the drawn
    bytes are passed explicitly here. *)
Inductive OQS_STATUS := OQS_SUCCESS | OQS_ERROR.

Inductive OQS_alg_name := OQS_SIG_alg_dilithium_3 | OQS_SIG_alg_falcon_512.

Definition entropy := list byte.

Record OQS_SIG := {
  length_public_key : nat;
  length_secret_key : nat;
  length_signature : nat;
  (* OQS_SIG_keypair(sig, public_key, secret_key): the bytes written *)
  OQS_SIG_keypair : entropy -> OQS_STATUS * (list byte * list byte);
  (* OQS_SIG_sign(sig, signature, &signature_len, message, len, secret_key):
     the bytes written; signature_len is their number *)
  OQS_SIG_sign : entropy -> list byte -> list byte -> OQS_STATUS * list byte;
  (* OQS_SIG_verify(sig, message, len, signature, signature_len, public_key) *)
  OQS_SIG_verify : list byte -> list byte -> list byte -> OQS_STATUS
}.

(** [OQS_SIG_new(name)]: a null pointer when the algorithm is not enabled in
    the linked library. *)
Class liboqs := { OQS_SIG_new : OQS_alg_name -> option OQS_SIG }.

Definition OQS_STATUS_eqb (a b : OQS_STATUS) : bool :=
  match a, b with
  | OQS_SUCCESS, OQS_SUCCESS => true
  | OQS_ERROR, OQS_ERROR => true
  | _, _ => false
  end.

(** [static const char* GetOQSAlgorithmName(PQAlgorithm algo)]; [None] is the
    null pointer of the [default:] branch. *)
Definition GetOQSAlgorithmName (algo : PQAlgorithm) : option OQS_alg_name :=
  if Z.eqb algo DILITHIUM3 then Some OQS_SIG_alg_dilithium_3
  else if Z.eqb algo FALCON512 then Some OQS_SIG_alg_falcon_512
  else None.

(** The value of an [unsigned char]. *)
Definition byte_val (b : byte) : Z := Z.of_N (Byte.to_N b).

(** Conversion to [unsigned char]: the low eight bits. *)
Definition octet (z : Z) : byte :=
  match Byte.of_N (Z.to_N (z mod 256)) with Some b => b | None => x00 end.

(** A [std::vector<unsigned char> v(n)] (zero-filled) into whose storage a
    library call has written [out]. *)
Definition written (n : nat) (out : list byte) : list byte :=
  firstn n out ++ repeat x00 (n - length out).

(** [v.resize(n)] *)
Definition resize (n : nat) (v : list byte) : list byte :=
  firstn n v ++ repeat x00 (n - length v).

(** [std::copy(first, last, d_first)] into an existing buffer [dst]. *)
Definition copy_into (src dst : list byte) : list byte :=
  src ++ skipn (length src) dst.

(** The last [n] elements: the range [v.end() - n, v.end()). *)
Definition lastn (n : nat) (v : list byte) : list byte :=
  skipn (length v - n) v.

(** ** class PQPubKey *)
Module PQPubKey.

Record t := { m_data : list byte; m_algorithm : PQAlgorithm }.

(** [PQPubKey() : m_algorithm(PQAlgorithm::UNKNOWN) {}] *)
Definition default : t := {| m_data := []; m_algorithm := UNKNOWN |}.

Definition GetData (k : t) : list byte := m_data k.
Definition GetAlgorithm (k : t) : PQAlgorithm := m_algorithm k.

Section with_liboqs.
Context {lib : liboqs}.

Definition GetPubKeySize (algo : PQAlgorithm) : nat :=
  match GetOQSAlgorithmName algo with
  | None => 0
  | Some alg_name =>
      match OQS_SIG_new alg_name with
      | None => 0
      | Some sig => length_public_key sig
      end
  end.

Definition IsValid (k : t) : bool :=
  if Z.eqb (m_algorithm k) UNKNOWN then false
  else
    let expected_size := GetPubKeySize (m_algorithm k) in
    (0 <? expected_size)%nat && (length (m_data k) =? expected_size)%nat.

(** [PQPubKey(const std::vector<unsigned char>& data, PQAlgorithm algo)] *)
Definition make (data : list byte) (algo : PQAlgorithm) : t :=
  let k := {| m_data := data; m_algorithm := algo |} in
  if negb (IsValid k) then {| m_data := []; m_algorithm := UNKNOWN |} else k.

(** The first byte is [static_cast<unsigned char>(m_algorithm)]. *)
Definition Serialize (k : t) : list byte := octet (m_algorithm k) :: m_data k.

Definition Deserialize (data : list byte) : t :=
  match data with
  | [] => default
  | d0 :: key_data =>
      let algo : PQAlgorithm := byte_val d0 in
      if Z.eqb algo UNKNOWN then default else make key_data algo
  end.

End with_liboqs.

Definition eqb (a b : t) : bool :=
  Z.eqb (m_algorithm a) (m_algorithm b)
  && (if list_eq_dec Byte.byte_eq_dec (m_data a) (m_data b) then true else false).

(** *** Objects in memory

    The class declares no copy or move member, so the compiler declares all
    four, each acting member by member.  The move members change their
    source; objects are therefore kept in a store indexed by address. *)
Definition addr := nat.
Definition store := addr -> t.

Definition put (m : store) (a : addr) (k : t) : store :=
  fun a' => if Nat.eqb a' a then k else m a'.

Definition set_data (m : store) (a : addr) (d : list byte) : store :=
  put m a {| m_data := d; m_algorithm := m_algorithm (m a) |}.

Definition set_algorithm (m : store) (a : addr) (g : PQAlgorithm) : store :=
  put m a {| m_data := m_data (m a); m_algorithm := g |}.

(** [PQPubKey(const PQPubKey& other)], implicit: the object under
    construction is at [this]; both members are copied. *)
Definition copy_construct (m : store) (this other : addr) : store :=
  let m := set_data m this (m_data (m other)) in
  set_algorithm m this (m_algorithm (m other)).

(** [PQPubKey& operator=(const PQPubKey& other)], implicit. *)
Definition copy_assign (m : store) (this other : addr) : store :=
  let m := set_data m this (m_data (m other)) in
  set_algorithm m this (m_algorithm (m other)).

(** [PQPubKey(PQPubKey&& other)], implicit: [m_data] is moved, and a
    moved-from [std::vector] is empty; [m_algorithm], an enum, is copied and
    stays in the source. *)
Definition move_construct (m : store) (this other : addr) : store :=
  let m := set_data (set_data m this (m_data (m other))) other [] in
  set_algorithm m this (m_algorithm (m other)).

(** [PQPubKey& operator=(PQPubKey&& other)], implicit.  What moving a
    [std::vector] onto itself leaves in it is not fixed by the language; the
    sequence below is only used for [this <> other]. *)
Definition move_assign (m : store) (this other : addr) : store :=
  let m := set_data (set_data m this (m_data (m other))) other [] in
  set_algorithm m this (m_algorithm (m other)).

End PQPubKey.

(** ** class PQSignature *)
Module PQSignature.

Record t := { m_data : list byte; m_algorithm : PQAlgorithm }.

(** [PQSignature() : m_algorithm(PQAlgorithm::UNKNOWN) {}] *)
Definition default : t := {| m_data := []; m_algorithm := UNKNOWN |}.

Definition GetData (s : t) : list byte := m_data s.
Definition GetAlgorithm (s : t) : PQAlgorithm := m_algorithm s.

(** [uint32_t] wrap-around. *)
Definition uint32 (z : Z) : Z := (z mod 2 ^ 32)%Z.

Section with_liboqs.
Context {lib : liboqs}.

Definition GetSignatureSize (algo : PQAlgorithm) : nat :=
  match GetOQSAlgorithmName algo with
  | None => 0
  | Some alg_name =>
      match OQS_SIG_new alg_name with
      | None => 0
      | Some sig => length_signature sig
      end
  end.

Definition IsValid (s : t) : bool :=
  if Z.eqb (m_algorithm s) UNKNOWN then false
  else
    match m_data s with
    | [] => false
    | _ :: _ =>
        let max_size := GetSignatureSize (m_algorithm s) in
        (0 <? max_size)%nat && (length (m_data s) <=? max_size)%nat
    end.

(** [PQSignature(const std::vector<unsigned char>& data, PQAlgorithm algo)] *)
Definition make (data : list byte) (algo : PQAlgorithm) : t :=
  let s := {| m_data := data; m_algorithm := algo |} in
  if negb (IsValid s) then {| m_data := []; m_algorithm := UNKNOWN |} else s.

Definition Verify (s : t) (hash : list byte) (pubkey : PQPubKey.t) : bool :=
  if negb (IsValid s) || negb (PQPubKey.IsValid pubkey) then false
  else if negb (Z.eqb (m_algorithm s) (PQPubKey.GetAlgorithm pubkey)) then false
  else
    match GetOQSAlgorithmName (m_algorithm s) with
    | None => false
    | Some alg_name =>
        match OQS_SIG_new alg_name with
        | None => false
        | Some sig =>
            let status := OQS_SIG_verify sig hash (m_data s) (PQPubKey.GetData pubkey) in
            OQS_STATUS_eqb status OQS_SUCCESS
        end
    end.

(** The first byte is [static_cast<unsigned char>(m_algorithm)]; the four
    length bytes are pushed low byte first. *)
Definition Serialize (s : t) : list byte :=
  let sig_len := uint32 (Z.of_nat (length (m_data s))) in
  octet (m_algorithm s)
    :: octet (Z.land sig_len 255)
    :: octet (Z.land (Z.shiftr sig_len 8) 255)
    :: octet (Z.land (Z.shiftr sig_len 16) 255)
    :: octet (Z.land (Z.shiftr sig_len 24) 255)
    :: m_data s.

(** [data[1] | (data[2] << 8) | (data[3] << 16) | (data[4] << 24)] is
    evaluated in [int] and converted to [uint32_t]; the conversion keeps the
    low 32 bits, which is what [uint32] of the unbounded value gives. *)
Definition length_prefix (data : list byte) : Z :=
  let d i := byte_val (nth i data x00) in
  uint32 (Z.lor (Z.lor (Z.lor (d 1%nat) (Z.shiftl (d 2%nat) 8))
                       (Z.shiftl (d 3%nat) 16))
                (Z.shiftl (d 4%nat) 24)).

Definition Deserialize (data : list byte) : t :=
  if (length data <? 5)%nat then default
  else
    let algo : PQAlgorithm := byte_val (nth 0 data x00) in
    if Z.eqb algo UNKNOWN then default
    else
      let sig_len := length_prefix data in
      (* [data.size() != 5 + sig_len]: the sum is a [uint32_t] *)
      if negb (Z.of_nat (length data) =? uint32 (5 + sig_len))%Z then default
      else make (skipn 5 data) algo.

End with_liboqs.

(** *** Objects in memory

    As for [PQPubKey], the four copy and move members are the implicitly
    declared ones. *)
Definition addr := nat.
Definition store := addr -> t.

Definition put (m : store) (a : addr) (s : t) : store :=
  fun a' => if Nat.eqb a' a then s else m a'.

Definition set_data (m : store) (a : addr) (d : list byte) : store :=
  put m a {| m_data := d; m_algorithm := m_algorithm (m a) |}.

Definition set_algorithm (m : store) (a : addr) (g : PQAlgorithm) : store :=
  put m a {| m_data := m_data (m a); m_algorithm := g |}.

(** [PQSignature(const PQSignature& other)], implicit. *)
Definition copy_construct (m : store) (this other : addr) : store :=
  let m := set_data m this (m_data (m other)) in
  set_algorithm m this (m_algorithm (m other)).

(** [PQSignature& operator=(const PQSignature& other)], implicit. *)
Definition copy_assign (m : store) (this other : addr) : store :=
  let m := set_data m this (m_data (m other)) in
  set_algorithm m this (m_algorithm (m other)).

(** [PQSignature(PQSignature&& other)], implicit: the source's vector is
    left empty, its algorithm stays. *)
Definition move_construct (m : store) (this other : addr) : store :=
  let m := set_data (set_data m this (m_data (m other))) other [] in
  set_algorithm m this (m_algorithm (m other)).

(** [PQSignature& operator=(PQSignature&& other)], implicit; only used for
    [this <> other]. *)
Definition move_assign (m : store) (this other : addr) : store :=
  let m := set_data (set_data m this (m_data (m other))) other [] in
  set_algorithm m this (m_algorithm (m other)).

End PQSignature.

(** ** class PQPrivKey *)
Module PQPrivKey.

Record t := {
  m_data : list byte;
  m_algorithm : PQAlgorithm;
  m_sig_ctx : option OQS_SIG      (* std::unique_ptr<OQS_SIG> *)
}.

(** [PQPrivKey() : m_algorithm(PQAlgorithm::UNKNOWN) {}] *)
Definition default : t :=
  {| m_data := []; m_algorithm := UNKNOWN; m_sig_ctx := None |}.

Definition GetAlgorithm (k : t) : PQAlgorithm := m_algorithm k.

(** [void PQPrivKey::Clear()] *)
Definition Clear (k : t) : t :=
  let data := match m_data k with [] => m_data k | _ :: _ => [] end in
  {| m_data := data; m_algorithm := UNKNOWN; m_sig_ctx := None |}.

Section with_liboqs.
Context {lib : liboqs}.

Definition GetPrivKeySize (algo : PQAlgorithm) : nat :=
  match GetOQSAlgorithmName algo with
  | None => 0
  | Some alg_name =>
      match OQS_SIG_new alg_name with
      | None => 0
      | Some sig => length_secret_key sig
      end
  end.

Definition IsValid (k : t) : bool :=
  if Z.eqb (m_algorithm k) UNKNOWN then false
  else
    let expected_size := GetPrivKeySize (m_algorithm k) in
    (0 <? expected_size)%nat && (length (m_data k) =? expected_size)%nat.

(** [PQPrivKey(const std::vector<unsigned char>& data, PQAlgorithm algo)] *)
Definition make (data : list byte) (algo : PQAlgorithm) : t :=
  let k := {| m_data := data; m_algorithm := algo; m_sig_ctx := None |} in
  if negb (IsValid k) then Clear k else k.

Definition GetPubKey (k : t) : PQPubKey.t :=
  if negb (IsValid k) then PQPubKey.default
  else
    match GetOQSAlgorithmName (m_algorithm k) with
    | None => PQPubKey.default
    | Some alg_name =>
        match OQS_SIG_new alg_name with
        | None => PQPubKey.default
        | Some sig =>
            let pubkey_data := repeat x00 (length_public_key sig) in
            let pubkey_data :=
              if (length_public_key sig <=? length (m_data k))%nat
              then copy_into (lastn (length_public_key sig) (m_data k)) pubkey_data
              else pubkey_data in
            PQPubKey.make pubkey_data (m_algorithm k)
        end
    end.

Definition Sign (k : t) (rnd : entropy) (hash : list byte) : list byte :=
  if negb (IsValid k) then []
  else
    match GetOQSAlgorithmName (m_algorithm k) with
    | None => []
    | Some alg_name =>
        match OQS_SIG_new alg_name with
        | None => []
        | Some sig =>
            let '(status, out) := OQS_SIG_sign sig rnd hash (m_data k) in
            let signature := written (length_signature sig) out in
            let signature_len := length out in
            if negb (OQS_STATUS_eqb status OQS_SUCCESS) then []
            else resize signature_len signature
        end
    end.

Definition GenerateKeyPair (algo : PQAlgorithm) (rnd : entropy)
  : t * PQPubKey.t :=
  match GetOQSAlgorithmName algo with
  | None => (default, PQPubKey.default)
  | Some alg_name =>
      match OQS_SIG_new alg_name with
      | None => (default, PQPubKey.default)
      | Some sig =>
          let '(status, (pk, sk)) := OQS_SIG_keypair sig rnd in
          let pubkey := written (length_public_key sig) pk in
          let privkey := written (length_secret_key sig) sk in
          if negb (OQS_STATUS_eqb status OQS_SUCCESS)
          then (default, PQPubKey.default)
          else (make privkey algo, PQPubKey.make pubkey algo)
      end
  end.

End with_liboqs.

(** *** Objects in memory

    Move construction and move assignment act on two objects at once, and
    move assignment compares their addresses; objects are therefore kept in
    a store indexed by address. *)
Definition addr := nat.
Definition store := addr -> t.

Definition put (m : store) (a : addr) (k : t) : store :=
  fun a' => if Nat.eqb a' a then k else m a'.

Definition set_data (m : store) (a : addr) (d : list byte) : store :=
  put m a {| m_data := d; m_algorithm := m_algorithm (m a); m_sig_ctx := m_sig_ctx (m a) |}.

Definition set_algorithm (m : store) (a : addr) (g : PQAlgorithm) : store :=
  put m a {| m_data := m_data (m a); m_algorithm := g; m_sig_ctx := m_sig_ctx (m a) |}.

Definition set_sig_ctx (m : store) (a : addr) (c : option OQS_SIG) : store :=
  put m a {| m_data := m_data (m a); m_algorithm := m_algorithm (m a); m_sig_ctx := c |}.

(** [PQPrivKey(PQPrivKey&& other) noexcept]: the object under construction
    is at [this]; a moved-from [std::vector] or [std::unique_ptr] is empty. *)
Definition move_construct (m : store) (this other : addr) : store :=
  let m := set_data (set_data m this (m_data (m other))) other [] in
  let m := set_algorithm m this (m_algorithm (m other)) in
  let m := set_sig_ctx (set_sig_ctx m this (m_sig_ctx (m other))) other None in
  set_algorithm m other UNKNOWN.

(** [PQPrivKey& operator=(PQPrivKey&& other) noexcept] *)
Definition move_assign (m : store) (this other : addr) : store :=
  if negb (Nat.eqb this other) then
    let m := put m this (Clear (m this)) in
    let m := set_data (set_data m this (m_data (m other))) other [] in
    let m := set_algorithm m this (m_algorithm (m other)) in
    let m := set_sig_ctx (set_sig_ctx m this (m_sig_ctx (m other))) other None in
    set_algorithm m other UNKNOWN
  else m.

(** [k.Clear()] on the object at [this]. *)
Definition clear_at (m : store) (this : addr) : store :=
  put m this (Clear (m this)).

End PQPrivKey.

(** ** namespace pq::util

    [OQS_SIG_alg_is_enabled] is one more entry point of liboqs, used by
    these functions only; it is passed to them. *)
Module util.

Definition AlgorithmToString (algo : PQAlgorithm) : string :=
  if Z.eqb algo DILITHIUM3 then "Dilithium3"
  else if Z.eqb algo FALCON512 then "Falcon512"
  else "Unknown".

Definition StringToAlgorithm (str : string) : PQAlgorithm :=
  if String.eqb str "Dilithium3" then DILITHIUM3
  else if String.eqb str "Falcon512" then FALCON512
  else UNKNOWN.

Definition IsAlgorithmSupported (OQS_SIG_alg_is_enabled : OQS_alg_name -> bool)
  (algo : PQAlgorithm) : bool :=
  match GetOQSAlgorithmName algo with
  | None => false
  | Some alg_name => OQS_SIG_alg_is_enabled alg_name
  end.

Definition GetSupportedAlgorithms (OQS_SIG_alg_is_enabled : OQS_alg_name -> bool)
  : list PQAlgorithm :=
  let supported : list Z := [] in
  let supported :=
    if IsAlgorithmSupported OQS_SIG_alg_is_enabled DILITHIUM3
    then supported ++ [DILITHIUM3] else supported in
  let supported :=
    if IsAlgorithmSupported OQS_SIG_alg_is_enabled FALCON512
    then supported ++ [FALCON512] else supported in
  supported.

End util.

(** ** Bit-width conversion (util/strencodings.h) *)

(** Modelled from the spec: [ConvertBits<frombits, tobits, pad>], whose
    header is not among the sources; the 8->5 / 5->8 bit-width conversion of
    section 4.2, written as the accumulator loop of Bitcoin Core that
    ebc_address.cpp instantiates.  [None] is a [false] return; the output
    function appends to the vector the caller captured.  The inner loop
    takes [tobits] off [bits] each time round, so [bits] rounds are enough
    fuel for it ([ConvertBits_emit_spec] shows that it has then run to its
    exit). *)
Fixpoint ConvertBits_emit (fuel : nat) (tobits acc bits : Z) (out : list Z)
  : Z * list Z :=
  match fuel with
  | O => (bits, out)
  | S fuel' =>
      (* while (bits >= tobits) { bits -= tobits; outfn((acc >> bits) & maxv); } *)
      if (tobits <=? bits)%Z then
        let bits := (bits - tobits)%Z in
        ConvertBits_emit fuel' tobits acc bits
          (out ++ [Z.land (Z.shiftr acc bits) (2 ^ tobits - 1)])
      else (bits, out)
  end.

Fixpoint ConvertBits_loop (frombits tobits : Z) (input : list Z)
  (acc bits : Z) (out : list Z) : option (Z * Z * list Z) :=
  match input with
  | [] => Some (acc, bits, out)
  | v :: rest =>
      if (v <? 0)%Z then None
      else
        let max_acc := (2 ^ (frombits + tobits - 1) - 1)%Z in
        let acc := Z.land (Z.lor (Z.shiftl acc frombits) v) max_acc in
        let bits := (bits + frombits)%Z in
        let '(bits, out) := ConvertBits_emit (Z.to_nat bits) tobits acc bits out in
        ConvertBits_loop frombits tobits rest acc bits out
  end.

Definition ConvertBits (frombits tobits : Z) (pad : bool) (input : list Z)
  : option (list Z) :=
  match ConvertBits_loop frombits tobits input 0 0 [] with
  | None => None
  | Some (acc, bits, out) =>
      let maxv := (2 ^ tobits - 1)%Z in
      if pad then
        Some (if (bits =? 0)%Z then out
              else out ++ [Z.land (Z.shiftl acc (tobits - bits)) maxv])
      else if (frombits <=? bits)%Z
              || negb (Z.land (Z.shiftl acc (tobits - bits)) maxv =? 0)%Z
      then None
      else Some out
  end.

(** ** Bech32 / Bech32m (bech32.h, bech32.cpp)

    ebc_address.cpp calls [bech32::Encode] and [bech32::Decode]; the files
    that define them are not among the sources.  The module below models
    them from the spec's "checksummed, segment-based text encoding" with
    "network-specific prefix" and from the encoding ToString names
    (BECH32M), along the lines of Bitcoin's bech32.cpp; two test vectors of
    BIP-350 are run against it further down. *)
Module bech32.

(** Modelled from the spec: [enum class Encoding] of bech32.h. *)
Inductive Encoding := INVALID | BECH32 | BECH32M.

Definition Encoding_eqb (a b : Encoding) : bool :=
  match a, b with
  | INVALID, INVALID | BECH32, BECH32 | BECH32M, BECH32M => true
  | _, _ => false
  end.

(** The five-bit groups, [std::vector<uint8_t>]. *)
Definition data := list Z.

(** Modelled from the spec: [struct DecodeResult] of bech32.h, what [Decode]
    returns. *)
Record DecodeResult := {
  encoding : Encoding;
  hrp : string;
  dec_data : data
}.

(** [DecodeResult() : encoding(Encoding::INVALID) {}] *)
Definition no_result : DecodeResult :=
  {| encoding := INVALID; hrp := ""%string; dec_data := [] |}.

(** The value of a character as an [unsigned char]. *)
Definition code (c : ascii) : Z := Z.of_N (N_of_ascii c).

(** Modelled from the spec: the number of checksum characters. *)
Definition CHECKSUM_SIZE : nat := 6.

(** Modelled from the spec: the thirty-two characters that stand for the
    five-bit groups, and the table that maps a character back (both cases
    of a letter to the same group, [-1] for a character outside the set). *)
Definition CHARSET : list ascii :=
  list_ascii_of_string "qpzry9x8gf2tvdw0s3jn54khce6mua7l".

Definition CHARSET_REV : list Z :=
  [ -1; -1; -1; -1; -1; -1; -1; -1; -1; -1; -1; -1; -1; -1; -1; -1;
    -1; -1; -1; -1; -1; -1; -1; -1; -1; -1; -1; -1; -1; -1; -1; -1;
    -1; -1; -1; -1; -1; -1; -1; -1; -1; -1; -1; -1; -1; -1; -1; -1;
    15; -1; 10; 17; 21; 20; 26; 30;  7;  5; -1; -1; -1; -1; -1; -1;
    -1; 29; -1; 24; 13; 25;  9;  8; 23; -1; 18; 22; 31; 27; 19; -1;
     1;  0;  3; 16; 11; 28; 12; 14;  6;  4;  2; -1; -1; -1; -1; -1;
    -1; 29; -1; 24; 13; 25;  9;  8; 23; -1; 18; 22; 31; 27; 19; -1;
     1;  0;  3; 16; 11; 28; 12; 14;  6;  4;  2; -1; -1; -1; -1; -1 ]%Z.

(** Modelled from the spec: [bech32::EncodingConstant], the final constant
    of the checksum, which tells Bech32 from Bech32m. *)
Definition EncodingConstant (e : Encoding) : Z :=
  match e with
  | BECH32 => 1
  | BECH32M => 0x2bc830a3
  | INVALID => 0            (* assert(encoding == BECH32 || ... BECH32M) *)
  end.

(** Modelled from the spec: one round of the loop of [PolyMod]. *)
Definition PolyMod_step (c v_i : Z) : Z :=
  let c0 := Z.shiftr c 25 in
  let c := Z.lxor (Z.shiftl (Z.land c 0x1ffffff) 5) v_i in
  let c := if Z.testbit c0 0 then Z.lxor c 0x3b6a57b2 else c in
  let c := if Z.testbit c0 1 then Z.lxor c 0x26508e6d else c in
  let c := if Z.testbit c0 2 then Z.lxor c 0x1ea119fa else c in
  let c := if Z.testbit c0 3 then Z.lxor c 0x3d4233dd else c in
  let c := if Z.testbit c0 4 then Z.lxor c 0x2a1462b3 else c in
  c.

(** Modelled from the spec: [bech32::PolyMod], the checksum of the
    "checksummed, segment-based text encoding" of section 4.2: the remainder
    of the BCH code of BIP-173/BIP-350 over the five-bit groups, kept in a
    [uint32_t] of which thirty bits are used. *)
Definition PolyMod (v : data) : Z := fold_left PolyMod_step v 1%Z.

(** Modelled from the spec: [LowerCase(unsigned char c)]. *)
Definition LowerCase (c : ascii) : ascii :=
  if ((code "A" <=? code c) && (code c <=? code "Z"))%Z
  then ascii_of_N (Z.to_N (code c - code "A" + code "a"))
  else c.

(** Modelled from the spec: [PreparePolynomialCoefficients(hrp, values)]:
    the human-readable part expanded into its high bits, a zero, its low
    bits, followed by the groups. *)
Definition PreparePolynomialCoefficients (hrp : list ascii) (values : data)
  : data :=
  map (fun c => Z.shiftr (code c) 5) hrp
    ++ [0%Z]
    ++ map (fun c => Z.land (code c) 0x1f) hrp
    ++ values.

(** Modelled from the spec: [VerifyChecksum(hrp, values)]. *)
Definition VerifyChecksum (hrp : list ascii) (values : data) : Encoding :=
  let enc := PreparePolynomialCoefficients hrp values in
  let check := PolyMod enc in
  if (check =? EncodingConstant BECH32)%Z then BECH32
  else if (check =? EncodingConstant BECH32M)%Z then BECH32M
  else INVALID.

(** Modelled from the spec: [CreateChecksum(encoding, hrp, values)]. *)
Definition CreateChecksum (e : Encoding) (hrp : list ascii) (values : data)
  : data :=
  let enc := PreparePolynomialCoefficients hrp values ++ repeat 0%Z CHECKSUM_SIZE in
  let mod_ := Z.lxor (PolyMod enc) (EncodingConstant e) in
  map (fun i => Z.land (Z.shiftr mod_ (5 * (5 - Z.of_nat i))) 31)
      (seq 0 CHECKSUM_SIZE).

(** [CHARSET[i]] *)
Definition charset_at (i : Z) : ascii := nth (Z.to_nat i) CHARSET "000"%char.

(** Modelled from the spec: [bech32::Encode(encoding, hrp, values)], the
    encoder of the address text format: prefix, separator ['1'], the groups
    and six checksum characters.  The function asserts that [hrp] has no
    upper-case letter. *)
Definition Encode (e : Encoding) (hrp : string) (values : data) : string :=
  let h := list_ascii_of_string hrp in
  string_of_list_ascii
    (h ++ ["1"%char]
       ++ map charset_at values
       ++ map charset_at (CreateChecksum e h values)).

(** Modelled from the spec: [CheckCharacters(str, errors)]: no character
    outside 33..126 and no mixture of cases. *)
Fixpoint CheckCharacters_loop (s : list ascii) (lower upper : bool) : bool :=
  match s with
  | [] => true
  | c :: rest =>
      if ((code "a" <=? code c) && (code c <=? code "z"))%Z then
        if upper then false else CheckCharacters_loop rest true upper
      else if ((code "A" <=? code c) && (code c <=? code "Z"))%Z then
        if lower then false else CheckCharacters_loop rest lower true
      else if ((code c <? 33) || (126 <? code c))%Z then false
      else CheckCharacters_loop rest lower upper
  end.

Definition CheckCharacters (s : list ascii) : bool :=
  CheckCharacters_loop s false false.

(** [str.rfind(c)]; [None] is [npos]. *)
Fixpoint rfind (s : list ascii) (c : ascii) : option nat :=
  match s with
  | [] => None
  | x :: rest =>
      match rfind rest c with
      | Some i => Some (S i)
      | None => if Ascii.eqb x c then Some 0%nat else None
      end
  end.

(** Modelled from the spec: the loop of [Decode] over the characters after
    the separator; [rev == -1] makes [Decode] return the empty result. *)
Fixpoint decode_values (s : list ascii) : option data :=
  match s with
  | [] => Some []
  | c :: rest =>
      let rev := nth (Z.to_nat (code c)) CHARSET_REV (-1)%Z in
      if (rev =? -1)%Z then None
      else match decode_values rest with
           | None => None
           | Some values => Some (rev :: values)
           end
  end.

(** Modelled from the spec: [bech32::Decode(str)] with its default length
    limit of 90 characters; every failure gives [no_result]. *)
Definition Decode (str : string) : DecodeResult :=
  let s := list_ascii_of_string str in
  if negb (CheckCharacters s) then no_result
  else
    let pos := rfind s "1"%char in
    if (90 <? length s)%nat then no_result
    else
      match pos with
      | None => no_result
      | Some pos =>
          if (pos =? 0)%nat || (length s <=? pos + CHECKSUM_SIZE)%nat then no_result
          else
            match decode_values (skipn (pos + 1) s) with
            | None => no_result
            | Some values =>
                let h := map LowerCase (firstn pos s) in
                let result := VerifyChecksum h values in
                if Encoding_eqb result INVALID then no_result
                else {| encoding := result;
                        hrp := string_of_list_ascii h;
                        dec_data := firstn (length values - CHECKSUM_SIZE) values |}
            end
      end.

End bech32.

(** [s] with the character at index [i] replaced by [c]. *)
Definition alter (s : string) (i : nat) (c : ascii) : string :=
  let l := list_ascii_of_string s in
  string_of_list_ascii (firstn i l ++ c :: skipn (S i) l).

(** ** Scripts (script/script.h)

    script.h is not among the sources.  A [CScript] is a vector of bytes;
    [script << x] appends to it. *)
Definition CScript := list byte.

(** Modelled from the spec: the opcodes of the key-hash and script-hash
    templates of section 4.2, with the values Bitcoin's script.h gives them;
    the value of OP_PQCHECKSIG is the one implementation-plan.md assigns. *)
Definition opcodetype := byte.
Definition OP_PUSHDATA1 : opcodetype := x4c.
Definition OP_PUSHDATA2 : opcodetype := x4d.
Definition OP_PUSHDATA4 : opcodetype := x4e.
Definition OP_DUP : opcodetype := x76.
Definition OP_EQUAL : opcodetype := x87.
Definition OP_EQUALVERIFY : opcodetype := x88.
Definition OP_HASH160 : opcodetype := xa9.
Definition OP_HASH256 : opcodetype := xaa.
(* "Add OP_PQCHECKSIG (opcode 0xbb)", implementation-plan.md, 1.2 *)
Definition OP_PQCHECKSIG : opcodetype := xbb.

(** Modelled from the spec: [CScript& operator<<(opcodetype opcode)]. *)
Definition push_opcode (script : CScript) (opcode : opcodetype) : CScript :=
  script ++ [opcode].

(** Modelled from the spec: [CScript& operator<<(const std::vector<unsigned
    char>& b)], declared in script/script.h, which is not among the sources:
    the length, in the shortest of the four push forms, then the bytes. *)
Definition push_data (script : CScript) (b : list byte) : CScript :=
  let n := Z.of_nat (length b) in
  let header :=
    if (n <? byte_val OP_PUSHDATA1)%Z then [octet n]
    else if (n <=? 0xff)%Z then [OP_PUSHDATA1; octet n]
    else if (n <=? 0xffff)%Z then [OP_PUSHDATA2; octet n; octet (Z.shiftr n 8)]
    else [OP_PUSHDATA4; octet n; octet (Z.shiftr n 8);
          octet (Z.shiftr n 16); octet (Z.shiftr n 24)] in
  script ++ header ++ b.

(** A [uint256] (uint256.h): thirty-two bytes, zero on construction. *)
Definition uint256 := list byte.
Definition uint256_zero : uint256 := repeat x00 32.
Definition ToByteVector (h : uint256) : list byte := h.

(** ** ebc/ebc_address.h, ebc/ebc_address.cpp *)

(** [enum class EBCAddressVersion : uint8_t] *)
Abbreviation EBCAddressVersion := byte (only parsing).
Definition PQ_PUBKEY : EBCAddressVersion := x00.
Definition PQ_SCRIPT : EBCAddressVersion := x01.
Definition PQ_WITNESS_V0 : EBCAddressVersion := x02.
Definition PQ_WITNESS_V1 : EBCAddressVersion := x03.

Definition EBC_HRP : string := "ebc1".
Definition EBC_PUBKEY_HASH_SIZE : nat := 20.
Definition EBC_SCRIPT_HASH_SIZE : nat := 32.

(** The script builders of [namespace ebc_address]. *)
Module ebc_address.

Definition GetHRP : string := EBC_HRP.

Definition CreateP2PQPKHScript (pubkey_hash : list byte) (algo : PQAlgorithm)
  : CScript :=
  let script : CScript := [] in
  push_opcode
    (push_opcode
       (push_data (push_opcode (push_opcode script OP_DUP) OP_HASH160) pubkey_hash)
       OP_EQUALVERIFY)
    OP_PQCHECKSIG.

Definition CreateP2PQSHScript (script_hash : uint256) (algo : PQAlgorithm)
  : CScript :=
  let script : CScript := [] in
  push_opcode
    (push_data (push_opcode script OP_HASH256) (ToByteVector script_hash))
    OP_EQUAL.

(** [HashPQPubKey]: RIPEMD160 of [Hash] (the double SHA-256) of the
    serialized key, which begins with the algorithm byte.  The two hash
    functions are external (hash.h, crypto/ripemd160.h); the result vector
    has CRIPEMD160::OUTPUT_SIZE = 20 bytes. *)
Definition HashPQPubKey {lib : liboqs}
  (Hash : list byte -> uint256) (RIPEMD160 : list byte -> list byte)
  (pubkey : PQPubKey.t) : list byte :=
  if negb (PQPubKey.IsValid pubkey) then []
  else
    let serialized := PQPubKey.Serialize pubkey in
    let sha_hash := Hash serialized in
    written 20 (RIPEMD160 sha_hash).

End ebc_address.

(** [class EBCAddress] *)
Module EBCAddress.

Record t := {
  m_version : EBCAddressVersion;
  m_data : list byte;
  m_algorithm : PQAlgorithm
}.

(** [EBCAddress() : m_version(PQ_PUBKEY), m_algorithm(UNKNOWN) {}], the
    value every failing path returns. *)
Definition default : t :=
  {| m_version := PQ_PUBKEY; m_data := []; m_algorithm := UNKNOWN |}.

Definition GetVersion (a : t) := m_version a.
Definition GetData (a : t) := m_data a.
Definition GetAlgorithm (a : t) := m_algorithm a.

Definition IsValid (a : t) : bool :=
  if Z.eqb (m_algorithm a) UNKNOWN then false
  else if Byte.eqb (m_version a) PQ_PUBKEY then
    (length (m_data a) =? EBC_PUBKEY_HASH_SIZE)%nat
  else if Byte.eqb (m_version a) PQ_SCRIPT then
    (length (m_data a) =? EBC_SCRIPT_HASH_SIZE)%nat
  else if Byte.eqb (m_version a) PQ_WITNESS_V0 then
    (length (m_data a) =? EBC_PUBKEY_HASH_SIZE)%nat
    || (length (m_data a) =? EBC_SCRIPT_HASH_SIZE)%nat
  else if Byte.eqb (m_version a) PQ_WITNESS_V1 then
    (length (m_data a) =? EBC_SCRIPT_HASH_SIZE)%nat
  else false.

Definition ToString (a : t) : string :=
  if negb (IsValid a) then ""%string
  else
    (* data.push_back(static_cast<uint8_t>(m_algorithm)) *)
    let data : list byte := [m_version a; octet (m_algorithm a)] ++ m_data a in
    match ConvertBits 8 5 true (map byte_val data) with
    | None => ""%string
    | Some conv_data => bech32.Encode bech32.BECH32M EBC_HRP conv_data
    end.

Definition FromString (str : string) : t :=
  let dec := bech32.Decode str in
  if negb (bech32.Encoding_eqb (bech32.encoding dec) bech32.BECH32M)
     || negb (String.eqb (bech32.hrp dec) EBC_HRP)
  then default
  else
    match bech32.dec_data dec with
    | [] => default
    | _ :: _ =>
        match ConvertBits 5 8 false (bech32.dec_data dec) with
        | None => default
        | Some out =>
            let data := map octet out in
            if (length data <? 2)%nat then default
            else
              let version : EBCAddressVersion := nth 0 data x00 in
              let algorithm : PQAlgorithm := byte_val (nth 1 data x00) in
              let addr_data := skipn 2 data in
              let addr := {| m_version := version; m_data := addr_data;
                             m_algorithm := algorithm |} in
              if IsValid addr then addr else default
        end
    end.

Definition FromPQPubKey {lib : liboqs}
  (Hash : list byte -> uint256) (RIPEMD160 : list byte -> list byte)
  (pubkey : PQPubKey.t) : t :=
  if negb (PQPubKey.IsValid pubkey) then default
  else
    let hash := ebc_address.HashPQPubKey Hash RIPEMD160 pubkey in
    {| m_version := PQ_PUBKEY; m_data := hash;
       m_algorithm := PQPubKey.GetAlgorithm pubkey |}.

Definition FromScriptHash (hash : uint256) (algo : PQAlgorithm) : t :=
  {| m_version := PQ_SCRIPT; m_data := hash; m_algorithm := algo |}.

Definition GetScript (a : t) : CScript :=
  if negb (IsValid a) then []
  else if Byte.eqb (m_version a) PQ_PUBKEY then
    ebc_address.CreateP2PQPKHScript (m_data a) (m_algorithm a)
  else if Byte.eqb (m_version a) PQ_SCRIPT then
    let hash := copy_into (m_data a) uint256_zero in
    ebc_address.CreateP2PQSHScript hash (m_algorithm a)
  else if Byte.eqb (m_version a) PQ_WITNESS_V0
          || Byte.eqb (m_version a) PQ_WITNESS_V1 then
    (* Witness scripts - to be implemented *)
    []
  else [].

Definition IsP2PQPKH (a : t) : bool := Byte.eqb (m_version a) PQ_PUBKEY.
Definition IsP2PQSH (a : t) : bool := Byte.eqb (m_version a) PQ_SCRIPT.
Definition IsWitness (a : t) : bool :=
  Byte.eqb (m_version a) PQ_WITNESS_V0 || Byte.eqb (m_version a) PQ_WITNESS_V1.

End EBCAddress.

(** [ebc_address::IsValidEBCAddress] *)
Definition IsValidEBCAddress (str : string) : bool :=
  EBCAddress.IsValid (EBCAddress.FromString str).

(** [ebc_address::ExtractEBCAddress] *)
Definition ExtractEBCAddress (str : string) : EBCAddress.t :=
  EBCAddress.FromString str.

(** [ebc_address::ConvertFromLegacy]: "For now, just create from the PQ
    public key". *)
Definition ConvertFromLegacy {lib : liboqs}
  (Hash : list byte -> uint256) (RIPEMD160 : list byte -> list byte)
  (legacy_addr : string) (pq_pubkey : PQPubKey.t) : EBCAddress.t :=
  EBCAddress.FromPQPubKey Hash RIPEMD160 pq_pubkey.

(** [ebc_address::HashScript] *)
Definition HashScript (Hash : list byte -> uint256) (script : CScript) : uint256 :=
  Hash script.

(** ** chainparams_ebc.cpp : the cut-over heights of the three networks *)
Record EBCConsensus := {
  nEBCActivationHeight : Z;
  nGracePeriodBlocks : Z;
  nWhiteKnightSweepHeight : Z;
  fEBCEmergencyCouncilActive : bool;
  nEmergencyCouncilSunsetHeight : Z
}.

Definition CEBCParams : EBCConsensus :=
  {| nEBCActivationHeight := 0;
     nGracePeriodBlocks := 4320;
     nWhiteKnightSweepHeight := 25920;
     fEBCEmergencyCouncilActive := true;
     nEmergencyCouncilSunsetHeight := 52560 |}.

Definition CEBCTestNetParams : EBCConsensus :=
  {| nEBCActivationHeight := 0;
     nGracePeriodBlocks := 144;
     nWhiteKnightSweepHeight := 1008;
     fEBCEmergencyCouncilActive := true;
     nEmergencyCouncilSunsetHeight := 2016 |}.

Definition CEBCRegTestParams : EBCConsensus :=
  {| nEBCActivationHeight := 0;
     nGracePeriodBlocks := 10;
     nWhiteKnightSweepHeight := 50;
     fEBCEmergencyCouncilActive := true;
     nEmergencyCouncilSunsetHeight := 100 |}.

(** ** script/pq_interpreter.h : what a script execution is told of the phase

    The two flags are set by whoever builds the structure (both default to
    [false]); the pointers to the transaction and to its precomputed data
    are left out. *)
Record PQScriptExecutionData := {
  nIn : Z;
  amount : Z;
  fEBCActive : bool;
  fGracePeriod : bool
}.

(** ** The consensus phase *)
Inductive Phase :=
| PRE_ACTIVATION
| GRACE_DUAL_SIG
| PQ_ONLY
| SWEEP_ELIGIBLE
| SWEEP_COMPLETE
| RECLAIM_WINDOW.



(** The inputs section 4.5 lists besides the current height;
    [activationHeight] is unset until the activation signal is accepted. *)
Record PhaseInputs := {
  activationHeight : option Z;
  graceDurationBlocks : Z;
  sweepDurationBlocks : Z;
  councilSunsetBlocks : Z
}.

(** Modelled from the spec: what the conditions of section 4.5 refer to
    besides the height and the inputs above.  SWEEP_COMPLETE and
    RECLAIM_WINDOW are worded by the inclusion of the sweep transaction set
    and by a configured expiry; [sweepCompletionHeight] is the height at
    which the set was included, unset while it has not been, and
    [reclaimExpiryHeight] is the expiry.  No source file holds either. *)
Record SweepRecord := {
  sweepCompletionHeight : option Z;
  reclaimExpiryHeight : Z
}.

(** Modelled from the spec: "sweep executed", as seen from height [h]. *)
Definition sweep_executed (w : SweepRecord) (h : Z) : bool :=
  match sweepCompletionHeight w with
  | None => false
  | Some s => (s <=? h)%Z
  end.

(** Modelled from the spec: the condition section 4.5 writes next to each
    phase, taken one by one and as worded there; no source file implements
    the derivation (the sources hold the heights of chainparams_ebc.cpp and
    the two flags of [PQScriptExecutionData]).
    - PRE_ACTIVATION: the activation height is unset, or the height is below
      it;
    - GRACE_DUAL_SIG: activation <= height < activation + grace;
    - PQ_ONLY: activation + grace <= height < activation + sweep;
    - SWEEP_ELIGIBLE: height >= activation + sweep, sweep not yet executed;
    - SWEEP_COMPLETE: the sweep set has been included;
    - RECLAIM_WINDOW: from the completion of the sweep until the expiry. *)
Definition phase_condition (c : PhaseInputs) (w : SweepRecord) (h : Z) (p : Phase)
  : bool :=
  match p with
  | PRE_ACTIVATION =>
      match activationHeight c with
      | None => true
      | Some a => (h <? a)%Z
      end
  | GRACE_DUAL_SIG =>
      match activationHeight c with
      | None => false
      | Some a => ((a <=? h) && (h <? a + graceDurationBlocks c))%Z
      end
  | PQ_ONLY =>
      match activationHeight c with
      | None => false
      | Some a =>
          ((a + graceDurationBlocks c <=? h) && (h <? a + sweepDurationBlocks c))%Z
      end
  | SWEEP_ELIGIBLE =>
      match activationHeight c with
      | None => false
      | Some a => (a + sweepDurationBlocks c <=? h)%Z && negb (sweep_executed w h)
      end
  | SWEEP_COMPLETE => sweep_executed w h
  | RECLAIM_WINDOW => sweep_executed w h && (h <? reclaimExpiryHeight w)%Z
  end.


(** The grace period is not negative and ends no later than the sweep delay. *)
Definition durations_ordered (c : PhaseInputs) : Prop :=
  (0 <= graceDurationBlocks c <= sweepDurationBlocks c)%Z.


(** The inputs a network of chainparams_ebc.cpp fixes: the sweep boundary is
    given there as a height. *)
Definition inputs_of (p : EBCConsensus) : PhaseInputs :=
  {| activationHeight := Some (nEBCActivationHeight p);
     graceDurationBlocks := nGracePeriodBlocks p;
     sweepDurationBlocks := (nWhiteKnightSweepHeight p - nEBCActivationHeight p)%Z;
     councilSunsetBlocks := nEmergencyCouncilSunsetHeight p |}.

(** ** A stand-in for liboqs

    The key classes can only be run against some provider of the three entry
    points.  This one has short keys; a signature is the public key followed
    by the message, so that verification accepts exactly the signatures made
    for the same message and key pair.  The public key is computed from the
    leading half of the secret key. *)
Module mock.

Definition next (b : byte) : byte := octet (byte_val b + 1).

Definition public_of (pklen : nat) (sk : list byte) : list byte :=
  map next (firstn pklen sk).

Definition bytes_eqb (a b : list byte) : bool :=
  if list_eq_dec Byte.byte_eq_dec a b then true else false.

Definition scheme (pklen hashlen : nat) : OQS_SIG :=
  {| length_public_key := pklen;
     length_secret_key := 2 * pklen;
     length_signature := pklen + hashlen;
     OQS_SIG_keypair := fun rnd =>
       let sk := written (2 * pklen) rnd in
       (OQS_SUCCESS, (public_of pklen sk, sk));
     OQS_SIG_sign := fun _ msg sk =>
       if (length msg <=? hashlen)%nat
       then (OQS_SUCCESS, public_of pklen sk ++ msg)
       else (OQS_ERROR, []);
     OQS_SIG_verify := fun msg sig pk =>
       if bytes_eqb sig (pk ++ msg) then OQS_SUCCESS else OQS_ERROR |}.

Definition lib : liboqs :=
  {| OQS_SIG_new := fun name =>
       match name with
       | OQS_SIG_alg_dilithium_3 => Some (scheme 4 32)
       | OQS_SIG_alg_falcon_512 => Some (scheme 3 32)
       end |}.

End mock.

(** ** How key and signature objects come into being

    An object is first what a declared constructor or a factory returned;
    from there the implicit copy and move members make further objects and
    change existing ones.  Neither class has another mutating member. *)

(** What the declared constructors and the factories return. *)
Inductive PQPubKey_returned {lib : liboqs} : PQPubKey.t -> Prop :=
| pub_by_default : PQPubKey_returned PQPubKey.default
| pub_by_make : forall data algo, PQPubKey_returned (PQPubKey.make data algo)
| pub_by_Deserialize : forall data, PQPubKey_returned (PQPubKey.Deserialize data)
| pub_by_GetPubKey : forall k, PQPubKey_returned (PQPrivKey.GetPubKey k)
| pub_by_GenerateKeyPair : forall algo rnd,
    PQPubKey_returned (snd (PQPrivKey.GenerateKeyPair algo rnd)).

Inductive PQSignature_returned {lib : liboqs} : PQSignature.t -> Prop :=
| sig_by_default : PQSignature_returned PQSignature.default
| sig_by_make : forall data algo, PQSignature_returned (PQSignature.make data algo)
| sig_by_Deserialize : forall data, PQSignature_returned (PQSignature.Deserialize data).

(** The stores a program can bring about: an object is set up from a
    returned value, copied, or moved; a move involves two distinct
    objects. *)
Inductive PQPubKey_reachable {lib : liboqs} : PQPubKey.store -> Prop :=
| pub_store_initial : PQPubKey_reachable (fun _ => PQPubKey.default)
| pub_store_new : forall m this k,
    PQPubKey_reachable m -> PQPubKey_returned k ->
    PQPubKey_reachable (PQPubKey.put m this k)
| pub_store_copy_construct : forall m this other,
    PQPubKey_reachable m -> PQPubKey_reachable (PQPubKey.copy_construct m this other)
| pub_store_copy_assign : forall m this other,
    PQPubKey_reachable m -> PQPubKey_reachable (PQPubKey.copy_assign m this other)
| pub_store_move_construct : forall m this other,
    PQPubKey_reachable m -> this <> other ->
    PQPubKey_reachable (PQPubKey.move_construct m this other)
| pub_store_move_assign : forall m this other,
    PQPubKey_reachable m -> this <> other ->
    PQPubKey_reachable (PQPubKey.move_assign m this other).

Inductive PQSignature_reachable {lib : liboqs} : PQSignature.store -> Prop :=
| sig_store_initial : PQSignature_reachable (fun _ => PQSignature.default)
| sig_store_new : forall m this s,
    PQSignature_reachable m -> PQSignature_returned s ->
    PQSignature_reachable (PQSignature.put m this s)
| sig_store_copy_construct : forall m this other,
    PQSignature_reachable m ->
    PQSignature_reachable (PQSignature.copy_construct m this other)
| sig_store_copy_assign : forall m this other,
    PQSignature_reachable m ->
    PQSignature_reachable (PQSignature.copy_assign m this other)
| sig_store_move_construct : forall m this other,
    PQSignature_reachable m -> this <> other ->
    PQSignature_reachable (PQSignature.move_construct m this other)
| sig_store_move_assign : forall m this other,
    PQSignature_reachable m -> this <> other ->
    PQSignature_reachable (PQSignature.move_assign m this other).

(** An algorithm tag that names one of the two schemes. *)
Definition recognized (algo : PQAlgorithm) : Prop :=
  algo = DILITHIUM3 \/ algo = FALCON512.

(** The state the sources leave a private key in when it holds nothing:
    default-constructed, cleared or moved from. *)
Definition PQPrivKey_holds_nothing {lib : liboqs} (k : PQPrivKey.t) : Prop :=
  PQPrivKey.GetAlgorithm k = UNKNOWN
  /\ PQPrivKey.m_data k = []
  /\ PQPrivKey.IsValid k = false
  /\ forall rnd hash, PQPrivKey.Sign k rnd hash = [].

(** ** Notions used to reason about the codec *)

#[local] Open Scope Z_scope.

(** A sequence of [w]-bit values read as a number, most significant first,
    continuing from [start]. *)
Definition radix_value (w : Z) (l : list Z) (start : Z) : Z :=
  fold_left (fun a x => a * 2 ^ w + x) l start.

(** [x] fits in [w] bits. *)
Definition in_width (w : Z) (x : Z) : Prop := 0 <= x < 2 ^ w.

(** The six groups cut out of a thirty-bit value, read back as a number. *)
Definition checksum_groups (m : Z) : list Z :=
  map (fun i => Z.land (Z.shiftr m (5 * (5 - Z.of_nat i))) 31) (seq 0 bech32.CHECKSUM_SIZE).

(** An upper-case letter. *)
Definition is_upper (c : ascii) : bool :=
  (bech32.code "A" <=? bech32.code c) && (bech32.code c <=? bech32.code "Z").

(** A character [CheckCharacters] lets through whatever came before it,
    short of an upper-case letter. *)
Definition quiet (c : ascii) : bool :=
  negb (is_upper c) && (33 <=? bech32.code c) && (bech32.code c <=? 126).

(** Any character but the separator. *)
Definition not_separator (c : ascii) : bool := negb (Ascii.eqb c "1").

(** [CHARSET_REV[c]] *)
Definition rev_of (c : ascii) : Z := nth (Z.to_nat (bech32.code c)) bech32.CHARSET_REV (-1).

(** The characters of the prefix. *)
Definition ebc_hrp : list ascii := list_ascii_of_string EBC_HRP.

(** The address with the algorithm value that the text of [a] carries:
    [static_cast<uint8_t>(m_algorithm)], read back as a [PQAlgorithm]. *)
Definition low_byte_address (a : EBCAddress.t) : EBCAddress.t :=
  {| EBCAddress.m_version := EBCAddress.m_version a;
     EBCAddress.m_data := EBCAddress.m_data a;
     EBCAddress.m_algorithm := byte_val (octet (EBCAddress.m_algorithm a)) |}.

(** [CHARSET_REV] and [CHARSET] agree at [c], unless [c] is an upper-case
    letter or has no entry. *)
Definition char_table_entry_ok (c : ascii) : bool :=
  is_upper c
  || (rev_of c =? -1)%Z
  || ((0 <=? rev_of c)%Z && (rev_of c <? 32)%Z
      && Ascii.eqb (bech32.charset_at (rev_of c)) c).

(** [s] with every upper-case letter replaced by its lower-case one. *)
Definition lower_case (s : string) : string :=
  string_of_list_ascii (map bech32.LowerCase (list_ascii_of_string s)).

(** [CHARSET_REV] at [c] and [CHARSET] agree up to the case of [c], unless
    [c] has no entry. *)
Definition char_table_entry_lower (c : ascii) : bool :=
  (rev_of c =? -1)%Z
  || ((0 <=? rev_of c)%Z && (rev_of c <? 32)%Z
      && Ascii.eqb (bech32.charset_at (rev_of c)) (bech32.LowerCase c)).

(** The little-endian value of four bytes. *)
Definition le32 (b0 b1 b2 b3 : byte) : Z :=
  byte_val b0 + byte_val b1 * 2 ^ 8 + byte_val b2 * 2 ^ 16 + byte_val b3 * 2 ^ 24.

#[local] Close Scope Z_scope.

(** ** Sample values *)
Module sample.

(** A Falcon-tagged public key and a Dilithium-tagged signature whose bytes
    are that key followed by the message [04]. *)
Definition falcon_key : PQPubKey.t :=
  {| PQPubKey.m_data := [x01; x02; x03]; PQPubKey.m_algorithm := FALCON512 |}.
Definition dilithium_sig : PQSignature.t :=
  {| PQSignature.m_data := [x01; x02; x03; x04];
     PQSignature.m_algorithm := DILITHIUM3 |}.

(** A serialized signature with tag 7 and a consistent length prefix. *)
Definition sig_with_tag_7 : list byte := [x07; x01; x00; x00; x00; xaa].

(** A store holding a valid private key at address 1. *)
Definition private_key : PQPrivKey.t :=
  {| PQPrivKey.m_data := [x10; x11; x12; x13; x14; x15; x16; x17];
     PQPrivKey.m_algorithm := DILITHIUM3;
     PQPrivKey.m_sig_ctx := None |}.
Definition memory : PQPrivKey.store :=
  PQPrivKey.put (fun _ => PQPrivKey.default) 1 private_key.

Definition hash20 : list byte := repeat x00 20.
Definition hash32 : list byte := repeat x00 32.

Definition p2pqpkh_dilithium : EBCAddress.t :=
  {| EBCAddress.m_version := PQ_PUBKEY; EBCAddress.m_data := hash20;
     EBCAddress.m_algorithm := DILITHIUM3 |}.
Definition p2pqpkh_falcon : EBCAddress.t :=
  {| EBCAddress.m_version := PQ_PUBKEY; EBCAddress.m_data := hash20;
     EBCAddress.m_algorithm := FALCON512 |}.
(** Two addresses as the public constructor makes them from
    [static_cast<pq::PQAlgorithm>(256)] and [static_cast<pq::PQAlgorithm>(258)]. *)
Definition p2pqpkh_256 : EBCAddress.t :=
  {| EBCAddress.m_version := PQ_PUBKEY; EBCAddress.m_data := hash20;
     EBCAddress.m_algorithm := 256%Z |}.
Definition p2pqpkh_258 : EBCAddress.t :=
  {| EBCAddress.m_version := PQ_PUBKEY; EBCAddress.m_data := hash20;
     EBCAddress.m_algorithm := 258%Z |}.
Definition witness_v0 : EBCAddress.t :=
  {| EBCAddress.m_version := PQ_WITNESS_V0; EBCAddress.m_data := hash20;
     EBCAddress.m_algorithm := DILITHIUM3 |}.
Definition p2pqsh_dilithium : EBCAddress.t :=
  EBCAddress.FromScriptHash hash32 DILITHIUM3.

(** A Bech32m string with the "ebc1" prefix whose payload is version 0,
    algorithm byte 7 and twenty zero bytes. *)
Definition text_with_algorithm_7 : string :=
  "ebc11qqrsqqqqqqqqqqqqqqqqqqqqqqqqqqqqqqqqz6pz9g".

(** The message of [pq_signature_test] and the bytes a key generation drew. *)
Definition message : list byte := [x01; x02; x03; x04].
Definition drawn : entropy := [x10; x11; x12; x13; x14; x15; x16; x17].

(** A Dilithium-tagged public key of the stand-in's length, and the
    serialization of a one-byte signature. *)
Definition dilithium_key : PQPubKey.t :=
  {| PQPubKey.m_data := [x01; x02; x03; x04]; PQPubKey.m_algorithm := DILITHIUM3 |}.
Definition serialized_key : list byte := [x00; x01; x02; x03; x04].
Definition serialized_sig : list byte := [x00; x01; x00; x00; x00; xaa].

(** The key pair the stand-in generates from [drawn], and its signature of
    [message]. *)
Definition generated_public : list byte := [x11; x12; x13; x14].
Definition generated_signature : list byte :=
  [x11; x12; x13; x14; x01; x02; x03; x04].

(** The text of [p2pqpkh_dilithium], and the same in upper case. *)
Definition p2pqpkh_text : string :=
  "ebc11qqqqqqqqqqqqqqqqqqqqqqqqqqqqqqqqqqqqy0hxw6".
Definition upper_case_text : string :=
  "EBC11QQQQQQQQQQQQQQQQQQQQQQQQQQQQQQQQQQQQY0HXW6".

(** A stand-in for the two hash functions: the bytes themselves. *)
Definition digest (b : list byte) : list byte := b.

(** A store with [dilithium_key] at address 1, and the same after
    [PQPubKey moved(std::move(key))] has built an object at address 0. *)
Definition public_keys : PQPubKey.store :=
  PQPubKey.put (fun _ => PQPubKey.default) 1 dilithium_key.
Definition public_keys_after_move : PQPubKey.store :=
  PQPubKey.move_construct public_keys 0 1.

(** The same for [dilithium_sig]. *)
Definition signatures : PQSignature.store :=
  PQSignature.put (fun _ => PQSignature.default) 1 dilithium_sig.
Definition signatures_after_move : PQSignature.store :=
  PQSignature.move_construct signatures 0 1.

(** The inputs of the end-to-end scenario of section 8. *)
Definition scenario : PhaseInputs :=
  {| activationHeight := Some 1000%Z; graceDurationBlocks := 100;
     sweepDurationBlocks := 300; councilSunsetBlocks := 0 |}.


(** No sweep so far; and a sweep included at height 26000, with the reclaim
    window open up to height 100000. *)
Definition no_sweep : SweepRecord :=
  {| sweepCompletionHeight := None; reclaimExpiryHeight := 0 |}.
Definition sweep_at_26000 : SweepRecord :=
  {| sweepCompletionHeight := Some 26000%Z; reclaimExpiryHeight := 100000 |}.

End sample.

(* ================================================================== *)
(** * Properties *)

(** ** Bytes *)

Lemma byte_eqb_refl (b : byte) : Byte.eqb b b = true.
Proof. now apply Byte.byte_dec_lb. Qed.

Lemma byte_eqb_neq (a b : byte) : a <> b -> Byte.eqb a b = false.
Proof.
  intros Hne. destruct (Byte.eqb a b) eqn:E; [|reflexivity].
  now apply Byte.byte_dec_bl in E.
Qed.

Lemma byte_eqb_eq (a b : byte) : Byte.eqb a b = true <-> a = b.
Proof. split; [apply Byte.byte_dec_bl | apply Byte.byte_dec_lb]. Qed.

Lemma byte_val_range (b : byte) : (0 <= byte_val b < 256)%Z.
Proof.
  unfold byte_val. pose proof (Byte.to_N_bounded b). lia.
Qed.

(** Converting to [unsigned char] and reading the value keeps the residue
    modulo 256. *)
Lemma byte_val_octet (z : Z) : byte_val (octet z) = (z mod 256)%Z.
Proof.
  unfold octet, byte_val.
  assert (Hr : (0 <= z mod 256 < 256)%Z) by (apply Z.mod_pos_bound; lia).
  destruct (Byte.of_N (Z.to_N (z mod 256))) as [b|] eqn:E.
  - apply Byte.to_of_N in E. rewrite E. lia.
  - apply Byte.of_N_None_iff in E. lia.
Qed.

Lemma byte_val_octet_small (z : Z) : (0 <= z < 256)%Z -> byte_val (octet z) = z.
Proof. intros Hz. rewrite byte_val_octet. now apply Z.mod_small. Qed.

Lemma byte_val_inj (a b : byte) : byte_val a = byte_val b -> a = b.
Proof.
  intros H.
  assert (E : Byte.to_N a = Byte.to_N b) by (unfold byte_val in H; lia).
  pose proof (Byte.of_to_N a) as Ha. pose proof (Byte.of_to_N b) as Hb.
  rewrite E in Ha. congruence.
Qed.

(** ** Algorithm values *)

Lemma tag_eqb_refl (a : PQAlgorithm) : Z.eqb a a = true.
Proof. apply Z.eqb_refl. Qed.

Lemma tag_eqb_neq (a b : PQAlgorithm) : a <> b -> Z.eqb a b = false.
Proof. apply Z.eqb_neq. Qed.

Lemma tag_eqb_eq (a b : PQAlgorithm) : Z.eqb a b = true <-> a = b.
Proof. apply Z.eqb_eq. Qed.

Lemma GetOQSAlgorithmName_recognized (algo : PQAlgorithm) :
  GetOQSAlgorithmName algo <> None <-> recognized algo.
Proof.
  unfold GetOQSAlgorithmName, recognized.
  destruct (Z.eqb algo DILITHIUM3) eqn:E0.
  - apply tag_eqb_eq in E0. split; [now left | discriminate].
  - destruct (Z.eqb algo FALCON512) eqn:E1.
    + apply tag_eqb_eq in E1. split; [now right | discriminate].
    + apply Z.eqb_neq in E0. apply Z.eqb_neq in E1.
      split; [congruence | intros [H|H]; contradiction].
Qed.

Lemma recognized_in_width (algo : PQAlgorithm) : recognized algo -> in_width 8 algo.
Proof. intros [-> | ->]; vm_compute; split; [discriminate | reflexivity | discriminate | reflexivity]. Qed.

(** ** Keys and signatures *)
Section KeyFacts.
Context {lib : liboqs}.

Lemma PQPubKey_default_invalid : PQPubKey.IsValid PQPubKey.default = false.
Proof. reflexivity. Qed.

Lemma PQSignature_default_invalid : PQSignature.IsValid PQSignature.default = false.
Proof. reflexivity. Qed.

Lemma PQPrivKey_default_invalid : PQPrivKey.IsValid PQPrivKey.default = false.
Proof. reflexivity. Qed.

(** The two-argument constructor keeps its arguments exactly when they pass
    [IsValid], and builds the default object otherwise. *)
Lemma PQPubKey_make_cases data algo :
  (PQPubKey.make data algo = {| PQPubKey.m_data := data; PQPubKey.m_algorithm := algo |}
   /\ PQPubKey.IsValid (PQPubKey.make data algo) = true)
  \/ PQPubKey.make data algo = PQPubKey.default.
Proof.
  unfold PQPubKey.make.
  destruct (PQPubKey.IsValid {| PQPubKey.m_data := data; PQPubKey.m_algorithm := algo |}) eqn:E;
    cbn [negb]; [left; split; [reflexivity | exact E] | right; reflexivity].
Qed.

Lemma PQSignature_make_cases data algo :
  (PQSignature.make data algo
     = {| PQSignature.m_data := data; PQSignature.m_algorithm := algo |}
   /\ PQSignature.IsValid (PQSignature.make data algo) = true)
  \/ PQSignature.make data algo = PQSignature.default.
Proof.
  unfold PQSignature.make.
  destruct (PQSignature.IsValid
              {| PQSignature.m_data := data; PQSignature.m_algorithm := algo |}) eqn:E;
    cbn [negb]; [left; split; [reflexivity | exact E] | right; reflexivity].
Qed.

Lemma PQPubKey_valid_length k :
  PQPubKey.IsValid k = true ->
  recognized (PQPubKey.m_algorithm k)
  /\ length (PQPubKey.m_data k) = PQPubKey.GetPubKeySize (PQPubKey.m_algorithm k)
  /\ (0 < length (PQPubKey.m_data k))%nat.
Proof.
  unfold PQPubKey.IsValid.
  destruct (Z.eqb (PQPubKey.m_algorithm k) UNKNOWN); [discriminate|].
  intros H. apply andb_true_iff in H as [Hpos Hlen].
  apply Nat.ltb_lt in Hpos. apply Nat.eqb_eq in Hlen.
  split; [|split; lia].
  apply GetOQSAlgorithmName_recognized.
  unfold PQPubKey.GetPubKeySize in Hpos.
  destruct (GetOQSAlgorithmName (PQPubKey.m_algorithm k)); [discriminate | lia].
Qed.

Lemma PQSignature_valid_length s :
  PQSignature.IsValid s = true ->
  recognized (PQSignature.m_algorithm s)
  /\ PQSignature.m_data s <> []
  /\ (length (PQSignature.m_data s)
      <= PQSignature.GetSignatureSize (PQSignature.m_algorithm s))%nat.
Proof.
  unfold PQSignature.IsValid.
  destruct (Z.eqb (PQSignature.m_algorithm s) UNKNOWN); [discriminate|].
  destruct (PQSignature.m_data s) as [|b d] eqn:Ed; [discriminate|].
  intros H. apply andb_true_iff in H as [Hpos Hlen].
  apply Nat.ltb_lt in Hpos. apply Nat.leb_le in Hlen.
  split; [|split; [discriminate | exact Hlen]].
  apply GetOQSAlgorithmName_recognized.
  unfold PQSignature.GetSignatureSize in Hpos.
  destruct (GetOQSAlgorithmName (PQSignature.m_algorithm s)); [discriminate | lia].
Qed.

Lemma PQSignature_unrecognized_invalid data algo :
  ~ recognized algo ->
  PQSignature.make data algo = PQSignature.default.
Proof.
  intros Hn. destruct (PQSignature_make_cases data algo) as [[Heq Hv]|H]; [|exact H].
  apply PQSignature_valid_length in Hv as [Hr _].
  rewrite Heq in Hr. contradiction.
Qed.

Lemma Verify_invalid_signature s hash pubkey :
  PQSignature.IsValid s = false -> PQSignature.Verify s hash pubkey = false.
Proof. intros H. unfold PQSignature.Verify. now rewrite H. Qed.

(** C3: a signature and a public key whose algorithm tags differ never
    verify, whatever the message, the signature bytes and the key bytes. *)
Theorem Verify_rejects_algorithm_mismatch :
  forall (s : PQSignature.t) (k : PQPubKey.t) (m : list byte),
    PQSignature.GetAlgorithm s <> PQPubKey.GetAlgorithm k ->
    PQSignature.Verify s m k = false.
Proof.
  intros s k m Hne. unfold PQSignature.Verify.
  destruct (negb (PQSignature.IsValid s) || negb (PQPubKey.IsValid k)); [reflexivity|].
  unfold PQSignature.GetAlgorithm in Hne.
  now rewrite (tag_eqb_neq _ _ Hne).
Qed.

(** What a declared constructor or a factory of [PQPubKey] returns. *)
Lemma PQPubKey_returned_cases (k : PQPubKey.t) :
  PQPubKey_returned k ->
  (PQPubKey.IsValid k = true
   /\ recognized (PQPubKey.GetAlgorithm k)
   /\ length (PQPubKey.GetData k) = PQPubKey.GetPubKeySize (PQPubKey.GetAlgorithm k))
  \/ (k = PQPubKey.default /\ PQPubKey.IsValid k = false).
Proof.
  assert (Hmake : forall data algo,
    (PQPubKey.IsValid (PQPubKey.make data algo) = true
      /\ recognized (PQPubKey.GetAlgorithm (PQPubKey.make data algo))
      /\ length (PQPubKey.GetData (PQPubKey.make data algo))
         = PQPubKey.GetPubKeySize (PQPubKey.GetAlgorithm (PQPubKey.make data algo)))
     \/ (PQPubKey.make data algo = PQPubKey.default
         /\ PQPubKey.IsValid (PQPubKey.make data algo) = false)).
  { intros data algo.
    destruct (PQPubKey_make_cases data algo) as [[_ Hv]|Hd].
    - left. destruct (PQPubKey_valid_length _ Hv) as (Hr & Hl & _). auto.
    - right. rewrite Hd. auto. }
  assert (Hdef : (PQPubKey.default = PQPubKey.default
                  /\ PQPubKey.IsValid PQPubKey.default = false)) by auto.
  intros Hk. destruct Hk as [|data algo|data|p|algo rnd].
  - right. exact Hdef.
  - apply Hmake.
  - unfold PQPubKey.Deserialize. destruct data as [|d0 rest]; [right; exact Hdef|].
    destruct (Z.eqb (byte_val d0) UNKNOWN); [right; exact Hdef | apply Hmake].
  - unfold PQPrivKey.GetPubKey.
    destruct (negb (PQPrivKey.IsValid p)); [right; exact Hdef|].
    destruct (GetOQSAlgorithmName (PQPrivKey.m_algorithm p)); [|right; exact Hdef].
    destruct (OQS_SIG_new o); [apply Hmake | right; exact Hdef].
  - unfold PQPrivKey.GenerateKeyPair.
    destruct (GetOQSAlgorithmName algo); [|right; exact Hdef].
    destruct (OQS_SIG_new o) as [sig|]; [|right; exact Hdef].
    destruct (OQS_SIG_keypair sig rnd) as [status [pk sk]].
    destruct (negb (OQS_STATUS_eqb status OQS_SUCCESS)); cbn [snd];
      [right; exact Hdef | apply Hmake].
Qed.

(** What a declared constructor or a factory of [PQSignature] returns. *)
Lemma PQSignature_returned_cases (s : PQSignature.t) :
  PQSignature_returned s ->
  (PQSignature.IsValid s = true
   /\ recognized (PQSignature.GetAlgorithm s)
   /\ PQSignature.GetData s <> []
   /\ (length (PQSignature.GetData s)
       <= PQSignature.GetSignatureSize (PQSignature.GetAlgorithm s))%nat)
  \/ (s = PQSignature.default /\ PQSignature.IsValid s = false).
Proof.
  assert (Hsmake : forall data algo,
    (PQSignature.IsValid (PQSignature.make data algo) = true
      /\ recognized (PQSignature.GetAlgorithm (PQSignature.make data algo))
      /\ PQSignature.GetData (PQSignature.make data algo) <> []
      /\ (length (PQSignature.GetData (PQSignature.make data algo))
          <= PQSignature.GetSignatureSize
               (PQSignature.GetAlgorithm (PQSignature.make data algo)))%nat)
     \/ (PQSignature.make data algo = PQSignature.default
         /\ PQSignature.IsValid (PQSignature.make data algo) = false)).
  { intros data algo.
    destruct (PQSignature_make_cases data algo) as [[_ Hv]|Hd].
    - left. destruct (PQSignature_valid_length _ Hv) as (Hr & Hn & Hl). auto.
    - right. rewrite Hd. auto. }
  intros Hs. destruct Hs as [|data algo|data].
  - right. auto.
  - apply Hsmake.
  - unfold PQSignature.Deserialize.
    destruct (length data <? 5)%nat; [right; auto|].
    destruct (Z.eqb (byte_val (nth 0 data x00)) UNKNOWN); [right; auto|].
    destruct (negb _); [right; auto | apply Hsmake].
Qed.

(** An object without data is invalid, whatever its algorithm. *)
Lemma PQPubKey_empty_invalid (algo : PQAlgorithm) :
  PQPubKey.IsValid {| PQPubKey.m_data := []; PQPubKey.m_algorithm := algo |} = false.
Proof.
  unfold PQPubKey.IsValid. cbn [PQPubKey.m_data PQPubKey.m_algorithm length].
  destruct (Z.eqb algo UNKNOWN); [reflexivity|].
  destruct (PQPubKey.GetPubKeySize algo); reflexivity.
Qed.

Lemma PQSignature_empty_invalid (algo : PQAlgorithm) :
  PQSignature.IsValid
    {| PQSignature.m_data := []; PQSignature.m_algorithm := algo |} = false.
Proof.
  unfold PQSignature.IsValid. cbn [PQSignature.m_data PQSignature.m_algorithm].
  destruct (Z.eqb algo UNKNOWN); reflexivity.
Qed.

(** The implicit members, object by object: a copy leaves at [this] the
    value of [other]; a move also empties the data of [other]. *)
Lemma PQPubKey_copy_at (m : PQPubKey.store) (this other a : PQPubKey.addr) :
  PQPubKey.copy_construct m this other a = (if Nat.eqb a this then m other else m a)
  /\ PQPubKey.copy_assign m this other a = (if Nat.eqb a this then m other else m a).
Proof.
  unfold PQPubKey.copy_construct, PQPubKey.copy_assign, PQPubKey.set_algorithm,
    PQPubKey.set_data, PQPubKey.put.
  rewrite !Nat.eqb_refl.
  destruct (Nat.eqb a this) eqn:Ea; [|split; reflexivity].
  cbn [PQPubKey.m_data PQPubKey.m_algorithm].
  destruct (Nat.eqb other this) eqn:Eo.
  - apply Nat.eqb_eq in Eo. subst other. destruct (m this); split; reflexivity.
  - destruct (m other); split; reflexivity.
Qed.

Lemma PQPubKey_move_at (m : PQPubKey.store) (this other a : PQPubKey.addr) :
  this <> other ->
  let moved :=
    if Nat.eqb a this then m other
    else if Nat.eqb a other
         then {| PQPubKey.m_data := [];
                 PQPubKey.m_algorithm := PQPubKey.m_algorithm (m other) |}
         else m a in
  PQPubKey.move_construct m this other a = moved
  /\ PQPubKey.move_assign m this other a = moved.
Proof.
  intros Hne. cbv zeta.
  unfold PQPubKey.move_construct, PQPubKey.move_assign, PQPubKey.set_algorithm,
    PQPubKey.set_data, PQPubKey.put.
  assert (Hto : Nat.eqb this other = false) by now apply Nat.eqb_neq.
  assert (Hot : Nat.eqb other this = false) by (apply Nat.eqb_neq; congruence).
  rewrite !Nat.eqb_refl, ?Hto, ?Hot.
  cbn [PQPubKey.m_data PQPubKey.m_algorithm].
  rewrite ?Nat.eqb_refl, ?Hto, ?Hot.
  cbn [PQPubKey.m_data PQPubKey.m_algorithm].
  destruct (Nat.eqb a this) eqn:Ea.
  - destruct (m other); split; reflexivity.
  - destruct (Nat.eqb a other); split; reflexivity.
Qed.

Lemma PQSignature_copy_at (m : PQSignature.store) (this other a : PQSignature.addr) :
  PQSignature.copy_construct m this other a
  = (if Nat.eqb a this then m other else m a)
  /\ PQSignature.copy_assign m this other a
     = (if Nat.eqb a this then m other else m a).
Proof.
  unfold PQSignature.copy_construct, PQSignature.copy_assign,
    PQSignature.set_algorithm, PQSignature.set_data, PQSignature.put.
  rewrite !Nat.eqb_refl.
  destruct (Nat.eqb a this) eqn:Ea; [|split; reflexivity].
  cbn [PQSignature.m_data PQSignature.m_algorithm].
  destruct (Nat.eqb other this) eqn:Eo.
  - apply Nat.eqb_eq in Eo. subst other. destruct (m this); split; reflexivity.
  - destruct (m other); split; reflexivity.
Qed.

Lemma PQSignature_move_at (m : PQSignature.store) (this other a : PQSignature.addr) :
  this <> other ->
  let moved :=
    if Nat.eqb a this then m other
    else if Nat.eqb a other
         then {| PQSignature.m_data := [];
                 PQSignature.m_algorithm := PQSignature.m_algorithm (m other) |}
         else m a in
  PQSignature.move_construct m this other a = moved
  /\ PQSignature.move_assign m this other a = moved.
Proof.
  intros Hne. cbv zeta.
  unfold PQSignature.move_construct, PQSignature.move_assign,
    PQSignature.set_algorithm, PQSignature.set_data, PQSignature.put.
  assert (Hto : Nat.eqb this other = false) by now apply Nat.eqb_neq.
  assert (Hot : Nat.eqb other this = false) by (apply Nat.eqb_neq; congruence).
  rewrite !Nat.eqb_refl, ?Hto, ?Hot.
  cbn [PQSignature.m_data PQSignature.m_algorithm].
  rewrite ?Nat.eqb_refl, ?Hto, ?Hot.
  cbn [PQSignature.m_data PQSignature.m_algorithm].
  destruct (Nat.eqb a this) eqn:Ea.
  - destruct (m other); split; reflexivity.
  - destruct (Nat.eqb a other); split; reflexivity.
Qed.

(** The two states a [PQPubKey] is found in. *)
Lemma PQPubKey_reachable_states (m : PQPubKey.store) :
  PQPubKey_reachable m ->
  forall a : PQPubKey.addr,
    (PQPubKey.IsValid (m a) = true
     /\ recognized (PQPubKey.GetAlgorithm (m a))
     /\ length (PQPubKey.GetData (m a))
        = PQPubKey.GetPubKeySize (PQPubKey.GetAlgorithm (m a)))
    \/ (PQPubKey.IsValid (m a) = false
        /\ PQPubKey.GetData (m a) = []
        /\ (PQPubKey.GetAlgorithm (m a) = UNKNOWN
            \/ recognized (PQPubKey.GetAlgorithm (m a)))).
Proof.
  assert (Hmoved : forall k : PQPubKey.t,
    ((PQPubKey.IsValid k = true
      /\ recognized (PQPubKey.GetAlgorithm k)
      /\ length (PQPubKey.GetData k) = PQPubKey.GetPubKeySize (PQPubKey.GetAlgorithm k))
     \/ (PQPubKey.IsValid k = false
         /\ PQPubKey.GetData k = []
         /\ (PQPubKey.GetAlgorithm k = UNKNOWN \/ recognized (PQPubKey.GetAlgorithm k)))) ->
    let e := {| PQPubKey.m_data := []; PQPubKey.m_algorithm := PQPubKey.m_algorithm k |} in
    PQPubKey.IsValid e = false
    /\ PQPubKey.GetData e = []
    /\ (PQPubKey.GetAlgorithm e = UNKNOWN \/ recognized (PQPubKey.GetAlgorithm e))).
  { intros k Hk. cbv zeta. split; [apply PQPubKey_empty_invalid|].
    split; [reflexivity|]. cbn [PQPubKey.GetAlgorithm PQPubKey.m_algorithm].
    destruct Hk as [(_ & Hr & _)|(_ & _ & Hr)]; [right; exact Hr | exact Hr]. }
  induction 1 as [|m this k Hm IH Hk|m this other Hm IH|m this other Hm IH
                  |m this other Hm IH Hne|m this other Hm IH Hne]; intros a.
  - right. split; [apply PQPubKey_default_invalid|]. split; [reflexivity|].
    left. reflexivity.
  - unfold PQPubKey.put. destruct (Nat.eqb a this); [|apply IH].
    destruct (PQPubKey_returned_cases k Hk) as [Hv|[-> Hi]]; [left; exact Hv|].
    right. split; [exact Hi|]. split; [reflexivity|]. left. reflexivity.
  - rewrite (proj1 (PQPubKey_copy_at m this other a)).
    destruct (Nat.eqb a this); apply IH.
  - rewrite (proj2 (PQPubKey_copy_at m this other a)).
    destruct (Nat.eqb a this); apply IH.
  - rewrite (proj1 (PQPubKey_move_at m this other a Hne)).
    destruct (Nat.eqb a this); [apply IH|].
    destruct (Nat.eqb a other); [|apply IH].
    right. apply Hmoved, IH.
  - rewrite (proj2 (PQPubKey_move_at m this other a Hne)).
    destruct (Nat.eqb a this); [apply IH|].
    destruct (Nat.eqb a other); [|apply IH].
    right. apply Hmoved, IH.
Qed.

(** The two states a [PQSignature] is found in. *)
Lemma PQSignature_reachable_states (m : PQSignature.store) :
  PQSignature_reachable m ->
  forall a : PQSignature.addr,
    (PQSignature.IsValid (m a) = true
     /\ recognized (PQSignature.GetAlgorithm (m a))
     /\ PQSignature.GetData (m a) <> []
     /\ (length (PQSignature.GetData (m a))
         <= PQSignature.GetSignatureSize (PQSignature.GetAlgorithm (m a)))%nat)
    \/ (PQSignature.IsValid (m a) = false
        /\ PQSignature.GetData (m a) = []
        /\ (PQSignature.GetAlgorithm (m a) = UNKNOWN
            \/ recognized (PQSignature.GetAlgorithm (m a)))).
Proof.
  assert (Hmoved : forall s : PQSignature.t,
    ((PQSignature.IsValid s = true
      /\ recognized (PQSignature.GetAlgorithm s)
      /\ PQSignature.GetData s <> []
      /\ (length (PQSignature.GetData s)
          <= PQSignature.GetSignatureSize (PQSignature.GetAlgorithm s))%nat)
     \/ (PQSignature.IsValid s = false
         /\ PQSignature.GetData s = []
         /\ (PQSignature.GetAlgorithm s = UNKNOWN
             \/ recognized (PQSignature.GetAlgorithm s)))) ->
    let e := {| PQSignature.m_data := [];
                PQSignature.m_algorithm := PQSignature.m_algorithm s |} in
    PQSignature.IsValid e = false
    /\ PQSignature.GetData e = []
    /\ (PQSignature.GetAlgorithm e = UNKNOWN
        \/ recognized (PQSignature.GetAlgorithm e))).
  { intros s Hs. cbv zeta. split; [apply PQSignature_empty_invalid|].
    split; [reflexivity|]. cbn [PQSignature.GetAlgorithm PQSignature.m_algorithm].
    destruct Hs as [(_ & Hr & _)|(_ & _ & Hr)]; [right; exact Hr | exact Hr]. }
  induction 1 as [|m this s Hm IH Hs|m this other Hm IH|m this other Hm IH
                  |m this other Hm IH Hne|m this other Hm IH Hne]; intros a.
  - right. split; [apply PQSignature_default_invalid|]. split; [reflexivity|].
    left. reflexivity.
  - unfold PQSignature.put. destruct (Nat.eqb a this); [|apply IH].
    destruct (PQSignature_returned_cases s Hs) as [Hv|[-> Hi]]; [left; exact Hv|].
    right. split; [exact Hi|]. split; [reflexivity|]. left. reflexivity.
  - rewrite (proj1 (PQSignature_copy_at m this other a)).
    destruct (Nat.eqb a this); apply IH.
  - rewrite (proj2 (PQSignature_copy_at m this other a)).
    destruct (Nat.eqb a this); apply IH.
  - rewrite (proj1 (PQSignature_move_at m this other a Hne)).
    destruct (Nat.eqb a this); [apply IH|].
    destruct (Nat.eqb a other); [|apply IH].
    right. apply Hmoved, IH.
  - rewrite (proj2 (PQSignature_move_at m this other a Hne)).
    destruct (Nat.eqb a this); [apply IH|].
    destruct (Nat.eqb a other); [|apply IH].
    right. apply Hmoved, IH.
Qed.

(** C8, amended: whatever constructors, factories, copies and moves a
    public key or a signature has been through, it either meets the length
    constraint of its (recognized) algorithm and is valid, or it has no data
    and is invalid, its algorithm being UNKNOWN or, after a move took its
    data, the recognized one it was made with; and what a declared
    constructor or a factory returns is valid or is the default object --
    no data, algorithm UNKNOWN. *)
Theorem objects_valid_or_without_data :
  (forall (m : PQPubKey.store) (a : PQPubKey.addr),
     PQPubKey_reachable m ->
     (PQPubKey.IsValid (m a) = true
      /\ recognized (PQPubKey.GetAlgorithm (m a))
      /\ length (PQPubKey.GetData (m a))
         = PQPubKey.GetPubKeySize (PQPubKey.GetAlgorithm (m a)))
     \/ (PQPubKey.IsValid (m a) = false
         /\ PQPubKey.GetData (m a) = []
         /\ (PQPubKey.GetAlgorithm (m a) = UNKNOWN
             \/ recognized (PQPubKey.GetAlgorithm (m a)))))
  /\
  (forall (m : PQSignature.store) (a : PQSignature.addr),
     PQSignature_reachable m ->
     (PQSignature.IsValid (m a) = true
      /\ recognized (PQSignature.GetAlgorithm (m a))
      /\ PQSignature.GetData (m a) <> []
      /\ (length (PQSignature.GetData (m a))
          <= PQSignature.GetSignatureSize (PQSignature.GetAlgorithm (m a)))%nat)
     \/ (PQSignature.IsValid (m a) = false
         /\ PQSignature.GetData (m a) = []
         /\ (PQSignature.GetAlgorithm (m a) = UNKNOWN
             \/ recognized (PQSignature.GetAlgorithm (m a)))))
  /\
  (forall k : PQPubKey.t, PQPubKey_returned k ->
     (PQPubKey.IsValid k = true
      /\ recognized (PQPubKey.GetAlgorithm k)
      /\ length (PQPubKey.GetData k) = PQPubKey.GetPubKeySize (PQPubKey.GetAlgorithm k))
     \/ (k = PQPubKey.default /\ PQPubKey.IsValid k = false))
  /\
  (forall s : PQSignature.t, PQSignature_returned s ->
     (PQSignature.IsValid s = true
      /\ recognized (PQSignature.GetAlgorithm s)
      /\ PQSignature.GetData s <> []
      /\ (length (PQSignature.GetData s)
          <= PQSignature.GetSignatureSize (PQSignature.GetAlgorithm s))%nat)
     \/ (s = PQSignature.default /\ PQSignature.IsValid s = false)).
Proof.
  split; [|split; [|split]].
  - intros m a Hm. exact (PQPubKey_reachable_states m Hm a).
  - intros m a Hm. exact (PQSignature_reachable_states m Hm a).
  - exact PQPubKey_returned_cases.
  - exact PQSignature_returned_cases.
Qed.

End KeyFacts.

Section MoreKeyFacts.
Context {lib : liboqs}.

Lemma length_prefix_range data :
  (0 <= PQSignature.length_prefix data < 2 ^ 32)%Z.
Proof. unfold PQSignature.length_prefix, PQSignature.uint32. apply Z.mod_pos_bound. lia. Qed.

(** C9: [PQSignature::Deserialize] returns on every input, and on a buffer
    shorter than tag plus length field, a tag that names no scheme, or a
    length prefix that disagrees with the buffer size, what it returns is
    the default (invalid) signature, which [Verify] then rejects for every
    message and key. *)
Theorem Deserialize_fail_closed :
  forall data : list byte,
    (length data < 5)%nat
    \/ ~ recognized (byte_val (nth 0 data x00))
    \/ Z.of_nat (length data) <> (5 + PQSignature.length_prefix data)%Z ->
    PQSignature.Deserialize data = PQSignature.default
    /\ PQSignature.IsValid (PQSignature.Deserialize data) = false
    /\ forall hash pubkey,
         PQSignature.Verify (PQSignature.Deserialize data) hash pubkey = false.
Proof.
  intros data H.
  assert (Hd : PQSignature.Deserialize data = PQSignature.default).
  { unfold PQSignature.Deserialize.
    destruct (length data <? 5)%nat eqn:Elen; [reflexivity|].
    apply Nat.ltb_ge in Elen.
    destruct (Z.eqb (byte_val (nth 0 data x00)) UNKNOWN) eqn:Ealg; [reflexivity|].
    destruct (Z.of_nat (length data)
              =? PQSignature.uint32 (5 + PQSignature.length_prefix data))%Z eqn:Esz;
      cbn [negb]; [|reflexivity].
    apply Z.eqb_eq in Esz.
    destruct H as [H|[H|H]].
    - lia.
    - now apply PQSignature_unrecognized_invalid.
    - exfalso. apply H. clear H.
      pose proof (length_prefix_range data) as Hr.
      unfold PQSignature.uint32 in Esz.
      destruct (Z_lt_ge_dec (5 + PQSignature.length_prefix data) (2 ^ 32)) as [Hs|Hb].
      + rewrite Z.mod_small in Esz by lia. exact Esz.
      + replace (5 + PQSignature.length_prefix data)%Z
          with ((5 + PQSignature.length_prefix data - 2 ^ 32) + 1 * 2 ^ 32)%Z in Esz by ring.
        rewrite Z.mod_add in Esz by lia.
        rewrite Z.mod_small in Esz by lia. lia. }
  rewrite Hd. split; [reflexivity|]. split; [reflexivity|].
  intros hash pubkey. now apply Verify_invalid_signature.
Qed.

Lemma PQPrivKey_unknown_holds_nothing (k : PQPrivKey.t) :
  PQPrivKey.m_algorithm k = UNKNOWN ->
  PQPrivKey.m_data k = [] ->
  PQPrivKey_holds_nothing k.
Proof.
  intros Ha Hd.
  assert (Hv : PQPrivKey.IsValid k = false).
  { unfold PQPrivKey.IsValid. now rewrite Ha. }
  repeat split; try assumption.
  intros rnd hash. unfold PQPrivKey.Sign. now rewrite Hv.
Qed.

Lemma Clear_holds_nothing (k : PQPrivKey.t) :
  PQPrivKey_holds_nothing (PQPrivKey.Clear k).
Proof.
  apply PQPrivKey_unknown_holds_nothing; [reflexivity|].
  unfold PQPrivKey.Clear. cbn. now destruct (PQPrivKey.m_data k).
Qed.

Lemma put_same m a k : PQPrivKey.put m a k a = k.
Proof. unfold PQPrivKey.put. now rewrite Nat.eqb_refl. Qed.

Lemma put_other m a k b : b <> a -> PQPrivKey.put m a k b = m b.
Proof.
  intros Hne. unfold PQPrivKey.put.
  destruct (Nat.eqb b a) eqn:E; [apply Nat.eqb_eq in E; contradiction | reflexivity].
Qed.

Lemma move_assign_self m this : PQPrivKey.move_assign m this this = m.
Proof. unfold PQPrivKey.move_assign. now rewrite Nat.eqb_refl. Qed.

(** C10, as the sources have it: the object a private key was moved out of
    -- by the move constructor, or by move assignment into another object
    -- and an object on which [Clear] was called hold nothing afterwards:
    algorithm UNKNOWN, no key bytes, invalid, and [Sign] returns the empty
    vector.  Move assignment of an object to itself is guarded and leaves
    every object as it was. *)
Theorem moved_from_or_cleared_key_holds_nothing :
  (forall (m : PQPrivKey.store) (this other : PQPrivKey.addr),
      this <> other ->
      PQPrivKey_holds_nothing (PQPrivKey.move_construct m this other other)
      /\ PQPrivKey_holds_nothing (PQPrivKey.move_assign m this other other))
  /\ (forall (m : PQPrivKey.store) (this : PQPrivKey.addr),
        PQPrivKey_holds_nothing (PQPrivKey.clear_at m this this))
  /\ (forall (m : PQPrivKey.store) (this : PQPrivKey.addr),
        PQPrivKey.move_assign m this this = m).
Proof.
  split; [|split].
  - intros m this other Hne.
    assert (Hne' : other <> this) by congruence.
    split.
    + apply PQPrivKey_unknown_holds_nothing.
      * unfold PQPrivKey.move_construct, PQPrivKey.set_algorithm.
        now rewrite put_same.
      * unfold PQPrivKey.move_construct, PQPrivKey.set_algorithm,
          PQPrivKey.set_sig_ctx, PQPrivKey.set_data.
        repeat (rewrite ?put_same; rewrite ?(put_other _ _ _ _ Hne'); cbn).
        reflexivity.
    + unfold PQPrivKey.move_assign.
      rewrite (proj2 (Nat.eqb_neq this other) Hne). cbn [negb].
      apply PQPrivKey_unknown_holds_nothing.
      * unfold PQPrivKey.set_algorithm. now rewrite put_same.
      * unfold PQPrivKey.set_algorithm, PQPrivKey.set_sig_ctx, PQPrivKey.set_data.
        repeat (rewrite ?put_same; rewrite ?(put_other _ _ _ _ Hne'); cbn).
        reflexivity.
  - intros m this. unfold PQPrivKey.clear_at. rewrite put_same.
    apply Clear_holds_nothing.
  - intros m this. apply move_assign_self.
Qed.

(** What moving leaves in the destination: the source's key and algorithm. *)
Lemma move_assign_transfers m this other :
  this <> other ->
  PQPrivKey.m_data (PQPrivKey.move_assign m this other this) = PQPrivKey.m_data (m other)
  /\ PQPrivKey.m_algorithm (PQPrivKey.move_assign m this other this)
     = PQPrivKey.m_algorithm (m other).
Proof.
  intros Hne. assert (Hne' : other <> this) by congruence.
  unfold PQPrivKey.move_assign.
  rewrite (proj2 (Nat.eqb_neq this other) Hne). cbn [negb].
  unfold PQPrivKey.set_algorithm, PQPrivKey.set_sig_ctx, PQPrivKey.set_data.
  split; repeat (rewrite ?put_same; rewrite ?(put_other _ _ _ _ Hne'); rewrite ?(put_other _ _ _ _ Hne); cbn);
    reflexivity.
Qed.

End MoreKeyFacts.

(** The closed instances below run the key classes against [mock.lib]. *)
#[local] Existing Instance mock.lib.

Lemma Verify_rejects_algorithm_mismatch_witness :
  PQSignature.GetAlgorithm sample.dilithium_sig <> PQPubKey.GetAlgorithm sample.falcon_key
  /\ PQSignature.Verify sample.dilithium_sig [x04] sample.falcon_key = false.
Proof.
  split; [discriminate|].
  apply (@Verify_rejects_algorithm_mismatch mock.lib). discriminate.
Defined.

(** Both objects of the sample are valid, and the provider in use accepts
    the signature bytes under the key bytes: the rejection comes from the
    comparison of the tags. *)
Example mismatch_sample_is_well_formed :
  PQSignature.IsValid sample.dilithium_sig = true
  /\ PQPubKey.IsValid sample.falcon_key = true
  /\ OQS_SIG_verify (mock.scheme 4 32) [x04]
       (PQSignature.m_data sample.dilithium_sig)
       (PQPubKey.m_data sample.falcon_key) = OQS_SUCCESS.
Proof. repeat split. Qed.

Lemma public_keys_after_move_reachable :
  PQPubKey_reachable sample.public_keys_after_move.
Proof.
  apply pub_store_move_construct; [|discriminate].
  apply pub_store_new; [apply pub_store_initial|].
  change sample.dilithium_key
    with (PQPubKey.make [x01; x02; x03; x04] DILITHIUM3).
  apply pub_by_make.
Qed.

Lemma signatures_after_move_reachable :
  PQSignature_reachable sample.signatures_after_move.
Proof.
  apply sig_store_move_construct; [|discriminate].
  apply sig_store_new; [apply sig_store_initial|].
  change sample.dilithium_sig
    with (PQSignature.make [x01; x02; x03; x04] DILITHIUM3).
  apply sig_by_make.
Qed.

Lemma objects_valid_or_without_data_witness :
  PQPubKey_reachable sample.public_keys_after_move
  /\ PQPubKey.IsValid (sample.public_keys_after_move 0%nat) = true
  /\ PQPubKey.GetData (sample.public_keys_after_move 1%nat) = []
  /\ PQPubKey_returned (PQPubKey.Deserialize [x00; x01; x02; x03; x04])
  /\ PQPubKey.IsValid (PQPubKey.Deserialize [x00; x01; x02; x03; x04]) = true
  /\ PQSignature_returned (PQSignature.Deserialize sample.sig_with_tag_7)
  /\ PQSignature.Deserialize sample.sig_with_tag_7 = PQSignature.default.
Proof.
  destruct (@objects_valid_or_without_data mock.lib) as (Hm & _ & Hk & Hs).
  split; [exact public_keys_after_move_reachable|].
  split.
  { destruct (Hm _ 0%nat public_keys_after_move_reachable)
      as [[Hv _]|[Hv _]]; [exact Hv | discriminate Hv]. }
  split.
  { destruct (Hm _ 1%nat public_keys_after_move_reachable)
      as [[Hv _]|(_ & Hd & _)]; [discriminate Hv | exact Hd]. }
  split; [apply pub_by_Deserialize|].
  split.
  - destruct (Hk _ (pub_by_Deserialize [x00; x01; x02; x03; x04]))
      as [[Hv _]|[_ Hv]]; [exact Hv | discriminate Hv].
  - split; [apply sig_by_Deserialize|].
    destruct (Hs _ (sig_by_Deserialize sample.sig_with_tag_7))
      as [[Hv _]|[He _]]; [discriminate Hv | exact He].
Defined.

(** C8, as stated, fails for an object a move took the data from: after
    [PQPubKey moved(std::move(key))] the object [key] has no data and is
    invalid, yet its algorithm is still DILITHIUM3, so it is not the default
    object; the same holds of a signature. *)
Lemma moved_from_object_is_not_default :
  PQPubKey_reachable sample.public_keys_after_move
  /\ sample.public_keys_after_move 1%nat
     = {| PQPubKey.m_data := []; PQPubKey.m_algorithm := DILITHIUM3 |}
  /\ ~ ((PQPubKey.IsValid (sample.public_keys_after_move 1%nat) = true
         /\ recognized (PQPubKey.GetAlgorithm (sample.public_keys_after_move 1%nat))
         /\ length (PQPubKey.GetData (sample.public_keys_after_move 1%nat))
            = PQPubKey.GetPubKeySize
                (PQPubKey.GetAlgorithm (sample.public_keys_after_move 1%nat)))
        \/ (sample.public_keys_after_move 1%nat = PQPubKey.default
            /\ PQPubKey.IsValid (sample.public_keys_after_move 1%nat) = false))
  /\ PQSignature_reachable sample.signatures_after_move
  /\ sample.signatures_after_move 1%nat
     = {| PQSignature.m_data := []; PQSignature.m_algorithm := DILITHIUM3 |}
  /\ PQSignature.IsValid (sample.signatures_after_move 1%nat) = false
  /\ sample.signatures_after_move 1%nat <> PQSignature.default.
Proof.
  split; [exact public_keys_after_move_reachable|].
  split; [reflexivity|].
  split.
  { intros [(Hv & _)|(He & _)]; [discriminate Hv | discriminate He]. }
  split; [exact signatures_after_move_reachable|].
  split; [reflexivity|].
  split; [reflexivity | discriminate].
Qed.

Lemma Deserialize_fail_closed_witness :
  ~ recognized (byte_val (nth 0 sample.sig_with_tag_7 x00))
  /\ PQSignature.Deserialize sample.sig_with_tag_7 = PQSignature.default.
Proof.
  assert (H : ~ recognized (byte_val (nth 0 sample.sig_with_tag_7 x00))).
  { intros [H|H]; vm_compute in H; discriminate H. }
  split; [exact H|].
  apply (@Deserialize_fail_closed mock.lib). right. left. exact H.
Defined.

(** Truncated buffers and wrong length prefixes, run. *)
Example Deserialize_truncated :
  PQSignature.Deserialize [x00; x01; x00; x00] = PQSignature.default.
Proof. reflexivity. Qed.

Example Deserialize_wrong_length_prefix :
  PQSignature.Deserialize [x00; x02; x00; x00; x00; xaa]
  = PQSignature.default.
Proof. reflexivity. Qed.

Example Deserialize_well_formed :
  PQSignature.IsValid
    (PQSignature.Deserialize [x00; x01; x00; x00; x00; xaa]) = true.
Proof. reflexivity. Qed.

Lemma moved_from_or_cleared_key_holds_nothing_witness :
  PQPrivKey.IsValid (sample.memory 1%nat) = true
  /\ PQPrivKey_holds_nothing
       (PQPrivKey.move_assign sample.memory 0 1 1%nat)
  /\ PQPrivKey.m_data (PQPrivKey.move_assign sample.memory 0 1 0%nat)
     = PQPrivKey.m_data sample.private_key.
Proof.
  split; [reflexivity|].
  split; [|reflexivity].
  destruct (@moved_from_or_cleared_key_holds_nothing mock.lib) as [Hmove _].
  apply (Hmove sample.memory 0%nat 1%nat). discriminate.
Defined.

(** C10, as stated, fails when a key is move-assigned to itself: the object
    is the source of a move assignment and afterwards still holds its key,
    valid as before. *)
Lemma self_move_assignment_keeps_the_key :
  PQPrivKey.IsValid (sample.memory 1%nat) = true
  /\ PQPrivKey.move_assign sample.memory 1 1 1%nat = sample.private_key
  /\ PQPrivKey.IsValid (PQPrivKey.move_assign sample.memory 1 1 1%nat) = true
  /\ PQPrivKey.GetAlgorithm (PQPrivKey.move_assign sample.memory 1 1 1%nat) = DILITHIUM3
  /\ ~ PQPrivKey_holds_nothing (PQPrivKey.move_assign sample.memory 1 1 1%nat).
Proof.
  repeat split. intros (H & _). discriminate H.
Qed.

(** ** Locking scripts *)

Lemma EBCAddress_valid_versions (a : EBCAddress.t) :
  EBCAddress.IsValid a = true ->
  EBCAddress.m_algorithm a <> UNKNOWN
  /\ ((EBCAddress.m_version a = PQ_PUBKEY /\ length (EBCAddress.m_data a) = 20%nat)
      \/ (EBCAddress.m_version a = PQ_SCRIPT /\ length (EBCAddress.m_data a) = 32%nat)
      \/ (EBCAddress.m_version a = PQ_WITNESS_V0
          /\ (length (EBCAddress.m_data a) = 20%nat
              \/ length (EBCAddress.m_data a) = 32%nat))
      \/ (EBCAddress.m_version a = PQ_WITNESS_V1
          /\ length (EBCAddress.m_data a) = 32%nat)).
Proof.
  unfold EBCAddress.IsValid, EBC_PUBKEY_HASH_SIZE, EBC_SCRIPT_HASH_SIZE.
  destruct (Z.eqb (EBCAddress.m_algorithm a) UNKNOWN) eqn:Ea; [discriminate|].
  apply Z.eqb_neq in Ea. intros H. split; [exact Ea|].
  destruct (Byte.eqb (EBCAddress.m_version a) PQ_PUBKEY) eqn:E0.
  { apply byte_eqb_eq in E0. apply Nat.eqb_eq in H. auto. }
  destruct (Byte.eqb (EBCAddress.m_version a) PQ_SCRIPT) eqn:E1.
  { apply byte_eqb_eq in E1. apply Nat.eqb_eq in H. auto. }
  destruct (Byte.eqb (EBCAddress.m_version a) PQ_WITNESS_V0) eqn:E2.
  { apply byte_eqb_eq in E2. apply orb_true_iff in H.
    right. right. left. split; [exact E2|].
    destruct H as [H|H]; apply Nat.eqb_eq in H; auto. }
  destruct (Byte.eqb (EBCAddress.m_version a) PQ_WITNESS_V1) eqn:E3.
  { apply byte_eqb_eq in E3. apply Nat.eqb_eq in H. auto. }
  discriminate.
Qed.

Lemma copy_into_uint256 (d : list byte) :
  length d = 32%nat -> copy_into d uint256_zero = d.
Proof.
  intros H. unfold copy_into, uint256_zero. rewrite H.
  change (skipn 32 (repeat x00 32)) with (@nil byte). apply app_nil_r.
Qed.

Lemma push_data_short (script : CScript) (b : list byte) :
  (length b < 76)%nat ->
  push_data script b = script ++ octet (Z.of_nat (length b)) :: b.
Proof.
  intros H. unfold push_data.
  change (byte_val OP_PUSHDATA1) with 76%Z.
  destruct (Z.of_nat (length b) <? 76)%Z eqn:E; [reflexivity|].
  apply Z.ltb_ge in E. lia.
Qed.

(** The script of a valid key-hash address. *)
Lemma GetScript_PQ_PUBKEY (a : EBCAddress.t) :
  EBCAddress.IsValid a = true ->
  EBCAddress.m_version a = PQ_PUBKEY ->
  EBCAddress.GetScript a
  = [OP_DUP; OP_HASH160; x14] ++ EBCAddress.m_data a ++ [OP_EQUALVERIFY; OP_PQCHECKSIG].
Proof.
  intros Hv Hver.
  destruct (EBCAddress_valid_versions a Hv) as [_ Hc].
  assert (Hlen : length (EBCAddress.m_data a) = 20%nat).
  { destruct Hc as [[_ H]|[[H _]|[[H _]|[H _]]]]; [exact H| | |];
      rewrite Hver in H; discriminate H. }
  unfold EBCAddress.GetScript. rewrite Hv, Hver. cbn [negb].
  change (Byte.eqb PQ_PUBKEY PQ_PUBKEY) with true. cbv iota.
  unfold ebc_address.CreateP2PQPKHScript, push_opcode.
  rewrite push_data_short by lia. rewrite Hlen.
  change (octet (Z.of_nat 20)) with x14.
  cbn [app]. rewrite <- ?app_assoc. reflexivity.
Qed.

(** The script of a valid script-hash address. *)
Lemma GetScript_PQ_SCRIPT (a : EBCAddress.t) :
  EBCAddress.IsValid a = true ->
  EBCAddress.m_version a = PQ_SCRIPT ->
  EBCAddress.GetScript a = [OP_HASH256; x20] ++ EBCAddress.m_data a ++ [OP_EQUAL].
Proof.
  intros Hv Hver.
  destruct (EBCAddress_valid_versions a Hv) as [_ Hc].
  assert (Hlen : length (EBCAddress.m_data a) = 32%nat).
  { destruct Hc as [[H _]|[[_ H]|[[H _]|[H _]]]]; [|exact H| |];
      rewrite Hver in H; discriminate H. }
  unfold EBCAddress.GetScript. rewrite Hv, Hver. cbn [negb].
  change (Byte.eqb PQ_SCRIPT PQ_PUBKEY) with false.
  change (Byte.eqb PQ_SCRIPT PQ_SCRIPT) with true. cbv iota.
  unfold ebc_address.CreateP2PQSHScript, push_opcode, ToByteVector.
  rewrite copy_into_uint256 by exact Hlen.
  rewrite push_data_short by lia. rewrite Hlen.
  change (octet (Z.of_nat 32)) with x20.
  cbn [app]. rewrite <- ?app_assoc. reflexivity.
Qed.

(** A valid witness address is given no script. *)
Lemma GetScript_witness (a : EBCAddress.t) :
  EBCAddress.IsWitness a = true -> EBCAddress.GetScript a = [].
Proof.
  unfold EBCAddress.IsWitness, EBCAddress.GetScript. intros H.
  destruct (negb (EBCAddress.IsValid a)); [reflexivity|].
  apply orb_true_iff in H. destruct H as [H|H]; apply byte_eqb_eq in H; rewrite H; reflexivity.
Qed.

(** C7, as the sources have it: [GetScript] returns on every address, and a
    valid address expands to the key-hash template when its version is
    PQ_PUBKEY and to the script-hash template when it is PQ_SCRIPT, both
    non-empty; a valid address of a witness version is given the empty
    script. *)
Theorem GetScript_templates :
  forall a : EBCAddress.t,
    EBCAddress.IsValid a = true ->
    (EBCAddress.IsP2PQPKH a = true
     /\ EBCAddress.GetScript a
        = [OP_DUP; OP_HASH160; x14] ++ EBCAddress.GetData a
            ++ [OP_EQUALVERIFY; OP_PQCHECKSIG])
    \/ (EBCAddress.IsP2PQSH a = true
        /\ EBCAddress.GetScript a
           = [OP_HASH256; x20] ++ EBCAddress.GetData a ++ [OP_EQUAL])
    \/ (EBCAddress.IsWitness a = true /\ EBCAddress.GetScript a = []).
Proof.
  intros a Hv.
  destruct (EBCAddress_valid_versions a Hv) as [_ [[H _]|[[H _]|[[H _]|[H _]]]]].
  - left. split; [unfold EBCAddress.IsP2PQPKH; now rewrite H|].
    now apply GetScript_PQ_PUBKEY.
  - right. left. split; [unfold EBCAddress.IsP2PQSH; now rewrite H|].
    now apply GetScript_PQ_SCRIPT.
  - right. right.
    assert (Hw : EBCAddress.IsWitness a = true)
      by (unfold EBCAddress.IsWitness; now rewrite H).
    split; [exact Hw | now apply GetScript_witness].
  - right. right.
    assert (Hw : EBCAddress.IsWitness a = true)
      by (unfold EBCAddress.IsWitness; now rewrite H).
    split; [exact Hw | now apply GetScript_witness].
Qed.

Lemma GetScript_templates_witness :
  EBCAddress.IsValid sample.p2pqsh_dilithium = true
  /\ EBCAddress.GetScript sample.p2pqsh_dilithium
     = [OP_HASH256; x20] ++ sample.hash32 ++ [OP_EQUAL].
Proof.
  split; [reflexivity|].
  destruct (GetScript_templates sample.p2pqsh_dilithium eq_refl)
    as [[H _]|[[_ H]|[H _]]]; [discriminate H | exact H | discriminate H].
Defined.

(** C7, as stated, fails on a witness address: it is valid and its script
    is empty. *)
Lemma GetScript_of_valid_witness_address_is_empty :
  EBCAddress.IsValid sample.witness_v0 = true
  /\ EBCAddress.GetVersion sample.witness_v0 = PQ_WITNESS_V0
  /\ EBCAddress.GetScript sample.witness_v0 = [].
Proof. repeat split. Qed.

(** ** The phase conditions along the heights *)










(** The three networks of chainparams_ebc.cpp have ordered durations. *)
Lemma networks_have_ordered_durations :
  Forall (fun n => durations_ordered (inputs_of n))
         [CEBCParams; CEBCTestNetParams; CEBCRegTestParams].
Proof. repeat constructor; cbn; lia. Qed.

(** The heights of the end-to-end scenario of section 8, before any sweep. *)
Example scenario_phases :
  phase_condition sample.scenario sample.no_sweep 999 PRE_ACTIVATION = true
  /\ phase_condition sample.scenario sample.no_sweep 1050 GRACE_DUAL_SIG = true
  /\ phase_condition sample.scenario sample.no_sweep 1250 PQ_ONLY = true
  /\ phase_condition sample.scenario sample.no_sweep 1300 SWEEP_ELIGIBLE = true.
Proof. repeat split. Qed.

(** On the main network, with the sweep set included at height 26000:
    SWEEP_ELIGIBLE just before, SWEEP_COMPLETE and RECLAIM_WINDOW from
    there on. *)
Example sweep_phases :
  phase_condition (inputs_of CEBCParams) sample.sweep_at_26000 25999 SWEEP_ELIGIBLE
  = true
  /\ phase_condition (inputs_of CEBCParams) sample.sweep_at_26000 26000 SWEEP_ELIGIBLE
     = false
  /\ phase_condition (inputs_of CEBCParams) sample.sweep_at_26000 26000 SWEEP_COMPLETE
     = true
  /\ phase_condition (inputs_of CEBCParams) sample.sweep_at_26000 26000 RECLAIM_WINDOW
     = true.
Proof. repeat split. Qed.

(** ** The address codec *)

#[local] Open Scope Z_scope.

Lemma radix_value_snoc w l x s :
  radix_value w (l ++ [x]) s = radix_value w l s * 2 ^ w + x.
Proof. unfold radix_value. now rewrite fold_left_app. Qed.

Lemma radix_value_cons w x l s :
  radix_value w (x :: l) s = radix_value w l (s * 2 ^ w + x).
Proof. reflexivity. Qed.

Lemma land_low_bits a n : 0 <= n -> Z.land a (2 ^ n - 1) = a mod 2 ^ n.
Proof.
  intros Hn. rewrite <- Z.land_ones by exact Hn.
  now rewrite Z.ones_equiv, Z.sub_1_r.
Qed.

Lemma shiftl_land_disjoint a v n :
  0 <= n -> 0 <= v < 2 ^ n -> Z.land (Z.shiftl a n) v = 0.
Proof.
  intros Hn Hv. apply Z.bits_inj'. intros i Hi.
  rewrite Z.land_spec, Z.bits_0.
  destruct (Z_lt_ge_dec i n) as [Hlt|Hge].
  - rewrite Z.shiftl_spec_low by exact Hlt. reflexivity.
  - rewrite <- (Z.mod_small v (2 ^ n)) by exact Hv.
    rewrite Z.mod_pow2_bits_high by lia. apply andb_false_r.
Qed.

Lemma shiftl_lor_add a v n :
  0 <= n -> 0 <= v < 2 ^ n -> Z.lor (Z.shiftl a n) v = a * 2 ^ n + v.
Proof.
  intros Hn Hv.
  pose proof (shiftl_land_disjoint a v n Hn Hv) as Hd.
  rewrite <- Z.lxor_lor by exact Hd.
  rewrite <- Z.add_nocarry_lxor by exact Hd.
  now rewrite Z.shiftl_mul_pow2.
Qed.

Lemma shiftl_lxor_add a v n :
  0 <= n -> 0 <= v < 2 ^ n -> Z.lxor (Z.shiftl a n) v = a * 2 ^ n + v.
Proof.
  intros Hn Hv.
  pose proof (shiftl_land_disjoint a v n Hn Hv) as Hd.
  rewrite <- Z.add_nocarry_lxor by exact Hd.
  now rewrite Z.shiftl_mul_pow2.
Qed.

Lemma mod_pow2_split a k t :
  0 <= k -> 0 <= t ->
  a mod 2 ^ (k + t) = a mod 2 ^ k + 2 ^ k * ((a / 2 ^ k) mod 2 ^ t).
Proof.
  intros Hk Ht. rewrite Z.pow_add_r by lia.
  apply Z.rem_mul_r; lia.
Qed.

Lemma mod_pow2_shift a v k f :
  0 <= k -> 0 <= f -> 0 <= v < 2 ^ f ->
  (a * 2 ^ f + v) mod 2 ^ (k + f) = (a mod 2 ^ k) * 2 ^ f + v.
Proof.
  intros Hk Hf Hv.
  replace (k + f) with (f + k) by lia.
  rewrite mod_pow2_split by lia.
  assert (Hp : 0 < 2 ^ f) by (apply Z.pow_pos_nonneg; lia).
  replace ((a * 2 ^ f + v) mod 2 ^ f) with v.
  2:{ rewrite Z.add_comm, Z.mod_add by lia. now rewrite Z.mod_small. }
  replace ((a * 2 ^ f + v) / 2 ^ f) with a.
  2:{ rewrite Z.add_comm, Z.div_add by lia. rewrite Z.div_small by lia. lia. }
  lia.
Qed.

Lemma mod_mod_pow2 a m n : 0 <= n <= m -> (a mod 2 ^ m) mod 2 ^ n = a mod 2 ^ n.
Proof.
  intros H. apply Z.mod_mod_divide.
  exists (2 ^ (m - n)). rewrite <- Z.pow_add_r by lia. f_equal. lia.
Qed.

Lemma pow2_pos n : 0 <= n -> 0 < 2 ^ n.
Proof. intros. apply Z.pow_pos_nonneg; lia. Qed.

(** *** The inner loop *)
Section Conversion.
Variables frombits tobits : Z.
Hypothesis from_pos : 0 < frombits.
Hypothesis to_pos : 0 < tobits.

Lemma ConvertBits_emit_spec fuel acc bits out :
  0 <= bits -> (Z.to_nat bits <= fuel)%nat ->
  Forall (in_width tobits) out ->
  forall bits' out',
    ConvertBits_emit fuel tobits acc bits out = (bits', out') ->
    0 <= bits' < tobits
    /\ Forall (in_width tobits) out'
    /\ radix_value tobits out' 0 * 2 ^ bits' + acc mod 2 ^ bits'
       = radix_value tobits out 0 * 2 ^ bits + acc mod 2 ^ bits
    /\ tobits * Z.of_nat (length out') + bits'
       = tobits * Z.of_nat (length out) + bits.
Proof.
  revert bits out. induction fuel as [|fuel IH]; intros bits out Hb Hfuel Hout bits' out' E.
  - cbn in E. injection E as <- <-.
    assert (bits = 0) by lia. subst bits. repeat split; auto; lia.
  - cbn in E. destruct (tobits <=? bits) eqn:Ele.
    + apply Z.leb_le in Ele.
      apply IH in E; [| lia | lia |].
      * destruct E as (Hr & Hf & Hval & Hlen).
        split; [exact Hr|]. split; [exact Hf|]. split.
        -- rewrite Hval. rewrite radix_value_snoc.
           rewrite land_low_bits by lia.
           rewrite Z.shiftr_div_pow2 by lia.
           assert (Hsplit : acc mod 2 ^ bits
                            = acc mod 2 ^ (bits - tobits)
                              + 2 ^ (bits - tobits)
                                * ((acc / 2 ^ (bits - tobits)) mod 2 ^ tobits)).
           { rewrite <- mod_pow2_split by lia. do 2 f_equal. lia. }
           assert (Hpow : 2 ^ bits = 2 ^ (bits - tobits) * 2 ^ tobits).
           { rewrite <- Z.pow_add_r by lia. f_equal. lia. }
           rewrite Hsplit, Hpow. ring.
        -- rewrite Hlen. rewrite length_app. cbn [length]. lia.
      * apply Forall_app. split; [exact Hout|]. constructor; [|constructor].
        unfold in_width. rewrite land_low_bits by lia.
        apply Z.mod_pos_bound. apply pow2_pos. lia.
    + apply Z.leb_gt in Ele. injection E as <- <-. repeat split; auto; lia.
Qed.

(** *** The outer loop *)
Lemma ConvertBits_loop_spec input :
  Forall (in_width frombits) input ->
  forall acc bits out,
    0 <= acc -> 0 <= bits < tobits -> Forall (in_width tobits) out ->
    exists acc' bits' out',
      ConvertBits_loop frombits tobits input acc bits out = Some (acc', bits', out')
      /\ 0 <= acc' /\ 0 <= bits' < tobits
      /\ Forall (in_width tobits) out'
      /\ radix_value tobits out' 0 * 2 ^ bits' + acc' mod 2 ^ bits'
         = radix_value frombits input
             (radix_value tobits out 0 * 2 ^ bits + acc mod 2 ^ bits)
      /\ tobits * Z.of_nat (length out') + bits'
         = tobits * Z.of_nat (length out) + bits + frombits * Z.of_nat (length input).
Proof.
  induction 1 as [|v rest Hv Hrest IH]; intros acc bits out Hacc Hbits Hout.
  - exists acc, bits, out. cbn. repeat split; auto; lia.
  - cbn [ConvertBits_loop]. destruct Hv as [Hv0 Hv1].
    destruct (v <? 0) eqn:Eneg; [apply Z.ltb_lt in Eneg; lia|].
    set (acc1 := Z.land (Z.lor (Z.shiftl acc frombits) v) (2 ^ (frombits + tobits - 1) - 1)).
    assert (Hacc1 : acc1 = (acc * 2 ^ frombits + v) mod 2 ^ (frombits + tobits - 1)).
    { unfold acc1. rewrite land_low_bits by lia.
      rewrite shiftl_lor_add by (try lia; split; assumption). reflexivity. }
    destruct (ConvertBits_emit (Z.to_nat (bits + frombits)) tobits acc1 (bits + frombits) out)
      as [bits2 out2] eqn:Eemit.
    apply ConvertBits_emit_spec in Eemit; [| lia | lia | exact Hout].
    destruct Eemit as (Hb2 & Hout2 & Hval2 & Hlen2).
    assert (Hacc1pos : 0 <= acc1).
    { rewrite Hacc1. apply Z.mod_pos_bound. apply pow2_pos. lia. }
    destruct (IH acc1 bits2 out2 Hacc1pos Hb2 Hout2)
      as (acc' & bits' & out' & Eloop & Ha' & Hb' & Hout' & Hval' & Hlen').
    exists acc', bits', out'. split; [exact Eloop|].
    split; [exact Ha'|]. split; [exact Hb'|]. split; [exact Hout'|]. split.
    + rewrite Hval'. rewrite radix_value_cons.
      f_equal. rewrite Hval2.
      rewrite Hacc1. rewrite mod_mod_pow2 by lia.
      rewrite mod_pow2_shift by (try lia; split; assumption).
      rewrite (Z.pow_add_r 2 bits frombits) by lia. ring.
    + rewrite Hlen', Hlen2. cbn [length]. lia.
Qed.

End Conversion.

(** *** The two instances *)

Lemma Forall_in_width_byte_val (l : list byte) : Forall (in_width 8) (map byte_val l).
Proof.
  induction l as [|b l IH]; constructor; [|exact IH].
  unfold in_width, byte_val. destruct b; cbn; lia.
Qed.

Lemma octet_byte_val (b : byte) : octet (byte_val b) = b.
Proof. destruct b; reflexivity. Qed.

Lemma map_octet_byte_val (l : list byte) : map octet (map byte_val l) = l.
Proof.
  induction l as [|b l IH]; [reflexivity|]. cbn [map]. now rewrite octet_byte_val, IH.
Qed.

(** With padding: the groups read as a number are the input read as a
    number, shifted by the padding. *)
Lemma ConvertBits_pad_spec frombits tobits input :
  0 < frombits -> 0 < tobits ->
  Forall (in_width frombits) input ->
  exists out p,
    ConvertBits frombits tobits true input = Some out
    /\ Forall (in_width tobits) out
    /\ 0 <= p < tobits
    /\ radix_value tobits out 0 = radix_value frombits input 0 * 2 ^ p
    /\ tobits * Z.of_nat (length out) = frombits * Z.of_nat (length input) + p.
Proof.
  intros Hf Ht Hin.
  destruct (ConvertBits_loop_spec frombits tobits Hf Ht input Hin 0 0 [])
    as (acc & bits & out & Eloop & Hacc & Hbits & Hout & Hval & Hlen);
    [lia | lia | constructor |].
  unfold ConvertBits. rewrite Eloop.
  cbn [radix_value fold_left length] in Hval, Hlen.
  rewrite Z.mod_1_r in Hval.
  replace (0 * 2 ^ 0 + 0) with 0 in Hval by lia.
  fold (radix_value frombits input 0) in Hval.
  destruct (bits =? 0) eqn:Eb.
  - apply Z.eqb_eq in Eb. subst bits.
    exists out, 0. split; [reflexivity|]. split; [exact Hout|]. split; [lia|].
    rewrite Z.mod_1_r in Hval. split; lia.
  - apply Z.eqb_neq in Eb.
    exists (out ++ [Z.land (Z.shiftl acc (tobits - bits)) (2 ^ tobits - 1)]), (tobits - bits).
    assert (Hg : Z.land (Z.shiftl acc (tobits - bits)) (2 ^ tobits - 1)
                 = (acc mod 2 ^ bits) * 2 ^ (tobits - bits)).
    { rewrite land_low_bits by lia. rewrite Z.shiftl_mul_pow2 by lia.
      pose proof (mod_pow2_shift acc 0 bits (tobits - bits)) as Hs.
      replace (bits + (tobits - bits)) with tobits in Hs by lia.
      rewrite !Z.add_0_r in Hs. apply Hs; lia. }
    split; [reflexivity|]. split.
    { apply Forall_app. split; [exact Hout|]. constructor; [|constructor].
      unfold in_width. rewrite land_low_bits by lia.
      apply Z.mod_pos_bound. apply pow2_pos. lia. }
    split; [lia|]. split.
    + rewrite radix_value_snoc, Hg, <- Hval.
      replace (2 ^ tobits) with (2 ^ bits * 2 ^ (tobits - bits)).
      2:{ rewrite <- Z.pow_add_r by lia. f_equal. lia. }
      ring.
    + rewrite length_app. cbn [length]. lia.
Qed.

Lemma quotient_remainder_unique P A B x y :
  0 <= x < P -> 0 <= y < P -> A * P + x = B * P + y -> A = B /\ x = y.
Proof.
  intros Hx Hy E.
  assert (A = B) by (destruct (Z.lt_trichotomy A B) as [H|[H|H]]; nia).
  subst. split; lia.
Qed.

(** Reading a sequence of [w]-bit values as a number loses nothing. *)
Lemma radix_value_inj w (l1 : list Z) :
  0 <= w ->
  forall l2, length l1 = length l2 ->
  Forall (in_width w) l1 -> Forall (in_width w) l2 ->
  radix_value w l1 0 = radix_value w l2 0 -> l1 = l2.
Proof.
  intros Hw. induction l1 as [|x l1 IH] using rev_ind; intros l2 Hlen H1 H2 Hval.
  - destruct l2; [reflexivity | discriminate Hlen].
  - destruct l2 as [|y l2'] using rev_ind.
    { rewrite length_app in Hlen. cbn in Hlen. lia. }
    clear IHl2'.
    rewrite !length_app in Hlen. cbn [length] in Hlen.
    apply Forall_app in H1 as [H1 Hx]. apply Forall_app in H2 as [H2 Hy].
    inversion Hx as [|? ? Hx' _]; subst. inversion Hy as [|? ? Hy' _]; subst.
    rewrite !radix_value_snoc in Hval.
    unfold in_width in Hx', Hy'.
    assert (Hp : 0 < 2 ^ w) by (apply pow2_pos; lia).
    assert (Hq : radix_value w l1 0 = radix_value w l2' 0 /\ x = y)
      by (apply (quotient_remainder_unique (2 ^ w)); assumption).
    destruct Hq as [Hq ->]. f_equal. apply IH; try assumption. lia.
Qed.

(** Without padding: success means the leftover bits were fewer than a
    group and all zero. *)
Lemma ConvertBits_nopad_spec frombits tobits input :
  0 < frombits -> 0 < tobits ->
  Forall (in_width frombits) input ->
  exists acc bits out,
    ConvertBits_loop frombits tobits input 0 0 [] = Some (acc, bits, out)
    /\ 0 <= bits < tobits
    /\ Forall (in_width tobits) out
    /\ radix_value tobits out 0 * 2 ^ bits + acc mod 2 ^ bits
       = radix_value frombits input 0
    /\ tobits * Z.of_nat (length out) + bits = frombits * Z.of_nat (length input)
    /\ ConvertBits frombits tobits false input
       = if (frombits <=? bits) || negb (acc mod 2 ^ bits =? 0)
         then None else Some out.
Proof.
  intros Hf Ht Hin.
  destruct (ConvertBits_loop_spec frombits tobits Hf Ht input Hin 0 0 [])
    as (acc & bits & out & Eloop & Hacc & Hbits & Hout & Hval & Hlen);
    [lia | lia | constructor |].
  exists acc, bits, out.
  cbn [radix_value fold_left length] in Hval, Hlen.
  rewrite Z.mod_1_r in Hval.
  replace (0 * 2 ^ 0 + 0) with 0 in Hval by lia.
  fold (radix_value frombits input 0) in Hval.
  split; [exact Eloop|]. split; [exact Hbits|]. split; [exact Hout|].
  split; [exact Hval|]. split; [lia|].
  unfold ConvertBits. rewrite Eloop. cbv zeta.
  assert (Hg : Z.land (Z.shiftl acc (tobits - bits)) (2 ^ tobits - 1)
               = (acc mod 2 ^ bits) * 2 ^ (tobits - bits)).
  { rewrite land_low_bits by lia. rewrite Z.shiftl_mul_pow2 by lia.
    pose proof (mod_pow2_shift acc 0 bits (tobits - bits)) as Hs.
    replace (bits + (tobits - bits)) with tobits in Hs by lia.
    rewrite !Z.add_0_r in Hs. apply Hs; lia. }
  rewrite Hg.
  assert (Hz : (acc mod 2 ^ bits * 2 ^ (tobits - bits) =? 0) = (acc mod 2 ^ bits =? 0)).
  { assert (Hp : 0 < 2 ^ (tobits - bits)) by (apply pow2_pos; lia).
    destruct (acc mod 2 ^ bits =? 0) eqn:E.
    - apply Z.eqb_eq in E. rewrite E. reflexivity.
    - apply Z.eqb_neq in E. apply Z.eqb_neq. nia. }
  rewrite Hz. reflexivity.
Qed.

(** Bytes to five-bit groups and back. *)
Lemma ConvertBits_8_5_8 (bytes : list byte) :
  exists groups,
    ConvertBits 8 5 true (map byte_val bytes) = Some groups
    /\ Forall (in_width 5) groups
    /\ (5 * Z.of_nat (length groups) < 8 * Z.of_nat (length bytes) + 5)
    /\ (8 * Z.of_nat (length bytes) <= 5 * Z.of_nat (length groups))
    /\ ConvertBits 5 8 false groups = Some (map byte_val bytes).
Proof.
  destruct (ConvertBits_pad_spec 8 5 (map byte_val bytes))
    as (groups & p & Eenc & Hg & Hp & Hval & Hlen);
    [lia | lia | apply Forall_in_width_byte_val |].
  rewrite length_map in Hlen.
  exists groups. split; [exact Eenc|]. split; [exact Hg|].
  split; [lia|]. split; [lia|].
  destruct (ConvertBits_nopad_spec 5 8 groups)
    as (acc & bits & out & _ & Hbits & Hout & Hval' & Hlen' & Edec); [lia | lia | exact Hg |].
  rewrite Edec.
  assert (Hb : bits = p /\ length out = length bytes) by lia.
  destruct Hb as [-> Hlo].
  rewrite Hval in Hval'.
  assert (Hpp : 0 < 2 ^ p) by (apply pow2_pos; lia).
  pose proof (Z.mod_pos_bound acc (2 ^ p) Hpp) as Hm.
  assert (Hq : radix_value 8 out 0 = radix_value 8 (map byte_val bytes) 0
               /\ acc mod 2 ^ p = 0).
  { apply (quotient_remainder_unique (2 ^ p)); [exact Hm | lia | lia]. }
  destruct Hq as [Hv Hz]. rewrite Hz.
  destruct (5 <=? p) eqn:E5; [apply Z.leb_le in E5; lia|].
  cbn. f_equal.
  apply (radix_value_inj 8); try assumption; try lia.
  - now rewrite length_map.
  - apply Forall_in_width_byte_val.
Qed.

(** ** The checksum *)

Lemma land_lxor_distr_r a b c :
  Z.land (Z.lxor a b) c = Z.lxor (Z.land a c) (Z.land b c).
Proof.
  apply Z.bits_inj'. intros i Hi.
  rewrite Z.land_spec, !Z.lxor_spec, !Z.land_spec.
  destruct (Z.testbit a i), (Z.testbit b i), (Z.testbit c i); reflexivity.
Qed.

Lemma in_width_mod w x : 0 <= w -> in_width w x <-> x mod 2 ^ w = x.
Proof.
  intros Hw. unfold in_width. split.
  - intros H. now apply Z.mod_small.
  - intros <-. apply Z.mod_pos_bound. now apply pow2_pos.
Qed.

Lemma in_width_lxor w a b :
  0 <= w -> in_width w a -> in_width w b -> in_width w (Z.lxor a b).
Proof.
  intros Hw Ha Hb. apply in_width_mod; [exact Hw|].
  apply (in_width_mod w a Hw) in Ha. apply (in_width_mod w b Hw) in Hb.
  rewrite <- !Z.land_ones in * by exact Hw.
  rewrite land_lxor_distr_r. now rewrite Ha, Hb.
Qed.

Lemma in_width_weaken w w' x : w <= w' -> in_width w x -> in_width w' x.
Proof.
  unfold in_width. intros Hle [H0 H1]. split; [exact H0|].
  eapply Z.lt_le_trans; [exact H1|]. apply Z.pow_le_mono_r; lia.
Qed.

Lemma lxor_swap_right a v g : Z.lxor (Z.lxor a v) g = Z.lxor (Z.lxor a g) v.
Proof. rewrite !Z.lxor_assoc. f_equal. apply Z.lxor_comm. Qed.

(** The value entering a round is added (xor) to what the round gives for
    zero. *)
Lemma PolyMod_step_value c v :
  bech32.PolyMod_step c v = Z.lxor (bech32.PolyMod_step c 0) v.
Proof.
  unfold bech32.PolyMod_step. cbv zeta. rewrite Z.lxor_0_r.
  destruct (Z.testbit (Z.shiftr c 25) 0), (Z.testbit (Z.shiftr c 25) 1),
    (Z.testbit (Z.shiftr c 25) 2), (Z.testbit (Z.shiftr c 25) 3),
    (Z.testbit (Z.shiftr c 25) 4);
    repeat rewrite (fun a g => lxor_swap_right a v g); reflexivity.
Qed.

(** A difference in the low twenty-five bits of the state moves up by one
    group and touches nothing else. *)
Lemma PolyMod_step_state c d :
  in_width 25 d ->
  bech32.PolyMod_step (Z.lxor c d) 0
  = Z.lxor (bech32.PolyMod_step c 0) (Z.shiftl d 5).
Proof.
  intros Hd. unfold bech32.PolyMod_step. cbv zeta.
  rewrite Z.shiftr_lxor.
  assert (Hhi : Z.shiftr d 25 = 0).
  { rewrite Z.shiftr_div_pow2 by lia. apply Z.div_small. exact Hd. }
  rewrite Hhi, !Z.lxor_0_r.
  change 33554431 with (2 ^ 25 - 1).
  rewrite land_lxor_distr_r.
  assert (Hlo : Z.land d (2 ^ 25 - 1) = d).
  { rewrite land_low_bits by lia. apply Z.mod_small. exact Hd. }
  rewrite Hlo, Z.shiftl_lxor.
  destruct (Z.testbit (Z.shiftr c 25) 0), (Z.testbit (Z.shiftr c 25) 1),
    (Z.testbit (Z.shiftr c 25) 2), (Z.testbit (Z.shiftr c 25) 3),
    (Z.testbit (Z.shiftr c 25) 4);
    repeat rewrite (fun a g => lxor_swap_right a (Z.shiftl d 5) g); reflexivity.
Qed.

Lemma PolyMod_step_range c v : in_width 30 v -> in_width 30 (bech32.PolyMod_step c v).
Proof.
  intros Hv. unfold bech32.PolyMod_step. cbv zeta.
  assert (H0 : in_width 30 (Z.lxor (Z.shiftl (Z.land c 33554431) 5) v)).
  { apply in_width_lxor; [lia| |exact Hv].
    change 33554431 with (2 ^ 25 - 1). rewrite land_low_bits by lia.
    rewrite Z.shiftl_mul_pow2 by lia.
    pose proof (Z.mod_pos_bound c (2 ^ 25) ltac:(lia)) as Hm.
    unfold in_width. change (2 ^ 30) with (2 ^ 25 * 2 ^ 5). lia. }
  assert (Hg : forall (b : bool) x g, in_width 30 x -> in_width 30 g ->
                 in_width 30 (if b then Z.lxor x g else x)).
  { intros b x g Hx Hgg. destruct b; [apply in_width_lxor; [lia|exact Hx|exact Hgg] | exact Hx]. }
  repeat apply Hg; try exact H0; unfold in_width; lia.
Qed.

Lemma fold_PolyMod_step_range vs c :
  in_width 30 c -> Forall (in_width 30) vs ->
  in_width 30 (fold_left bech32.PolyMod_step vs c).
Proof.
  intros Hc Hvs. revert c Hc. induction Hvs as [|v vs Hv _ IH]; intros c Hc; [exact Hc|].
  cbn [fold_left]. apply IH. now apply PolyMod_step_range.
Qed.

(** Running the rounds over up to six groups equals running them over
    zeros and adding the groups read as a number. *)
Lemma fold_PolyMod_step_tail vs :
  Forall (in_width 5) vs ->
  forall n c d,
    0 <= n -> n + Z.of_nat (length vs) <= 6 -> in_width (5 * n) d ->
    fold_left bech32.PolyMod_step vs (Z.lxor c d)
    = Z.lxor (fold_left bech32.PolyMod_step (repeat 0 (length vs)) c)
             (radix_value 5 vs d).
Proof.
  induction 1 as [|v vs Hv Hvs IH]; intros n c d Hn Hlen Hd.
  - reflexivity.
  - cbn [length] in Hlen. cbn [fold_left length repeat]. rewrite radix_value_cons.
    rewrite PolyMod_step_value, PolyMod_step_state
      by (apply (in_width_weaken (5 * n)); [lia | exact Hd]).
    rewrite Z.lxor_assoc.
    assert (Hsum : Z.lxor (Z.shiftl d 5) v = d * 2 ^ 5 + v).
    { apply shiftl_lxor_add; [lia | exact Hv]. }
    rewrite Hsum.
    apply (IH (n + 1)); [lia | lia |].
    unfold in_width in *. replace (5 * (n + 1)) with (5 * n + 5) by lia.
    rewrite Z.pow_add_r by lia. nia.
Qed.

Lemma PolyMod_app a b :
  bech32.PolyMod (a ++ b) = fold_left bech32.PolyMod_step b (bech32.PolyMod a).
Proof. unfold bech32.PolyMod. apply fold_left_app. Qed.

Lemma fold_PolyMod_step_zeros_range c :
  in_width 30 (fold_left bech32.PolyMod_step (repeat 0 bech32.CHECKSUM_SIZE) c).
Proof.
  change (repeat 0 bech32.CHECKSUM_SIZE) with (repeat 0 5 ++ [0]).
  rewrite fold_left_app. cbn [fold_left]. apply PolyMod_step_range.
  unfold in_width. lia.
Qed.

Lemma checksum_groups_spec m :
  in_width 30 m ->
  length (checksum_groups m) = 6%nat
  /\ Forall (in_width 5) (checksum_groups m)
  /\ radix_value 5 (checksum_groups m) 0 = m.
Proof.
  intros Hm. unfold checksum_groups. cbn [seq map bech32.CHECKSUM_SIZE Z.of_nat].
  change 31 with (2 ^ 5 - 1). rewrite !land_low_bits by lia.
  rewrite !Z.shiftr_div_pow2 by lia.
  split; [reflexivity|]. split.
  - repeat constructor; apply Z.mod_pos_bound; lia.
  - unfold radix_value. cbn [fold_left]. unfold in_width in Hm.
    change (5 * (5 - 0)) with 25. cbn -[Z.pow Z.div Z.modulo Z.mul Z.add].
    change (2 ^ 5) with 32.
    change (2 ^ (5 * (5 - Z.pos 1))) with (2 ^ 20).
    Z.div_mod_to_equations. lia.
Qed.

Lemma CreateChecksum_groups e h values :
  bech32.CreateChecksum e h values
  = checksum_groups
      (Z.lxor (bech32.PolyMod (bech32.PreparePolynomialCoefficients h values
                                ++ repeat 0 bech32.CHECKSUM_SIZE))
              (bech32.EncodingConstant e)).
Proof. reflexivity. Qed.

Lemma Prepare_app h values cs :
  bech32.PreparePolynomialCoefficients h (values ++ cs)
  = bech32.PreparePolynomialCoefficients h values ++ cs.
Proof. unfold bech32.PreparePolynomialCoefficients. now rewrite !app_assoc. Qed.

(** The polynomial remainder of prefix, groups and six more groups [cs]. *)
Lemma PolyMod_with_checksum h values cs :
  length cs = 6%nat -> Forall (in_width 5) cs ->
  bech32.PolyMod (bech32.PreparePolynomialCoefficients h (values ++ cs))
  = Z.lxor (bech32.PolyMod (bech32.PreparePolynomialCoefficients h values
                              ++ repeat 0 bech32.CHECKSUM_SIZE))
           (radix_value 5 cs 0).
Proof.
  intros Hlen Hcs. rewrite Prepare_app, !PolyMod_app.
  set (c := bech32.PolyMod (bech32.PreparePolynomialCoefficients h values)).
  rewrite <- (Z.lxor_0_r c) at 1.
  rewrite (fold_PolyMod_step_tail cs Hcs 0 c 0); [| lia | lia | unfold in_width; cbn; lia].
  now rewrite Hlen.
Qed.

Lemma lxor_cancel_l a b : Z.lxor a (Z.lxor a b) = b.
Proof. now rewrite <- Z.lxor_assoc, Z.lxor_nilpotent, Z.lxor_0_l. Qed.

Lemma EncodingConstant_range e : in_width 30 (bech32.EncodingConstant e).
Proof. destruct e; unfold in_width; cbn; lia. Qed.

Lemma CreateChecksum_spec e h values :
  length (bech32.CreateChecksum e h values) = 6%nat
  /\ Forall (in_width 5) (bech32.CreateChecksum e h values)
  /\ radix_value 5 (bech32.CreateChecksum e h values) 0
     = Z.lxor (bech32.PolyMod (bech32.PreparePolynomialCoefficients h values
                                 ++ repeat 0 bech32.CHECKSUM_SIZE))
              (bech32.EncodingConstant e).
Proof.
  rewrite CreateChecksum_groups. apply checksum_groups_spec.
  apply in_width_lxor; [lia | | apply EncodingConstant_range].
  rewrite PolyMod_app. apply fold_PolyMod_step_zeros_range.
Qed.

(** What [CreateChecksum] appends is what [VerifyChecksum] looks for. *)
Lemma PolyMod_of_created_checksum e h values :
  bech32.PolyMod (bech32.PreparePolynomialCoefficients h
                    (values ++ bech32.CreateChecksum e h values))
  = bech32.EncodingConstant e.
Proof.
  destruct (CreateChecksum_spec e h values) as (Hlen & Hcs & Hval).
  rewrite (PolyMod_with_checksum h values _ Hlen Hcs), Hval.
  apply lxor_cancel_l.
Qed.

Lemma VerifyChecksum_created h values :
  bech32.VerifyChecksum h (values ++ bech32.CreateChecksum bech32.BECH32M h values)
  = bech32.BECH32M.
Proof.
  unfold bech32.VerifyChecksum. cbv zeta. rewrite PolyMod_of_created_checksum.
  reflexivity.
Qed.

(** Six groups other than the checksum never give the Bech32m constant. *)
Lemma VerifyChecksum_other h values cs :
  length cs = 6%nat -> Forall (in_width 5) cs ->
  cs <> bech32.CreateChecksum bech32.BECH32M h values ->
  bech32.VerifyChecksum h (values ++ cs) <> bech32.BECH32M.
Proof.
  intros Hlen Hcs Hne.
  destruct (CreateChecksum_spec bech32.BECH32M h values) as (Hlen0 & Hcs0 & Hval0).
  unfold bech32.VerifyChecksum. cbv zeta.
  rewrite (PolyMod_with_checksum h values cs Hlen Hcs).
  set (P0 := bech32.PolyMod (bech32.PreparePolynomialCoefficients h values
                               ++ repeat 0 bech32.CHECKSUM_SIZE)) in *.
  destruct (Z.lxor P0 (radix_value 5 cs 0) =? bech32.EncodingConstant bech32.BECH32);
    [discriminate|].
  destruct (Z.lxor P0 (radix_value 5 cs 0) =? bech32.EncodingConstant bech32.BECH32M) eqn:E;
    [|discriminate].
  exfalso. apply Hne. apply Z.eqb_eq in E.
  apply (radix_value_inj 5); try assumption; try lia.
  rewrite Hval0, <- E. symmetry. apply lxor_cancel_l.
Qed.

(** ** The text form *)

Lemma in_width_5_cases (P : Z -> Prop) :
  (forall n, (n < 32)%nat -> P (Z.of_nat n)) -> forall v, in_width 5 v -> P v.
Proof.
  intros H v [H0 H1]. rewrite <- (Z2Nat.id v H0). apply H.
  change (2 ^ 5) with 32 in H1. lia.
Qed.

Lemma charset_at_facts v :
  in_width 5 v ->
  quiet (bech32.charset_at v) = true
  /\ not_separator (bech32.charset_at v) = true
  /\ rev_of (bech32.charset_at v) = v.
Proof.
  revert v. apply in_width_5_cases. intros n Hn.
  do 32 (destruct n as [|n]; [vm_compute; repeat split; reflexivity|]). lia.
Qed.

Lemma CheckCharacters_loop_quiet l lower :
  forallb quiet l = true -> bech32.CheckCharacters_loop l lower false = true.
Proof.
  revert lower. induction l as [|c l IH]; intros lower H; [reflexivity|].
  cbn [forallb] in H. apply andb_true_iff in H as [Hc Hl].
  unfold quiet, is_upper in Hc.
  apply andb_true_iff in Hc as [Hc H126]. apply andb_true_iff in Hc as [Hup H33].
  cbn [bech32.CheckCharacters_loop].
  destruct ((bech32.code "a" <=? bech32.code c) && (bech32.code c <=? bech32.code "z"));
    [now apply IH|].
  apply negb_true_iff in Hup. rewrite Hup.
  apply Z.leb_le in H33. apply Z.leb_le in H126.
  destruct (bech32.code c <? 33) eqn:E1; [apply Z.ltb_lt in E1; lia|].
  destruct (126 <? bech32.code c) eqn:E2; [apply Z.ltb_lt in E2; lia|].
  cbn [orb]. now apply IH.
Qed.

Lemma CheckCharacters_loop_no_upper l upper :
  bech32.CheckCharacters_loop l true upper = true ->
  forallb (fun c => negb (is_upper c)) l = true.
Proof.
  revert upper. induction l as [|c l IH]; intros upper H; [reflexivity|].
  cbn [bech32.CheckCharacters_loop] in H. cbn [forallb].
  destruct ((bech32.code "a" <=? bech32.code c) && (bech32.code c <=? bech32.code "z")) eqn:Elow.
  - destruct upper; [discriminate|]. apply IH in H. rewrite H.
    assert (Hn : is_upper c = false).
    { unfold is_upper. apply andb_true_iff in Elow as [E1 E2].
      apply Z.leb_le in E1. apply Z.leb_le in E2.
      change (bech32.code "a") with 97 in E1. change (bech32.code "Z") with 90.
      destruct (bech32.code c <=? 90) eqn:E3; [apply Z.leb_le in E3; lia|].
      apply andb_false_r. }
    now rewrite Hn.
  - fold (is_upper c) in H. destruct (is_upper c); [discriminate|].
    destruct ((bech32.code c <? 33) || (126 <? bech32.code c)); [discriminate|].
    apply IH in H. now rewrite H.
Qed.

Lemma rfind_none l :
  forallb not_separator l = true -> bech32.rfind l "1" = None.
Proof.
  induction l as [|c l IH]; [reflexivity|]. cbn [forallb bech32.rfind].
  intros H. apply andb_true_iff in H as [Hc Hl]. rewrite (IH Hl).
  unfold not_separator in Hc. apply negb_true_iff in Hc. now rewrite Hc.
Qed.

Lemma rfind_last p t :
  forallb not_separator t = true ->
  bech32.rfind (p ++ "1"%char :: t) "1" = Some (length p).
Proof.
  intros Ht. induction p as [|c p IH].
  - cbn [app bech32.rfind length]. now rewrite (rfind_none t Ht).
  - cbn [app bech32.rfind length]. now rewrite IH.
Qed.

Lemma decode_values_app a b :
  bech32.decode_values (a ++ b)
  = match bech32.decode_values a, bech32.decode_values b with
    | Some x, Some y => Some (x ++ y)
    | _, _ => None
    end.
Proof.
  induction a as [|c a IH].
  - cbn. now destruct (bech32.decode_values b).
  - cbn [app bech32.decode_values].
    destruct (nth (Z.to_nat (bech32.code c)) bech32.CHARSET_REV (-1) =? -1); [reflexivity|].
    rewrite IH. destruct (bech32.decode_values a); [|reflexivity].
    now destruct (bech32.decode_values b).
Qed.

Lemma decode_values_charset vs :
  Forall (in_width 5) vs ->
  bech32.decode_values (map bech32.charset_at vs) = Some vs.
Proof.
  induction 1 as [|v vs Hv _ IH]; [reflexivity|].
  cbn [map bech32.decode_values].
  destruct (charset_at_facts v Hv) as (_ & _ & Hrev). unfold rev_of in Hrev.
  rewrite Hrev, IH.
  destruct (v =? -1) eqn:E; [|reflexivity].
  apply Z.eqb_eq in E. destruct Hv. lia.
Qed.

Lemma forallb_charset (f : ascii -> bool) vs :
  (forall v, in_width 5 v -> f (bech32.charset_at v) = true) ->
  Forall (in_width 5) vs -> forallb f (map bech32.charset_at vs) = true.
Proof.
  intros Hf. induction 1 as [|v vs Hv _ IH]; [reflexivity|].
  cbn [map forallb]. now rewrite (Hf v Hv), IH.
Qed.

(** [Decode] on a string whose last separator is known. *)
Lemma Decode_at_separator p t :
  forallb not_separator t = true ->
  bech32.Decode (string_of_list_ascii (p ++ "1"%char :: t))
  = if negb (bech32.CheckCharacters (p ++ "1"%char :: t)) then bech32.no_result
    else if (90 <? length (p ++ "1"%char :: t))%nat then bech32.no_result
    else if (length p =? 0)%nat
            || (length (p ++ "1"%char :: t) <=? length p + bech32.CHECKSUM_SIZE)%nat
    then bech32.no_result
    else
      match bech32.decode_values t with
      | None => bech32.no_result
      | Some values =>
          if bech32.Encoding_eqb
               (bech32.VerifyChecksum (map bech32.LowerCase p) values) bech32.INVALID
          then bech32.no_result
          else {| bech32.encoding := bech32.VerifyChecksum (map bech32.LowerCase p) values;
                  bech32.hrp := string_of_list_ascii (map bech32.LowerCase p);
                  bech32.dec_data := firstn (length values - bech32.CHECKSUM_SIZE) values |}
      end.
Proof.
  intros Ht. unfold bech32.Decode. cbv zeta.
  rewrite list_ascii_of_string_of_list_ascii.
  rewrite (rfind_last p t Ht).
  assert (Hf : firstn (length p) (p ++ "1"%char :: t) = p).
  { rewrite firstn_app, Nat.sub_diag, firstn_all. cbn [firstn]. apply app_nil_r. }
  assert (Hs : skipn (length p + 1) (p ++ "1"%char :: t) = t).
  { rewrite skipn_app, skipn_all2 by lia.
    replace (length p + 1 - length p)%nat with 1%nat by lia. reflexivity. }
  rewrite Hf, Hs. reflexivity.
Qed.

Lemma Encode_EBC values :
  bech32.Encode bech32.BECH32M EBC_HRP values
  = string_of_list_ascii
      (["e"; "b"; "c"]%char
         ++ "1"%char
         :: "1"%char :: map bech32.charset_at
                          (values ++ bech32.CreateChecksum bech32.BECH32M ebc_hrp values)).
Proof. unfold bech32.Encode. cbv zeta. now rewrite map_app. Qed.

(** Decoding what [Encode] produced for the "ebc1" prefix. *)
Lemma Decode_Encode values :
  Forall (in_width 5) values ->
  (length values + 11 <= 90)%nat ->
  bech32.Decode (bech32.Encode bech32.BECH32M EBC_HRP values)
  = {| bech32.encoding := bech32.BECH32M;
       bech32.hrp := EBC_HRP;
       bech32.dec_data := values |}.
Proof.
  intros Hv Hlen.
  destruct (CreateChecksum_spec bech32.BECH32M ebc_hrp values) as (Hcl & Hcs & _).
  assert (Hall : Forall (in_width 5)
                   (values ++ bech32.CreateChecksum bech32.BECH32M ebc_hrp values))
    by (apply Forall_app; split; assumption).
  rewrite Encode_EBC.
  change (["e"; "b"; "c"]%char ++ "1"%char :: "1"%char :: ?t)
    with (ebc_hrp ++ "1"%char :: t).
  rewrite Decode_at_separator
    by (apply forallb_charset; [intros v Hv'; apply (charset_at_facts v Hv') | exact Hall]).
  assert (Hcheck : bech32.CheckCharacters
                     (ebc_hrp ++ "1"%char :: map bech32.charset_at
                        (values ++ bech32.CreateChecksum bech32.BECH32M ebc_hrp values)) = true).
  { apply CheckCharacters_loop_quiet. rewrite forallb_app. cbn [forallb].
    rewrite (forallb_charset quiet); [reflexivity | | exact Hall].
    intros v Hv'. apply (charset_at_facts v Hv'). }
  rewrite Hcheck. cbn [negb].
  rewrite length_app. cbn [length]. rewrite length_map, length_app, Hcl.
  change (length ebc_hrp) with 4%nat.
  destruct (90 <? 4 + S (length values + 6))%nat eqn:E90;
    [apply Nat.ltb_lt in E90; lia|].
  destruct ((4 =? 0)%nat || (4 + S (length values + 6) <=? 4 + bech32.CHECKSUM_SIZE)%nat) eqn:Epos.
  { apply orb_true_iff in Epos as [E|E]; [discriminate E|].
    apply Nat.leb_le in E. unfold bech32.CHECKSUM_SIZE in E. lia. }
  rewrite (decode_values_charset _ Hall).
  change (map bech32.LowerCase ebc_hrp) with ebc_hrp.
  rewrite VerifyChecksum_created. cbn [bech32.Encoding_eqb].
  rewrite length_app, Hcl. unfold bech32.CHECKSUM_SIZE.
  replace (length values + 6 - 6)%nat with (length values) by lia.
  rewrite firstn_app, Nat.sub_diag, firstn_all. cbn [firstn]. rewrite app_nil_r.
  reflexivity.
Qed.

Lemma EBCAddress_valid_length (a : EBCAddress.t) :
  EBCAddress.IsValid a = true ->
  length (EBCAddress.m_data a) = 20%nat \/ length (EBCAddress.m_data a) = 32%nat.
Proof.
  intros Hv. destruct (EBCAddress_valid_versions a Hv) as [_ H].
  destruct H as [[_ H]|[[_ H]|[[_ H]|[_ H]]]]; auto.
Qed.

(** The groups [ToString] hands to the encoder. *)
Lemma ToString_groups (v : EBCAddress.t) :
  EBCAddress.IsValid v = true ->
  exists groups,
    EBCAddress.ToString v = bech32.Encode bech32.BECH32M EBC_HRP groups
    /\ Forall (in_width 5) groups
    /\ (36 <= length groups <= 55)%nat
    /\ ConvertBits 5 8 false groups
       = Some (map byte_val (EBCAddress.m_version v :: octet (EBCAddress.m_algorithm v)
                               :: EBCAddress.m_data v)).
Proof.
  intros Hv. unfold EBCAddress.ToString. rewrite Hv. cbn [negb app].
  destruct (ConvertBits_8_5_8
              (EBCAddress.m_version v :: octet (EBCAddress.m_algorithm v)
                 :: EBCAddress.m_data v))
    as (groups & Eenc & Hg & Hl1 & Hl2 & Edec).
  rewrite Eenc. exists groups. split; [reflexivity|]. split; [exact Hg|].
  split; [|exact Edec].
  cbn [length] in Hl1, Hl2.
  destruct (EBCAddress_valid_length v Hv) as [H|H]; rewrite H in Hl1, Hl2; lia.
Qed.

(** Decoding the encoding of a valid address gives the address whose
    algorithm value is the low byte of the original one, if that address is
    valid, and the default address if it is not. *)
Lemma FromString_ToString_low_byte (v : EBCAddress.t) :
  EBCAddress.IsValid v = true ->
  EBCAddress.FromString (EBCAddress.ToString v)
  = if EBCAddress.IsValid (low_byte_address v) then low_byte_address v
    else EBCAddress.default.
Proof.
  intros Hv.
  destruct (ToString_groups v Hv) as (groups & Es & Hg & Hlen & Edec).
  rewrite Es. unfold EBCAddress.FromString. cbv zeta.
  rewrite Decode_Encode by (try exact Hg; lia).
  cbn [bech32.encoding bech32.hrp bech32.dec_data bech32.Encoding_eqb negb].
  rewrite String.eqb_refl. cbn [negb orb].
  destruct groups as [|g groups']; [cbn in Hlen; lia|].
  rewrite Edec, map_octet_byte_val.
  cbn [length Nat.ltb Nat.leb nth skipn]. reflexivity.
Qed.

(** Decoding the encoding of a valid address whose algorithm value fits in
    a byte gives the address back. *)
Lemma FromString_ToString (v : EBCAddress.t) :
  EBCAddress.IsValid v = true ->
  in_width 8 (EBCAddress.m_algorithm v) ->
  EBCAddress.FromString (EBCAddress.ToString v) = v.
Proof.
  intros Hv Hw. rewrite (FromString_ToString_low_byte v Hv).
  assert (He : low_byte_address v = v).
  { unfold low_byte_address. rewrite byte_val_octet_small by exact Hw. now destruct v. }
  now rewrite He, Hv.
Qed.

(** ** A changed checksum character *)

Lemma FromString_not_BECH32M (s : string) :
  bech32.encoding (bech32.Decode s) <> bech32.BECH32M ->
  EBCAddress.FromString s = EBCAddress.default.
Proof.
  intros H. unfold EBCAddress.FromString. cbv zeta.
  destruct (bech32.encoding (bech32.Decode s)); try reflexivity. now elim H.
Qed.

Lemma char_table_ok (c : ascii) : char_table_entry_ok c = true.
Proof. destruct c as [[] [] [] [] [] [] [] []]; vm_compute; reflexivity. Qed.

(** A character that is not an upper-case letter and has an entry in
    [CHARSET_REV] is the character of [CHARSET] at that entry. *)
Lemma rev_of_charset (c : ascii) :
  is_upper c = false -> rev_of c <> (-1)%Z ->
  in_width 5 (rev_of c) /\ bech32.charset_at (rev_of c) = c.
Proof.
  intros Hup Hrev. pose proof (char_table_ok c) as H.
  unfold char_table_entry_ok in H. rewrite Hup in H. cbn [orb] in H.
  destruct (rev_of c =? -1)%Z eqn:E; [apply Z.eqb_eq in E; contradiction|].
  cbn [orb] in H. apply andb_true_iff in H as [H Hc].
  apply andb_true_iff in H as [H0 H1].
  apply Z.leb_le in H0. apply Z.ltb_lt in H1. apply Ascii.eqb_eq in Hc.
  split; [unfold in_width; change (2 ^ 5)%Z with 32%Z; lia | exact Hc].
Qed.

Lemma Decode_no_result_encoding :
  bech32.encoding bech32.no_result <> bech32.BECH32M.
Proof. discriminate. Qed.

Lemma altered_checksum_core (groups a0 b0 : list Z) (x : Z) (c : ascii) :
  Forall (in_width 5) groups ->
  bech32.CreateChecksum bech32.BECH32M ebc_hrp groups = a0 ++ x :: b0 ->
  c <> bech32.charset_at x ->
  EBCAddress.FromString
    (string_of_list_ascii
       (ebc_hrp ++ "1"%char :: map bech32.charset_at groups
          ++ map bech32.charset_at a0 ++ c :: map bech32.charset_at b0))
  = EBCAddress.default.
Proof.
  intros Hg Hcs Hc.
  destruct (CreateChecksum_spec bech32.BECH32M ebc_hrp groups) as (Hlen & Hw & _).
  rewrite Hcs in Hlen, Hw.
  rewrite length_app in Hlen. cbn [length] in Hlen.
  apply Forall_app in Hw as [Ha0 Hxb0]. inversion Hxb0 as [|? ? Hx Hb0]; subst.
  assert (Hsep : forall l, Forall (in_width 5) l ->
                   forallb not_separator (map bech32.charset_at l) = true).
  { intros l Hl. apply forallb_charset; [|exact Hl].
    intros v Hv. apply (charset_at_facts v Hv). }
  apply FromString_not_BECH32M.
  destruct (not_separator c) eqn:Ec.
  - (* the new character is not the separator *)
    rewrite Decode_at_separator.
    2:{ rewrite !forallb_app. cbn [forallb]. now rewrite !Hsep, Ec. }
    destruct (bech32.CheckCharacters _) eqn:Echeck; cbn [negb];
      [|apply Decode_no_result_encoding].
    destruct (90 <? _)%nat; [apply Decode_no_result_encoding|].
    destruct (_ || _); [apply Decode_no_result_encoding|].
    rewrite !decode_values_app, !decode_values_charset by assumption.
    cbn [bech32.decode_values]. fold (rev_of c).
    destruct (rev_of c =? -1)%Z eqn:Erev; [apply Decode_no_result_encoding|].
    apply Z.eqb_neq in Erev.
    rewrite decode_values_charset by assumption.
    assert (Hup : is_upper c = false).
    { unfold bech32.CheckCharacters in Echeck. cbn [ebc_hrp] in Echeck.
      change (bech32.CheckCharacters_loop (ebc_hrp ++ ?t) false false)
        with (bech32.CheckCharacters_loop (["b"; "c"; "1"]%char ++ t) true false) in Echeck.
      apply CheckCharacters_loop_no_upper in Echeck.
      rewrite forallb_app in Echeck. apply andb_true_iff in Echeck as [_ Echeck].
      cbn [forallb] in Echeck. apply andb_true_iff in Echeck as [_ Echeck].
      rewrite !forallb_app in Echeck. apply andb_true_iff in Echeck as [_ Echeck].
      apply andb_true_iff in Echeck as [_ Echeck].
      cbn [forallb] in Echeck. apply andb_true_iff in Echeck as [Echeck _].
      now apply negb_true_iff in Echeck. }
    destruct (rev_of_charset c Hup Erev) as [Hrw Hrc].
    change (map bech32.LowerCase ebc_hrp) with ebc_hrp.
    assert (Hv : bech32.VerifyChecksum ebc_hrp (groups ++ a0 ++ rev_of c :: b0)
                 <> bech32.BECH32M).
    { apply VerifyChecksum_other.
      - rewrite length_app. cbn [length]. exact Hlen.
      - apply Forall_app. split; [exact Ha0|]. constructor; assumption.
      - rewrite Hcs. intros Heq. apply app_inv_head in Heq.
        injection Heq as Heq. apply Hc. now rewrite <- Heq. }
    destruct (bech32.VerifyChecksum ebc_hrp (groups ++ a0 ++ rev_of c :: b0));
      cbn [bech32.Encoding_eqb bech32.encoding bech32.no_result];
      [discriminate | discriminate | exact Hv].
  - (* the new character is a separator: fewer than six characters follow it *)
    unfold not_separator in Ec. apply negb_false_iff in Ec. apply Ascii.eqb_eq in Ec.
    subst c.
    replace (ebc_hrp ++ "1"%char :: map bech32.charset_at groups
               ++ map bech32.charset_at a0 ++ "1"%char :: map bech32.charset_at b0)
      with ((ebc_hrp ++ "1"%char :: map bech32.charset_at groups
               ++ map bech32.charset_at a0) ++ "1"%char :: map bech32.charset_at b0)
      by (rewrite <- !app_assoc; cbn [app]; now rewrite <- !app_assoc).
    rewrite Decode_at_separator by (now apply Hsep).
    destruct (negb _); [apply Decode_no_result_encoding|].
    destruct (90 <? _)%nat; [apply Decode_no_result_encoding|].
    match goal with
    | |- context [(?a || ?b)%bool] => assert (Hshort : (a || b)%bool = true)
    end.
    { apply orb_true_iff. right. apply Nat.leb_le.
      rewrite (length_app (_ ++ _)). cbn [length]. rewrite length_map.
      unfold bech32.CHECKSUM_SIZE. lia. }
    rewrite Hshort. apply Decode_no_result_encoding.
Qed.

Lemma length_string_of_list_ascii (l : list ascii) :
  String.length (string_of_list_ascii l) = length l.
Proof. induction l as [|c l IH]; [reflexivity|]. cbn. now rewrite IH. Qed.

Lemma get_string_of_list_ascii (l : list ascii) (i : nat) :
  String.get i (string_of_list_ascii l) = nth_error l i.
Proof.
  revert i. induction l as [|c l IH]; intros i.
  - now destruct i.
  - destruct i as [|i]; [reflexivity|]. cbn. apply IH.
Qed.

Lemma alter_at_end_of_prefix (pre post : list ascii) (y c : ascii) :
  alter (string_of_list_ascii (pre ++ y :: post)) (length pre) c
  = string_of_list_ascii (pre ++ c :: post).
Proof.
  unfold alter. cbv zeta. rewrite list_ascii_of_string_of_list_ascii.
  f_equal. f_equal.
  - rewrite firstn_app, Nat.sub_diag, firstn_all. cbn [firstn]. apply app_nil_r.
  - f_equal. rewrite skipn_app, skipn_all2 by lia.
    replace (S (length pre) - length pre)%nat with 1%nat by lia. reflexivity.
Qed.

(** Decoding after one of the six checksum characters was replaced by
    another character gives the default address. *)
Lemma FromString_altered_checksum (v : EBCAddress.t) (i : nat) (c : ascii) :
  EBCAddress.IsValid v = true ->
  (String.length (EBCAddress.ToString v) - 6 <= i
   < String.length (EBCAddress.ToString v))%nat ->
  String.get i (EBCAddress.ToString v) <> Some c ->
  EBCAddress.FromString (alter (EBCAddress.ToString v) i c) = EBCAddress.default.
Proof.
  intros Hv.
  destruct (ToString_groups v Hv) as (groups & Es & Hg & Hlen & _).
  rewrite Es, Encode_EBC. clear Es.
  destruct (CreateChecksum_spec bech32.BECH32M ebc_hrp groups) as (Hcl & _ & _).
  set (cs := bech32.CreateChecksum bech32.BECH32M ebc_hrp groups) in *.
  rewrite length_string_of_list_ascii, get_string_of_list_ascii.
  rewrite length_app. cbn [length]. rewrite length_map, length_app, Hcl.
  intros Hi Hget.
  assert (Hj : (i - (5 + length groups) < length cs)%nat) by lia.
  destruct (nth_split cs 0%Z Hj) as (a0 & b0 & Ecs & Hla).
  set (x := nth (i - (5 + length groups)) cs 0%Z) in *.
  assert (Heq : ["e"; "b"; "c"]%char ++ "1"%char :: "1"%char
                  :: map bech32.charset_at (groups ++ cs)
                = (ebc_hrp ++ "1"%char :: map bech32.charset_at groups
                     ++ map bech32.charset_at a0)
                  ++ bech32.charset_at x :: map bech32.charset_at b0).
  { rewrite Ecs, !map_app. cbn [map].
    change ebc_hrp with ["e"; "b"; "c"; "1"]%char.
    cbn [app]. rewrite <- ?app_assoc. cbn [app]. reflexivity. }
  assert (Hpos : i = length (ebc_hrp ++ "1"%char :: map bech32.charset_at groups
                               ++ map bech32.charset_at a0)).
  { rewrite length_app. cbn [length]. rewrite length_app, !length_map, Hla.
    change (length ebc_hrp) with 4%nat. lia. }
  rewrite Heq in Hget |- *.
  rewrite Hpos in Hget at 1. rewrite Hpos at 1.
  rewrite nth_error_app2, Nat.sub_diag in Hget by lia. cbn [nth_error] in Hget.
  rewrite alter_at_end_of_prefix.
  replace ((ebc_hrp ++ "1"%char :: map bech32.charset_at groups
              ++ map bech32.charset_at a0) ++ c :: map bech32.charset_at b0)
    with (ebc_hrp ++ "1"%char :: map bech32.charset_at groups
            ++ map bech32.charset_at a0 ++ c :: map bech32.charset_at b0)
    by (rewrite <- !app_assoc; cbn [app]; now rewrite <- !app_assoc).
  apply (altered_checksum_core groups a0 b0 x c Hg Ecs).
  intros ->. now apply Hget.
Qed.

(** [FromString] returns the default address or a valid one. *)
Lemma FromString_default_or_valid (s : string) :
  EBCAddress.FromString s = EBCAddress.default
  \/ EBCAddress.IsValid (EBCAddress.FromString s) = true.
Proof.
  unfold EBCAddress.FromString. cbv zeta.
  destruct (_ || _)%bool; [now left|].
  destruct (bech32.dec_data (bech32.Decode s)); [now left|].
  destruct (ConvertBits 5 8 false _); [|now left].
  destruct (_ <? 2)%nat; [now left|].
  match goal with |- context [if EBCAddress.IsValid ?a then _ else _] =>
    destruct (EBCAddress.IsValid a) eqn:E end; [now right | now left].
Qed.

(** What [IsValid] says of the address a text reads back as: the original
    answer, with the low byte of the algorithm value in place of the
    value. *)
Lemma IsValid_low_byte_address (v : EBCAddress.t) :
  EBCAddress.IsValid v = true ->
  EBCAddress.IsValid (low_byte_address v)
  = negb (Z.eqb (byte_val (octet (EBCAddress.m_algorithm v))) UNKNOWN).
Proof.
  unfold EBCAddress.IsValid, low_byte_address.
  cbn [EBCAddress.m_version EBCAddress.m_data EBCAddress.m_algorithm].
  destruct (Z.eqb (EBCAddress.m_algorithm v) UNKNOWN); [discriminate|].
  intros ->. now destruct (Z.eqb (byte_val (octet (EBCAddress.m_algorithm v))) UNKNOWN).
Qed.

(** The text of a valid address fixes its version, its payload and the low
    byte of its algorithm value. *)
Lemma ToString_payload (a b : EBCAddress.t) :
  EBCAddress.IsValid a = true -> EBCAddress.IsValid b = true ->
  EBCAddress.ToString a = EBCAddress.ToString b ->
  EBCAddress.m_version a = EBCAddress.m_version b
  /\ octet (EBCAddress.m_algorithm a) = octet (EBCAddress.m_algorithm b)
  /\ EBCAddress.m_data a = EBCAddress.m_data b.
Proof.
  intros Ha Hb E.
  destruct (ToString_groups a Ha) as (ga & Ea & Hga & Hla & Da).
  destruct (ToString_groups b Hb) as (gb & Eb & Hgb & Hlb & Db).
  rewrite Ea, Eb in E. apply (f_equal bech32.Decode) in E.
  rewrite !Decode_Encode in E by (try assumption; lia).
  injection E as E. subst gb. rewrite Da in Db. cbn [map] in Db.
  injection Db as Hv Hg Hd.
  apply byte_val_inj in Hv. apply byte_val_inj in Hg.
  apply (f_equal (map octet)) in Hd. rewrite !map_octet_byte_val in Hd. auto.
Qed.

(** X26: the text of a valid address whose algorithm value fits in the byte
    the text has for it reads back as that address, which is valid; and the
    text of any valid address, with one of its six checksum characters
    replaced by a different character, reads back as the default address,
    which is invalid. *)
Theorem FromString_ToString_roundtrip :
  forall v : EBCAddress.t,
    EBCAddress.IsValid v = true ->
    (in_width 8 (EBCAddress.GetAlgorithm v) ->
     EBCAddress.FromString (EBCAddress.ToString v) = v
     /\ EBCAddress.IsValid (EBCAddress.FromString (EBCAddress.ToString v)) = true)
    /\ forall (i : nat) (c : ascii),
         (String.length (EBCAddress.ToString v) - 6 <= i
          < String.length (EBCAddress.ToString v))%nat ->
         String.get i (EBCAddress.ToString v) <> Some c ->
         EBCAddress.FromString (alter (EBCAddress.ToString v) i c) = EBCAddress.default
         /\ EBCAddress.IsValid
              (EBCAddress.FromString (alter (EBCAddress.ToString v) i c)) = false.
Proof.
  intros v Hv. split.
  - intros Hw. rewrite (FromString_ToString v Hv Hw). split; [reflexivity | exact Hv].
  - intros i c Hi Hget.
    rewrite (FromString_altered_checksum v i c Hv Hi Hget). split; reflexivity.
Qed.

Lemma FromString_ToString_roundtrip_witness :
  EBCAddress.IsValid sample.p2pqsh_dilithium = true
  /\ in_width 8 (EBCAddress.GetAlgorithm sample.p2pqsh_dilithium)
  /\ EBCAddress.FromString (EBCAddress.ToString sample.p2pqsh_dilithium)
     = sample.p2pqsh_dilithium
  /\ EBCAddress.FromString (alter (EBCAddress.ToString sample.p2pqsh_dilithium) 65 "g")
     = EBCAddress.default.
Proof.
  assert (Hw : in_width 8 (EBCAddress.GetAlgorithm sample.p2pqsh_dilithium))
    by (vm_compute; split; [discriminate | reflexivity]).
  split; [reflexivity|]. split; [exact Hw|].
  destruct (FromString_ToString_roundtrip sample.p2pqsh_dilithium eq_refl) as (H1 & H3).
  split; [exact (proj1 (H1 Hw))|].
  apply (H3 65%nat "g"%char); [vm_compute; lia | vm_compute; discriminate].
Defined.

(** C4, at the failing input: the address the public constructor makes of
    version PQ_PUBKEY, twenty zero bytes and algorithm value 256 is valid,
    its text is the text of the DILITHIUM3 address over the same bytes, and
    that text reads back as the DILITHIUM3 address: a valid address, but not
    the one that was encoded. *)
Theorem ToString_keeps_low_byte_of_algorithm :
  EBCAddress.IsValid sample.p2pqpkh_256 = true
  /\ EBCAddress.ToString sample.p2pqpkh_256
     = EBCAddress.ToString sample.p2pqpkh_dilithium
  /\ EBCAddress.FromString (EBCAddress.ToString sample.p2pqpkh_256)
     = sample.p2pqpkh_dilithium
  /\ EBCAddress.IsValid (EBCAddress.FromString (EBCAddress.ToString sample.p2pqpkh_256))
     = true
  /\ EBCAddress.FromString (EBCAddress.ToString sample.p2pqpkh_256)
     <> sample.p2pqpkh_256.
Proof.
  assert (H : EBCAddress.FromString (EBCAddress.ToString sample.p2pqpkh_256)
              = sample.p2pqpkh_dilithium) by (vm_compute; reflexivity).
  split; [reflexivity|]. split; [vm_compute; reflexivity|].
  split; [exact H|]. rewrite H. split; [reflexivity | discriminate].
Qed.

(** With algorithm value 258 the low byte is that of UNKNOWN, and the text
    of the valid address reads back as the default address. *)
Example ToString_of_algorithm_258 :
  EBCAddress.IsValid sample.p2pqpkh_258 = true
  /\ EBCAddress.FromString (EBCAddress.ToString sample.p2pqpkh_258)
     = EBCAddress.default.
Proof. split; vm_compute; reflexivity. Qed.

(** The encodings of the samples, and the decoding run on strings of the
    address validation test. *)
Example ToString_samples :
  EBCAddress.ToString sample.p2pqpkh_dilithium
    = "ebc11qqqqqqqqqqqqqqqqqqqqqqqqqqqqqqqqqqqqy0hxw6"%string
  /\ EBCAddress.ToString sample.p2pqsh_dilithium
    = "ebc11qyqqqqqqqqqqqqqqqqqqqqqqqqqqqqqqqqqqqqqqqqqqqqqqqqqqqqqylj0cf"%string.
Proof. split; vm_compute; reflexivity. Qed.

Example address_validation_test :
  IsValidEBCAddress "" = false
  /\ IsValidEBCAddress "bc1qw508d6qejxtdg4y5r3zarvary0c5xw7kv8f3t4" = false
  /\ IsValidEBCAddress "invalid" = false.
Proof. repeat split; vm_compute; reflexivity. Qed.

(** The two test vectors of BIP-350 the model was checked against. *)
Example bech32m_test_vectors :
  bech32.Decode "a1lqfn3a"
    = {| bech32.encoding := bech32.BECH32M; bech32.hrp := "a"; bech32.dec_data := [] |}
  /\ bech32.Encode bech32.BECH32M "abcdef"
       (map Z.of_nat (rev (seq 0 32)))
     = "abcdef1l7aum6echk45nj3s0wdvt2fg8x9yrzpqzd3ryx"%string.
Proof. split; vm_compute; reflexivity. Qed.

(** C2, at the failing input: a string with a valid checksum, the right
    prefix and a payload of the right length whose algorithm byte is 7
    decodes to a valid address carrying algorithm 7, not to the default
    address. *)
Theorem FromString_accepts_unnamed_algorithm :
  EBCAddress.FromString sample.text_with_algorithm_7
    = {| EBCAddress.m_version := PQ_PUBKEY;
         EBCAddress.m_data := sample.hash20;
         EBCAddress.m_algorithm := 7%Z |}
  /\ EBCAddress.IsValid (EBCAddress.FromString sample.text_with_algorithm_7) = true
  /\ ~ recognized (EBCAddress.GetAlgorithm
                     (EBCAddress.FromString sample.text_with_algorithm_7))
  /\ EBCAddress.FromString sample.text_with_algorithm_7 <> EBCAddress.default.
Proof.
  assert (H : EBCAddress.FromString sample.text_with_algorithm_7
              = {| EBCAddress.m_version := PQ_PUBKEY;
                   EBCAddress.m_data := sample.hash20;
                   EBCAddress.m_algorithm := 7%Z |})
    by (vm_compute; reflexivity).
  rewrite H. split; [reflexivity|]. split; [reflexivity|].
  split; [intros [E|E]; discriminate E | discriminate].
Qed.

(** The sibling classes reject the same tag. *)
Example PQPubKey_rejects_unnamed_algorithm :
  PQPubKey.Deserialize [x07; x01; x02; x03; x04] = PQPubKey.default.
Proof. reflexivity. Qed.

(** Two valid addresses whose algorithm values differ in the low byte have
    different texts: that byte is the second byte of the encoded payload. *)
Lemma ToString_tells_algorithms_apart (a b : EBCAddress.t) :
  EBCAddress.IsValid a = true -> EBCAddress.IsValid b = true ->
  octet (EBCAddress.GetAlgorithm a) <> octet (EBCAddress.GetAlgorithm b) ->
  EBCAddress.ToString a <> EBCAddress.ToString b.
Proof.
  intros Ha Hb Halg E. apply Halg.
  exact (proj1 (proj2 (ToString_payload a b Ha Hb E))).
Qed.

(** C1, as the sources have it: the script builders do not use their
    algorithm argument, and two valid addresses that differ in nothing but
    the algorithm get the same locking script from [GetScript]. *)
Theorem GetScript_independent_of_algorithm :
  (forall (h : list byte) (g1 g2 : PQAlgorithm),
      ebc_address.CreateP2PQPKHScript h g1 = ebc_address.CreateP2PQPKHScript h g2)
  /\ (forall (h : uint256) (g1 g2 : PQAlgorithm),
        ebc_address.CreateP2PQSHScript h g1 = ebc_address.CreateP2PQSHScript h g2)
  /\ (forall a b : EBCAddress.t,
        EBCAddress.IsValid a = true -> EBCAddress.IsValid b = true ->
        EBCAddress.GetVersion a = EBCAddress.GetVersion b ->
        EBCAddress.GetData a = EBCAddress.GetData b ->
        EBCAddress.GetScript a = EBCAddress.GetScript b).
Proof.
  split; [reflexivity|]. split; [reflexivity|].
  intros a b Ha Hb Hver Hdata.
  unfold EBCAddress.GetVersion, EBCAddress.GetData in *.
  unfold EBCAddress.GetScript. rewrite Ha, Hb, Hver, Hdata.
  destruct (Byte.eqb (EBCAddress.m_version b) PQ_PUBKEY); [reflexivity|].
  destruct (Byte.eqb (EBCAddress.m_version b) PQ_SCRIPT); reflexivity.
Qed.

Lemma GetScript_independent_of_algorithm_witness :
  EBCAddress.IsValid sample.p2pqpkh_dilithium = true
  /\ EBCAddress.IsValid sample.p2pqpkh_falcon = true
  /\ EBCAddress.GetAlgorithm sample.p2pqpkh_dilithium
     <> EBCAddress.GetAlgorithm sample.p2pqpkh_falcon
  /\ EBCAddress.GetScript sample.p2pqpkh_dilithium
     = EBCAddress.GetScript sample.p2pqpkh_falcon.
Proof.
  split; [reflexivity|]. split; [reflexivity|]. split; [discriminate|].
  destruct GetScript_independent_of_algorithm as (_ & _ & H).
  apply (H sample.p2pqpkh_dilithium sample.p2pqpkh_falcon); reflexivity.
Defined.

(** C1, as stated, fails: a Dilithium address and a Falcon address over the
    same key hash, both valid, have the same locking script. *)
Lemma GetScript_same_for_two_algorithms :
  EBCAddress.IsValid sample.p2pqpkh_dilithium = true
  /\ EBCAddress.IsValid sample.p2pqpkh_falcon = true
  /\ EBCAddress.GetVersion sample.p2pqpkh_dilithium
     = EBCAddress.GetVersion sample.p2pqpkh_falcon
  /\ EBCAddress.GetData sample.p2pqpkh_dilithium = EBCAddress.GetData sample.p2pqpkh_falcon
  /\ EBCAddress.GetAlgorithm sample.p2pqpkh_dilithium = DILITHIUM3
  /\ EBCAddress.GetAlgorithm sample.p2pqpkh_falcon = FALCON512
  /\ EBCAddress.GetScript sample.p2pqpkh_dilithium
     = EBCAddress.GetScript sample.p2pqpkh_falcon.
Proof. repeat split. Qed.

(** ** The public key derived from a private key *)

Lemma length_lastn (n : nat) (v : list byte) :
  (n <= length v)%nat -> length (lastn n v) = n.
Proof. intros H. unfold lastn. rewrite length_skipn. lia. Qed.

Lemma copy_into_full (src : list byte) :
  copy_into src (repeat x00 (length src)) = src.
Proof.
  unfold copy_into. rewrite skipn_all2 by (rewrite repeat_length; lia).
  apply app_nil_r.
Qed.

Section DerivedKey.
Context {lib : liboqs}.

Lemma PQPrivKey_valid_length (k : PQPrivKey.t) (alg_name : OQS_alg_name) (sig : OQS_SIG) :
  PQPrivKey.IsValid k = true ->
  GetOQSAlgorithmName (PQPrivKey.GetAlgorithm k) = Some alg_name ->
  OQS_SIG_new alg_name = Some sig ->
  length (PQPrivKey.m_data k) = length_secret_key sig.
Proof.
  unfold PQPrivKey.IsValid, PQPrivKey.GetPrivKeySize, PQPrivKey.GetAlgorithm.
  intros Hv Hn Hs. rewrite Hn, Hs in Hv.
  destruct (Z.eqb (PQPrivKey.m_algorithm k) UNKNOWN); [discriminate|].
  apply andb_true_iff in Hv as [_ Hv]. now apply Nat.eqb_eq in Hv.
Qed.

(** C5, where the sources part from it: the public key [GetPubKey] returns
    for a valid private key is built from the trailing [length_public_key]
    bytes of the secret key and from nothing else -- the public key that
    [OQS_SIG_keypair] produced with the secret key plays no part -- so that
    a signature verifies against it only if the library accepts those
    trailing bytes as the key. *)
Theorem GetPubKey_is_secret_key_tail :
  forall (k : PQPrivKey.t) (alg_name : OQS_alg_name) (sig : OQS_SIG),
    PQPrivKey.IsValid k = true ->
    GetOQSAlgorithmName (PQPrivKey.GetAlgorithm k) = Some alg_name ->
    OQS_SIG_new alg_name = Some sig ->
    (length_public_key sig <= length_secret_key sig)%nat ->
    PQPrivKey.GetPubKey k
    = PQPubKey.make (lastn (length_public_key sig) (PQPrivKey.m_data k))
                    (PQPrivKey.GetAlgorithm k).
Proof.
  intros k alg_name sig Hv Hn Hs Hle.
  pose proof (PQPrivKey_valid_length k alg_name sig Hv Hn Hs) as Hlen.
  unfold PQPrivKey.GetPubKey. unfold PQPrivKey.GetAlgorithm in *.
  rewrite Hv, Hn, Hs. cbn [negb].
  rewrite Hlen. rewrite (proj2 (Nat.leb_le _ _) Hle).
  f_equal.
  rewrite <- (length_lastn (length_public_key sig) (PQPrivKey.m_data k)) at 2 by lia.
  apply copy_into_full.
Qed.

End DerivedKey.

Lemma GetPubKey_is_secret_key_tail_witness :
  PQPrivKey.IsValid (fst (PQPrivKey.GenerateKeyPair DILITHIUM3 sample.drawn)) = true
  /\ PQPrivKey.GetPubKey (fst (PQPrivKey.GenerateKeyPair DILITHIUM3 sample.drawn))
     = PQPubKey.make [x14; x15; x16; x17] DILITHIUM3.
Proof.
  split; [reflexivity|].
  rewrite (@GetPubKey_is_secret_key_tail mock.lib
             (fst (PQPrivKey.GenerateKeyPair DILITHIUM3 sample.drawn))
             OQS_SIG_alg_dilithium_3 (mock.scheme 4 32));
    [reflexivity | reflexivity | reflexivity | reflexivity | cbn; lia].
Defined.

(** Sign and verify, run against the stand-in provider: the signature
    verifies against the public key of the generated pair and not against
    the key derived from the private key, which is a valid key of the same
    algorithm but a different one. *)
Example sign_verify_on_generated_and_derived_key :
  let '(privkey, pubkey) := PQPrivKey.GenerateKeyPair DILITHIUM3 sample.drawn in
  let signature :=
    PQSignature.make (PQPrivKey.Sign privkey [] sample.message) DILITHIUM3 in
  PQPrivKey.IsValid privkey = true
  /\ PQPubKey.IsValid pubkey = true
  /\ PQSignature.IsValid signature = true
  /\ PQSignature.Verify signature sample.message pubkey = true
  /\ PQPubKey.IsValid (PQPrivKey.GetPubKey privkey) = true
  /\ PQPrivKey.GetPubKey privkey <> pubkey
  /\ PQSignature.Verify signature sample.message (PQPrivKey.GetPubKey privkey) = false.
Proof. vm_compute. repeat split; try reflexivity. discriminate. Qed.

(** ** Addresses made from public keys

    What [ebc_address_test] and [ebc_script_test] check on one generated
    key holds for every valid public key and any pair of hash functions. *)
Section AddressOfKey.
Context {lib : liboqs}.
Variable Hash : list byte -> uint256.
Variable RIPEMD160 : list byte -> list byte.

Lemma length_written (n : nat) (out : list byte) : length (written n out) = n.
Proof.
  unfold written. rewrite length_app, length_firstn, repeat_length. lia.
Qed.

Lemma FromPQPubKey_valid (pubkey : PQPubKey.t) :
  PQPubKey.IsValid pubkey = true ->
  let address := EBCAddress.FromPQPubKey Hash RIPEMD160 pubkey in
  EBCAddress.IsValid address = true
  /\ EBCAddress.IsP2PQPKH address = true
  /\ EBCAddress.GetAlgorithm address = PQPubKey.GetAlgorithm pubkey
  /\ EBCAddress.FromString (EBCAddress.ToString address) = address
  /\ In OP_PQCHECKSIG (EBCAddress.GetScript address).
Proof.
  intros Hv address.
  assert (Hvalid : EBCAddress.IsValid address = true).
  { unfold address, EBCAddress.FromPQPubKey, ebc_address.HashPQPubKey.
    rewrite Hv. cbn [negb]. unfold EBCAddress.IsValid.
    cbn [EBCAddress.m_algorithm EBCAddress.m_version EBCAddress.m_data].
    unfold PQPubKey.IsValid in Hv. unfold PQPubKey.GetAlgorithm.
    destruct (Z.eqb (PQPubKey.m_algorithm pubkey) UNKNOWN); [discriminate|].
    change (Byte.eqb PQ_PUBKEY PQ_PUBKEY) with true. cbv iota.
    rewrite length_written. reflexivity. }
  assert (Hver : EBCAddress.m_version address = PQ_PUBKEY).
  { unfold address, EBCAddress.FromPQPubKey. now rewrite Hv. }
  split; [exact Hvalid|]. split.
  { unfold EBCAddress.IsP2PQPKH. now rewrite Hver. }
  split.
  { unfold address, EBCAddress.FromPQPubKey. now rewrite Hv. }
  split.
  { apply FromString_ToString; [exact Hvalid|].
    apply recognized_in_width.
    unfold address, EBCAddress.FromPQPubKey. rewrite Hv. cbn [negb EBCAddress.m_algorithm].
    exact (proj1 (PQPubKey_valid_length pubkey Hv)). }
  rewrite (GetScript_PQ_PUBKEY address Hvalid Hver).
  apply in_or_app. right. apply in_or_app. right. right. now left.
Qed.

End AddressOfKey.

(* ================================================================== *)
(** * Further properties of the key classes *)

(** ** Serialized keys and signatures *)

Lemma lor_shiftl_add (x d n : Z) :
  0 <= n -> 0 <= x < 2 ^ n -> Z.lor x (Z.shiftl d n) = x + d * 2 ^ n.
Proof.
  intros Hn Hx. rewrite Z.lor_comm, shiftl_lor_add by assumption. lia.
Qed.

Lemma length_prefix_le32 (d0 b0 b1 b2 b3 : byte) (rest : list byte) :
  PQSignature.length_prefix (d0 :: b0 :: b1 :: b2 :: b3 :: rest) = le32 b0 b1 b2 b3.
Proof.
  unfold PQSignature.length_prefix, PQSignature.uint32, le32. cbn [nth].
  pose proof (byte_val_range b0). pose proof (byte_val_range b1).
  pose proof (byte_val_range b2). pose proof (byte_val_range b3).
  rewrite (lor_shiftl_add (byte_val b0) (byte_val b1) 8) by lia.
  rewrite (lor_shiftl_add _ (byte_val b2) 16) by lia.
  rewrite (lor_shiftl_add _ (byte_val b3) 24) by lia.
  apply Z.mod_small. lia.
Qed.

Lemma le32_range b0 b1 b2 b3 : 0 <= le32 b0 b1 b2 b3 < 2 ^ 32.
Proof.
  unfold le32.
  pose proof (byte_val_range b0). pose proof (byte_val_range b1).
  pose proof (byte_val_range b2). pose proof (byte_val_range b3). lia.
Qed.

Lemma land_255 (z : Z) : Z.land z 255 = z mod 256.
Proof. apply (land_low_bits z 8). lia. Qed.

(** The four bytes Serialize pushes for a length are the little-endian
    digits of that length. *)
Lemma le32_of_octets (n : Z) :
  0 <= n < 2 ^ 32 ->
  le32 (octet (Z.land n 255)) (octet (Z.land (Z.shiftr n 8) 255))
       (octet (Z.land (Z.shiftr n 16) 255)) (octet (Z.land (Z.shiftr n 24) 255)) = n.
Proof.
  intros Hn. unfold le32. rewrite !byte_val_octet, !land_255.
  rewrite !Z.shiftr_div_pow2 by lia.
  rewrite !Z.mod_mod by lia.
  change (2 ^ 8) with 256. change (2 ^ 16) with 65536. change (2 ^ 24) with 16777216.
  change (2 ^ 32) with 4294967296 in Hn.
  Z.div_mod_to_equations. lia.
Qed.

Lemma octets_of_le32 (b0 b1 b2 b3 : byte) :
  let n := le32 b0 b1 b2 b3 in
  octet (Z.land n 255) = b0
  /\ octet (Z.land (Z.shiftr n 8) 255) = b1
  /\ octet (Z.land (Z.shiftr n 16) 255) = b2
  /\ octet (Z.land (Z.shiftr n 24) 255) = b3.
Proof.
  cbv zeta. unfold le32.
  pose proof (byte_val_range b0). pose proof (byte_val_range b1).
  pose proof (byte_val_range b2). pose proof (byte_val_range b3).
  rewrite !land_255, !Z.shiftr_div_pow2 by lia.
  change (2 ^ 8) with 256. change (2 ^ 16) with 65536. change (2 ^ 24) with 16777216.
  repeat split.
  - rewrite <- (octet_byte_val b0) at 2. f_equal. Z.div_mod_to_equations. lia.
  - rewrite <- (octet_byte_val b1) at 2. f_equal. Z.div_mod_to_equations. lia.
  - rewrite <- (octet_byte_val b2) at 2. f_equal. Z.div_mod_to_equations. lia.
  - rewrite <- (octet_byte_val b3) at 2. f_equal. Z.div_mod_to_equations. lia.
Qed.

Section Serialization.
Context {lib : liboqs}.

Lemma PQPubKey_make_valid (k : PQPubKey.t) :
  PQPubKey.IsValid k = true ->
  PQPubKey.make (PQPubKey.m_data k) (PQPubKey.m_algorithm k) = k.
Proof.
  intros Hv. unfold PQPubKey.make. destruct k as [d g]. cbn [PQPubKey.m_data PQPubKey.m_algorithm].
  now rewrite Hv.
Qed.

Lemma PQSignature_make_valid (s : PQSignature.t) :
  PQSignature.IsValid s = true ->
  PQSignature.make (PQSignature.m_data s) (PQSignature.m_algorithm s) = s.
Proof.
  intros Hv. unfold PQSignature.make. destruct s as [d g].
  cbn [PQSignature.m_data PQSignature.m_algorithm]. now rewrite Hv.
Qed.

Lemma PQPubKey_valid_not_UNKNOWN (k : PQPubKey.t) :
  PQPubKey.IsValid k = true -> Z.eqb (PQPubKey.m_algorithm k) UNKNOWN = false.
Proof.
  unfold PQPubKey.IsValid. now destruct (Z.eqb (PQPubKey.m_algorithm k) UNKNOWN).
Qed.

Lemma PQSignature_valid_not_UNKNOWN (s : PQSignature.t) :
  PQSignature.IsValid s = true -> Z.eqb (PQSignature.m_algorithm s) UNKNOWN = false.
Proof.
  unfold PQSignature.IsValid. now destruct (Z.eqb (PQSignature.m_algorithm s) UNKNOWN).
Qed.

(** X1: a public key that is valid, or the default one, is read back from
    its serialization unchanged. *)
Theorem PQPubKey_Deserialize_Serialize :
  forall k : PQPubKey.t,
    PQPubKey.IsValid k = true \/ k = PQPubKey.default ->
    PQPubKey.Deserialize (PQPubKey.Serialize k) = k.
Proof.
  intros k [Hv | ->]; [|reflexivity].
  pose proof (byte_val_octet_small _
                (recognized_in_width _ (proj1 (PQPubKey_valid_length k Hv)))) as Hb.
  unfold PQPubKey.Deserialize, PQPubKey.Serialize. cbv zeta.
  rewrite Hb, (PQPubKey_valid_not_UNKNOWN k Hv).
  now apply PQPubKey_make_valid.
Qed.

Lemma recognized_not_UNKNOWN (tag : PQAlgorithm) :
  recognized tag -> Z.eqb tag UNKNOWN = false.
Proof. now intros [-> | ->]. Qed.

(** X2: the byte strings PQPubKey::Deserialize accepts are exactly a
    recognized tag followed by as many bytes as the scheme's public key has,
    and each of them is the serialization of the key it is read as. *)
Theorem PQPubKey_Deserialize_canonical :
  forall data : list byte,
    (PQPubKey.IsValid (PQPubKey.Deserialize data) = true <->
     exists (tag : byte) (key : list byte),
       data = tag :: key
       /\ recognized (byte_val tag)
       /\ (0 < length key)%nat
       /\ length key = PQPubKey.GetPubKeySize (byte_val tag))
    /\ (PQPubKey.IsValid (PQPubKey.Deserialize data) = true ->
        PQPubKey.Serialize (PQPubKey.Deserialize data) = data).
Proof.
  intros data.
  assert (Hfwd : PQPubKey.IsValid (PQPubKey.Deserialize data) = true ->
                 exists tag key,
                   data = tag :: key
                   /\ PQPubKey.Deserialize data
                      = {| PQPubKey.m_data := key; PQPubKey.m_algorithm := byte_val tag |}).
  { intros Hv. destruct data as [|tag key].
    - change (PQPubKey.Deserialize []) with PQPubKey.default in Hv.
      rewrite PQPubKey_default_invalid in Hv. discriminate Hv.
    - exists tag, key. split; [reflexivity|].
      cbn [PQPubKey.Deserialize] in *. cbv zeta in *.
      destruct (Z.eqb (byte_val tag) UNKNOWN) eqn:Et.
      + rewrite PQPubKey_default_invalid in Hv. discriminate Hv.
      + destruct (PQPubKey_make_cases key (byte_val tag)) as [[Hm _] | Hm]; [exact Hm|].
        rewrite Hm, PQPubKey_default_invalid in Hv. discriminate Hv. }
  split; [split|].
  - intros Hv. destruct (Hfwd Hv) as (tag & key & -> & Hd).
    rewrite Hd in Hv.
    destruct (PQPubKey_valid_length _ Hv) as (Hr & Hl & Hp).
    cbn [PQPubKey.m_data PQPubKey.m_algorithm] in *.
    exists tag, key. repeat split; assumption.
  - intros (tag & key & -> & Hr & Hp & Hl).
    cbn [PQPubKey.Deserialize]. cbv zeta. rewrite (recognized_not_UNKNOWN _ Hr).
    assert (Hv : PQPubKey.IsValid {| PQPubKey.m_data := key;
                                     PQPubKey.m_algorithm := byte_val tag |} = true).
    { unfold PQPubKey.IsValid. cbn [PQPubKey.m_data PQPubKey.m_algorithm].
      rewrite (recognized_not_UNKNOWN _ Hr), <- Hl.
      apply andb_true_intro. split; [apply Nat.ltb_lt; exact Hp | apply Nat.eqb_refl]. }
    unfold PQPubKey.make. rewrite Hv. exact Hv.
  - intros Hv. destruct (Hfwd Hv) as (tag & key & -> & Hd).
    rewrite Hd. unfold PQPubKey.Serialize. cbn [PQPubKey.m_data PQPubKey.m_algorithm].
    now rewrite octet_byte_val.
Qed.

Lemma Serialize_length_prefix (s : PQSignature.t) :
  Z.of_nat (length (PQSignature.m_data s)) < 2 ^ 32 ->
  PQSignature.length_prefix (PQSignature.Serialize s)
  = Z.of_nat (length (PQSignature.m_data s)).
Proof.
  intros Hlen. unfold PQSignature.Serialize. cbv zeta.
  rewrite length_prefix_le32.
  assert (Hu : PQSignature.uint32 (Z.of_nat (length (PQSignature.m_data s)))
               = Z.of_nat (length (PQSignature.m_data s))).
  { unfold PQSignature.uint32. apply Z.mod_small. lia. }
  rewrite Hu. apply le32_of_octets. lia.
Qed.

(** X3: a signature that is valid, or the default one, is read back from its
    serialization unchanged, as long as its length and the five header bytes
    fit the 32-bit length arithmetic. *)
Theorem PQSignature_Deserialize_Serialize :
  forall s : PQSignature.t,
    Z.of_nat (length (PQSignature.m_data s)) + 5 < 2 ^ 32 ->
    PQSignature.IsValid s = true \/ s = PQSignature.default ->
    PQSignature.Deserialize (PQSignature.Serialize s) = s.
Proof.
  intros s Hlen [Hv | ->]; [|reflexivity].
  pose proof (byte_val_octet_small _
                (recognized_in_width _ (proj1 (PQSignature_valid_length s Hv)))) as Hb.
  unfold PQSignature.Deserialize.
  rewrite Serialize_length_prefix by lia.
  unfold PQSignature.Serialize. cbv zeta.
  cbn [length nth skipn Nat.ltb Nat.leb].
  rewrite Hb, (PQSignature_valid_not_UNKNOWN s Hv).
  assert (Hu : PQSignature.uint32 (5 + Z.of_nat (length (PQSignature.m_data s)))
               = Z.of_nat (S (S (S (S (S (length (PQSignature.m_data s)))))))).
  { unfold PQSignature.uint32. rewrite Z.mod_small; lia. }
  rewrite Hu, Z.eqb_refl. cbn [negb].
  now apply PQSignature_make_valid.
Qed.

(** X4: the byte strings PQSignature::Deserialize accepts are exactly a
    recognized tag, the little-endian length of the signature, and the
    signature, non-empty and no longer than the scheme's bound; each of them
    is the serialization of the signature it is read as. *)
Theorem PQSignature_Deserialize_canonical :
  forall data : list byte,
    (PQSignature.IsValid (PQSignature.Deserialize data) = true <->
     exists (tag b0 b1 b2 b3 : byte) (sig : list byte),
       data = tag :: b0 :: b1 :: b2 :: b3 :: sig
       /\ recognized (byte_val tag)
       /\ le32 b0 b1 b2 b3 = Z.of_nat (length sig)
       /\ Z.of_nat (length sig) + 5 < 2 ^ 32
       /\ (0 < length sig <= PQSignature.GetSignatureSize (byte_val tag))%nat)
    /\ (PQSignature.IsValid (PQSignature.Deserialize data) = true ->
        PQSignature.Serialize (PQSignature.Deserialize data) = data).
Proof.
  intros data.
  assert (Hfwd : PQSignature.IsValid (PQSignature.Deserialize data) = true ->
                 exists tag b0 b1 b2 b3 sig,
                   data = tag :: b0 :: b1 :: b2 :: b3 :: sig
                   /\ le32 b0 b1 b2 b3 = Z.of_nat (length sig)
                   /\ Z.of_nat (length sig) + 5 < 2 ^ 32
                   /\ PQSignature.Deserialize data
                      = {| PQSignature.m_data := sig;
                           PQSignature.m_algorithm := byte_val tag |}).
  { intros Hv.
    destruct data as [|tag [|b0 [|b1 [|b2 [|b3 sig]]]]];
      try (change (PQSignature.IsValid PQSignature.default = true) in Hv;
           rewrite PQSignature_default_invalid in Hv; discriminate Hv).
    exists tag, b0, b1, b2, b3, sig. split; [reflexivity|].
    unfold PQSignature.Deserialize in *.
    rewrite length_prefix_le32 in *.
    cbn [length nth skipn Nat.ltb Nat.leb] in *.
    pose proof (le32_range b0 b1 b2 b3) as Hr.
    destruct (Z.eqb (byte_val tag) UNKNOWN) eqn:Et.
    { rewrite PQSignature_default_invalid in Hv. discriminate Hv. }
    destruct (Z.of_nat (S (S (S (S (S (length sig))))))
              =? PQSignature.uint32 (5 + le32 b0 b1 b2 b3)) eqn:El; cbn [negb] in *.
    2:{ rewrite PQSignature_default_invalid in Hv. discriminate Hv. }
    apply Z.eqb_eq in El. unfold PQSignature.uint32 in El.
    assert (Hle : le32 b0 b1 b2 b3 = Z.of_nat (length sig)
                  /\ Z.of_nat (length sig) + 5 < 2 ^ 32).
    { destruct (Z_lt_ge_dec (5 + le32 b0 b1 b2 b3) (2 ^ 32)) as [Hs | Hs].
      - rewrite Z.mod_small in El by lia. lia.
      - exfalso.
        assert (Hm : (5 + le32 b0 b1 b2 b3) mod 2 ^ 32 = 5 + le32 b0 b1 b2 b3 - 2 ^ 32).
        { symmetry. apply Z.mod_unique with (q := 1); lia. }
        lia. }
    destruct Hle as [Hle Hb]. repeat split; try assumption.
    destruct (PQSignature_make_cases sig (byte_val tag)) as [[Hm _] | Hm]; [exact Hm|].
    rewrite Hm, PQSignature_default_invalid in Hv. discriminate Hv. }
  split; [split|].
  - intros Hv. destruct (Hfwd Hv) as (tag & b0 & b1 & b2 & b3 & sig & -> & Hle & Hb & Hd).
    rewrite Hd in Hv.
    destruct (PQSignature_valid_length _ Hv) as (Hr & Hne & Hl).
    cbn [PQSignature.m_data PQSignature.m_algorithm] in *.
    exists tag, b0, b1, b2, b3, sig. repeat split; try assumption.
    destruct sig; [now contradiction Hne | cbn; lia].
  - intros (tag & b0 & b1 & b2 & b3 & sig & -> & Hr & Hle & Hb & Hp & Hl).
    unfold PQSignature.Deserialize.
    rewrite length_prefix_le32, Hle.
    cbn [length nth skipn Nat.ltb Nat.leb].
    rewrite (recognized_not_UNKNOWN _ Hr).
    assert (Hu : PQSignature.uint32 (5 + Z.of_nat (length sig))
                 = Z.of_nat (S (S (S (S (S (length sig))))))).
    { unfold PQSignature.uint32. rewrite Z.mod_small; lia. }
    rewrite Hu, Z.eqb_refl. cbn [negb].
    assert (Hv : PQSignature.IsValid
                   {| PQSignature.m_data := sig;
                      PQSignature.m_algorithm := byte_val tag |} = true).
    { unfold PQSignature.IsValid. cbn [PQSignature.m_data PQSignature.m_algorithm].
      rewrite (recognized_not_UNKNOWN _ Hr).
      destruct sig as [|x sig']; [cbn in Hp; lia|].
      apply andb_true_intro. split; [apply Nat.ltb_lt | apply Nat.leb_le]; lia. }
    unfold PQSignature.make. rewrite Hv. exact Hv.
  - intros Hv. destruct (Hfwd Hv) as (tag & b0 & b1 & b2 & b3 & sig & -> & Hle & Hb & Hd).
    rewrite Hd. unfold PQSignature.Serialize.
    cbn [PQSignature.m_data PQSignature.m_algorithm]. cbv zeta.
    assert (Hu : PQSignature.uint32 (Z.of_nat (length sig)) = le32 b0 b1 b2 b3).
    { unfold PQSignature.uint32. rewrite Z.mod_small; lia. }
    rewrite Hu.
    destruct (octets_of_le32 b0 b1 b2 b3) as (E0 & E1 & E2 & E3).
    cbv zeta in E0, E1, E2, E3. rewrite E0, E1, E2, E3, octet_byte_val. reflexivity.
Qed.

End Serialization.

(** ** Key operations *)

Lemma written_exact (n : nat) (out : list byte) :
  length out = n -> written n out = out.
Proof.
  intros <-. unfold written. rewrite firstn_all, Nat.sub_diag. apply app_nil_r.
Qed.

Lemma resize_written (n : nat) (out : list byte) :
  (length out <= n)%nat -> resize (length out) (written n out) = out.
Proof.
  intros Hle. unfold resize, written.
  rewrite (firstn_all2 out) by exact Hle.
  rewrite firstn_app, firstn_all, Nat.sub_diag. cbn [firstn].
  rewrite !length_app, repeat_length.
  replace (length out - (length out + (n - length out)))%nat with 0%nat by lia.
  cbn [repeat]. now rewrite !app_nil_r.
Qed.

Lemma GetOQSAlgorithmName_Some (algo : PQAlgorithm) (alg_name : OQS_alg_name) :
  GetOQSAlgorithmName algo = Some alg_name ->
  recognized algo /\ Z.eqb algo UNKNOWN = false.
Proof.
  intros H.
  assert (Hr : recognized algo).
  { apply GetOQSAlgorithmName_recognized. congruence. }
  split; [exact Hr | now apply recognized_not_UNKNOWN].
Qed.

Section KeyOperations.
Context {lib : liboqs}.

Lemma sizes_of_scheme (algo : PQAlgorithm) (alg_name : OQS_alg_name) (sig : OQS_SIG) :
  GetOQSAlgorithmName algo = Some alg_name ->
  OQS_SIG_new alg_name = Some sig ->
  PQPubKey.GetPubKeySize algo = length_public_key sig
  /\ PQPrivKey.GetPrivKeySize algo = length_secret_key sig
  /\ PQSignature.GetSignatureSize algo = length_signature sig.
Proof.
  intros Hn Hs.
  unfold PQPubKey.GetPubKeySize, PQPrivKey.GetPrivKeySize, PQSignature.GetSignatureSize.
  now rewrite Hn, Hs.
Qed.

Lemma PQPubKey_IsValid_intro (data : list byte) (algo : PQAlgorithm)
  (alg_name : OQS_alg_name) (sig : OQS_SIG) :
  GetOQSAlgorithmName algo = Some alg_name ->
  OQS_SIG_new alg_name = Some sig ->
  length data = length_public_key sig ->
  (0 < length data)%nat ->
  PQPubKey.IsValid {| PQPubKey.m_data := data; PQPubKey.m_algorithm := algo |} = true.
Proof.
  intros Hn Hs Hl Hp. unfold PQPubKey.IsValid. cbn [PQPubKey.m_data PQPubKey.m_algorithm].
  rewrite (proj2 (GetOQSAlgorithmName_Some _ _ Hn)).
  rewrite (proj1 (sizes_of_scheme _ _ _ Hn Hs)), <- Hl.
  apply andb_true_intro. split; [now apply Nat.ltb_lt | apply Nat.eqb_refl].
Qed.

Lemma PQPrivKey_IsValid_intro (data : list byte) (algo : PQAlgorithm) (ctx : option OQS_SIG)
  (alg_name : OQS_alg_name) (sig : OQS_SIG) :
  GetOQSAlgorithmName algo = Some alg_name ->
  OQS_SIG_new alg_name = Some sig ->
  length data = length_secret_key sig ->
  (0 < length data)%nat ->
  PQPrivKey.IsValid {| PQPrivKey.m_data := data; PQPrivKey.m_algorithm := algo;
                       PQPrivKey.m_sig_ctx := ctx |} = true.
Proof.
  intros Hn Hs Hl Hp. unfold PQPrivKey.IsValid. cbn [PQPrivKey.m_data PQPrivKey.m_algorithm].
  rewrite (proj2 (GetOQSAlgorithmName_Some _ _ Hn)).
  rewrite (proj1 (proj2 (sizes_of_scheme _ _ _ Hn Hs))), <- Hl.
  apply andb_true_intro. split; [now apply Nat.ltb_lt | apply Nat.eqb_refl].
Qed.

Lemma PQSignature_IsValid_intro (data : list byte) (algo : PQAlgorithm)
  (alg_name : OQS_alg_name) (sig : OQS_SIG) :
  GetOQSAlgorithmName algo = Some alg_name ->
  OQS_SIG_new alg_name = Some sig ->
  (0 < length data <= length_signature sig)%nat ->
  PQSignature.IsValid {| PQSignature.m_data := data; PQSignature.m_algorithm := algo |} = true.
Proof.
  intros Hn Hs Hl. unfold PQSignature.IsValid.
  cbn [PQSignature.m_data PQSignature.m_algorithm].
  rewrite (proj2 (GetOQSAlgorithmName_Some _ _ Hn)).
  rewrite (proj2 (proj2 (sizes_of_scheme _ _ _ Hn Hs))).
  destruct data as [|x data']; [cbn in Hl; lia|].
  apply andb_true_intro. split; [apply Nat.ltb_lt | apply Nat.leb_le]; lia.
Qed.

Lemma PQPrivKey_valid_facts (k : PQPrivKey.t) :
  PQPrivKey.IsValid k = true ->
  exists alg_name,
    GetOQSAlgorithmName (PQPrivKey.m_algorithm k) = Some alg_name
    /\ exists sig,
         OQS_SIG_new alg_name = Some sig
         /\ length (PQPrivKey.m_data k) = length_secret_key sig
         /\ (0 < length (PQPrivKey.m_data k))%nat.
Proof.
  unfold PQPrivKey.IsValid, PQPrivKey.GetPrivKeySize.
  destruct (Z.eqb (PQPrivKey.m_algorithm k) UNKNOWN); [discriminate|].
  destruct (GetOQSAlgorithmName (PQPrivKey.m_algorithm k)) as [alg_name|] eqn:Hn; [|discriminate].
  destruct (OQS_SIG_new alg_name) as [sig|] eqn:Hs; [|discriminate].
  intros H. apply andb_prop in H. destruct H as [Hp Hl].
  apply Nat.ltb_lt in Hp. apply Nat.eqb_eq in Hl.
  exists alg_name. split; [reflexivity|]. exists sig.
  split; [exact Hs|]. split; [exact Hl | lia].
Qed.

Lemma PQPubKey_valid_facts (k : PQPubKey.t) :
  PQPubKey.IsValid k = true ->
  exists alg_name,
    GetOQSAlgorithmName (PQPubKey.m_algorithm k) = Some alg_name
    /\ exists sig,
         OQS_SIG_new alg_name = Some sig
         /\ length (PQPubKey.m_data k) = length_public_key sig
         /\ (0 < length (PQPubKey.m_data k))%nat.
Proof.
  unfold PQPubKey.IsValid, PQPubKey.GetPubKeySize.
  destruct (Z.eqb (PQPubKey.m_algorithm k) UNKNOWN); [discriminate|].
  destruct (GetOQSAlgorithmName (PQPubKey.m_algorithm k)) as [alg_name|] eqn:Hn; [|discriminate].
  destruct (OQS_SIG_new alg_name) as [sig|] eqn:Hs; [|discriminate].
  intros H. apply andb_prop in H. destruct H as [Hp Hl].
  apply Nat.ltb_lt in Hp. apply Nat.eqb_eq in Hl.
  exists alg_name. split; [reflexivity|]. exists sig.
  split; [exact Hs|]. split; [exact Hl | lia].
Qed.

(** X5: Verify answers [true] exactly when the signature and the key carry
    the same recognized algorithm, the key has the scheme's public-key
    length, the signature is non-empty and within the scheme's bound, and
    the library accepts these very bytes. *)
Theorem Verify_true_iff :
  forall (s : PQSignature.t) (hash : list byte) (pubkey : PQPubKey.t),
    PQSignature.Verify s hash pubkey = true <->
    exists (alg_name : OQS_alg_name) (sig : OQS_SIG),
      GetOQSAlgorithmName (PQSignature.GetAlgorithm s) = Some alg_name
      /\ OQS_SIG_new alg_name = Some sig
      /\ PQPubKey.GetAlgorithm pubkey = PQSignature.GetAlgorithm s
      /\ length (PQPubKey.GetData pubkey) = length_public_key sig
      /\ (0 < length (PQPubKey.GetData pubkey))%nat
      /\ (0 < length (PQSignature.GetData s) <= length_signature sig)%nat
      /\ OQS_SIG_verify sig hash (PQSignature.GetData s) (PQPubKey.GetData pubkey)
         = OQS_SUCCESS.
Proof.
  intros s hash pubkey.
  unfold PQSignature.GetAlgorithm, PQSignature.GetData, PQPubKey.GetAlgorithm, PQPubKey.GetData.
  split.
  - unfold PQSignature.Verify.
    destruct (PQSignature.IsValid s) eqn:Hs; [|discriminate].
    destruct (PQPubKey.IsValid pubkey) eqn:Hk; [|discriminate].
    cbn [negb orb].
    unfold PQPubKey.GetAlgorithm, PQPubKey.GetData.
    destruct (Z.eqb (PQSignature.m_algorithm s) (PQPubKey.m_algorithm pubkey)) eqn:Ea;
      [|discriminate].
    cbn [negb]. apply tag_eqb_eq in Ea.
    destruct (GetOQSAlgorithmName (PQSignature.m_algorithm s)) as [alg_name|] eqn:Hn;
      [|discriminate].
    destruct (OQS_SIG_new alg_name) as [sig|] eqn:Hsig; [|discriminate].
    intros Hst.
    destruct (PQPubKey_valid_facts pubkey Hk) as (n' & Hn' & sig' & Hsig' & Hl & Hp).
    rewrite <- Ea, Hn in Hn'. injection Hn' as <-. rewrite Hsig in Hsig'. injection Hsig' as <-.
    destruct (PQSignature_valid_length s Hs) as (_ & Hne & Hle).
    rewrite (proj2 (proj2 (sizes_of_scheme _ _ _ Hn Hsig))) in Hle.
    exists alg_name, sig. repeat split; try assumption; try congruence.
    + destruct (PQSignature.m_data s); [now contradiction Hne | cbn; lia].
    + destruct (OQS_SIG_verify sig hash (PQSignature.m_data s) (PQPubKey.m_data pubkey));
        [reflexivity | discriminate Hst].
  - intros (alg_name & sig & Hn & Hsig & Ha & Hl & Hp & Hle & Hst).
    assert (Hs : PQSignature.IsValid s = true).
    { destruct s as [d g]. now apply (PQSignature_IsValid_intro d g alg_name sig). }
    assert (Hk : PQPubKey.IsValid pubkey = true).
    { destruct pubkey as [d g]. cbn [PQPubKey.m_algorithm PQPubKey.m_data] in *. subst g.
      now apply (PQPubKey_IsValid_intro d _ alg_name sig). }
    unfold PQSignature.Verify. rewrite Hs, Hk. cbn [negb orb].
    unfold PQPubKey.GetAlgorithm, PQPubKey.GetData.
    rewrite Ha, tag_eqb_refl. cbn [negb]. rewrite Hn, Hsig, Hst. reflexivity.
Qed.

(** X6: GenerateKeyPair fails closed: for an algorithm that is not
    recognized, that the library does not provide, or whose key generation
    reports an error, both returned objects are the default ones. *)
Theorem GenerateKeyPair_fail_closed :
  forall (algo : PQAlgorithm) (rnd : entropy),
    GetOQSAlgorithmName algo = None
    \/ (exists alg_name, GetOQSAlgorithmName algo = Some alg_name
                         /\ OQS_SIG_new alg_name = None)
    \/ (exists alg_name sig, GetOQSAlgorithmName algo = Some alg_name
                             /\ OQS_SIG_new alg_name = Some sig
                             /\ fst (OQS_SIG_keypair sig rnd) <> OQS_SUCCESS) ->
    PQPrivKey.GenerateKeyPair algo rnd = (PQPrivKey.default, PQPubKey.default)
    /\ PQPrivKey.IsValid (fst (PQPrivKey.GenerateKeyPair algo rnd)) = false
    /\ PQPubKey.IsValid (snd (PQPrivKey.GenerateKeyPair algo rnd)) = false.
Proof.
  intros algo rnd H.
  assert (Hd : PQPrivKey.GenerateKeyPair algo rnd = (PQPrivKey.default, PQPubKey.default)).
  { unfold PQPrivKey.GenerateKeyPair.
    destruct H as [Hn | [(alg_name & Hn & Hs) | (alg_name & sig & Hn & Hs & Hst)]].
    - now rewrite Hn.
    - now rewrite Hn, Hs.
    - rewrite Hn, Hs.
      destruct (OQS_SIG_keypair sig rnd) as [status [pk sk]]. cbn [fst] in Hst.
      destruct status; [now contradiction Hst | reflexivity]. }
  rewrite Hd. cbn [fst snd].
  split; [reflexivity|].
  split; [apply PQPrivKey_default_invalid | apply PQPubKey_default_invalid].
Qed.

Lemma GenerateKeyPair_filled (algo : PQAlgorithm) (rnd : entropy)
  (alg_name : OQS_alg_name) (sig : OQS_SIG) (pk sk : list byte) :
  GetOQSAlgorithmName algo = Some alg_name ->
  OQS_SIG_new alg_name = Some sig ->
  OQS_SIG_keypair sig rnd = (OQS_SUCCESS, (pk, sk)) ->
  length pk = length_public_key sig -> (0 < length pk)%nat ->
  length sk = length_secret_key sig -> (0 < length sk)%nat ->
  PQPrivKey.GenerateKeyPair algo rnd
  = ({| PQPrivKey.m_data := sk; PQPrivKey.m_algorithm := algo;
        PQPrivKey.m_sig_ctx := None |},
     {| PQPubKey.m_data := pk; PQPubKey.m_algorithm := algo |}).
Proof.
  intros Hn Hs Hk Hlp Hpp Hls Hps.
  pose proof (PQPrivKey_IsValid_intro sk algo None alg_name sig Hn Hs Hls Hps) as Hvs.
  pose proof (PQPubKey_IsValid_intro pk algo alg_name sig Hn Hs Hlp Hpp) as Hvp.
  unfold PQPrivKey.GenerateKeyPair. rewrite Hn, Hs, Hk. cbn [OQS_STATUS_eqb negb].
  rewrite (written_exact _ pk) by exact Hlp.
  rewrite (written_exact _ sk) by exact Hls.
  unfold PQPrivKey.make, PQPubKey.make. now rewrite Hvs, Hvp.
Qed.

(** X7: when the library generates a key pair and fills both buffers,
    GenerateKeyPair returns a valid private key and a valid public key that
    hold exactly the generated bytes under the requested algorithm. *)
Theorem GenerateKeyPair_success :
  forall (algo : PQAlgorithm) (rnd : entropy)
         (alg_name : OQS_alg_name) (sig : OQS_SIG) (pk sk : list byte),
    GetOQSAlgorithmName algo = Some alg_name ->
    OQS_SIG_new alg_name = Some sig ->
    OQS_SIG_keypair sig rnd = (OQS_SUCCESS, (pk, sk)) ->
    length pk = length_public_key sig -> (0 < length pk)%nat ->
    length sk = length_secret_key sig -> (0 < length sk)%nat ->
    let privkey := fst (PQPrivKey.GenerateKeyPair algo rnd) in
    let pubkey := snd (PQPrivKey.GenerateKeyPair algo rnd) in
    PQPrivKey.IsValid privkey = true
    /\ PQPubKey.IsValid pubkey = true
    /\ PQPrivKey.GetAlgorithm privkey = algo
    /\ PQPubKey.GetAlgorithm pubkey = algo
    /\ PQPrivKey.m_data privkey = sk
    /\ PQPubKey.GetData pubkey = pk.
Proof.
  intros algo rnd alg_name sig pk sk Hn Hs Hk Hlp Hpp Hls Hps.
  rewrite (GenerateKeyPair_filled algo rnd alg_name sig pk sk Hn Hs Hk Hlp Hpp Hls Hps).
  cbn [fst snd]. cbv zeta.
  pose proof (PQPrivKey_IsValid_intro sk algo None alg_name sig Hn Hs Hls Hps) as Hvs.
  pose proof (PQPubKey_IsValid_intro pk algo alg_name sig Hn Hs Hlp Hpp) as Hvp.
  repeat split; assumption.
Qed.

(** X8: signing with a generated private key and verifying against the
    public key generated with it gives what the library's verification says
    of the bytes the library's signing wrote: the wrappers add nothing and
    lose nothing on the way. *)
Theorem Sign_then_Verify :
  forall (algo : PQAlgorithm) (rnd rnd' : entropy) (hash : list byte)
         (alg_name : OQS_alg_name) (sig : OQS_SIG) (pk sk out : list byte),
    GetOQSAlgorithmName algo = Some alg_name ->
    OQS_SIG_new alg_name = Some sig ->
    OQS_SIG_keypair sig rnd = (OQS_SUCCESS, (pk, sk)) ->
    length pk = length_public_key sig -> (0 < length pk)%nat ->
    length sk = length_secret_key sig -> (0 < length sk)%nat ->
    OQS_SIG_sign sig rnd' hash sk = (OQS_SUCCESS, out) ->
    (0 < length out <= length_signature sig)%nat ->
    let privkey := fst (PQPrivKey.GenerateKeyPair algo rnd) in
    let pubkey := snd (PQPrivKey.GenerateKeyPair algo rnd) in
    let signature := PQSignature.make (PQPrivKey.Sign privkey rnd' hash) algo in
    PQPrivKey.Sign privkey rnd' hash = out
    /\ PQSignature.IsValid signature = true
    /\ PQSignature.GetData signature = out
    /\ forall hash' : list byte,
         PQSignature.Verify signature hash' pubkey
         = OQS_STATUS_eqb (OQS_SIG_verify sig hash' out pk) OQS_SUCCESS.
Proof.
  intros algo rnd rnd' hash alg_name sig pk sk out Hn Hs Hk Hlp Hpp Hls Hps Hsign Hlo.
  rewrite (GenerateKeyPair_filled algo rnd alg_name sig pk sk Hn Hs Hk Hlp Hpp Hls Hps).
  cbn [fst snd]. cbv zeta.
  pose proof (PQPrivKey_IsValid_intro sk algo None alg_name sig Hn Hs Hls Hps) as Hvs.
  pose proof (PQPubKey_IsValid_intro pk algo alg_name sig Hn Hs Hlp Hpp) as Hvp.
  assert (Hsg : PQPrivKey.Sign {| PQPrivKey.m_data := sk; PQPrivKey.m_algorithm := algo;
                                  PQPrivKey.m_sig_ctx := None |} rnd' hash = out).
  { unfold PQPrivKey.Sign. rewrite Hvs. cbn [negb PQPrivKey.m_algorithm PQPrivKey.m_data].
    rewrite Hn, Hs, Hsign. cbn [OQS_STATUS_eqb negb].
    apply resize_written. lia. }
  rewrite Hsg.
  pose proof (PQSignature_IsValid_intro out algo alg_name sig Hn Hs Hlo) as Hvo.
  assert (Hm : PQSignature.make out algo
               = {| PQSignature.m_data := out; PQSignature.m_algorithm := algo |}).
  { unfold PQSignature.make. now rewrite Hvo. }
  rewrite Hm. repeat split; try assumption.
  intros hash'. unfold PQSignature.Verify. rewrite Hvo, Hvp. cbn [negb orb].
  cbn [PQSignature.m_algorithm PQSignature.m_data PQPubKey.GetAlgorithm PQPubKey.GetData
       PQPubKey.m_algorithm PQPubKey.m_data].
  rewrite tag_eqb_refl. cbn [negb]. now rewrite Hn, Hs.
Qed.

End KeyOperations.

Section PrivateKeys.
Context {lib : liboqs}.

Lemma GetPubKey_invalid (k : PQPrivKey.t) :
  PQPrivKey.IsValid k = false -> PQPrivKey.GetPubKey k = PQPubKey.default.
Proof. intros Hv. unfold PQPrivKey.GetPubKey. now rewrite Hv. Qed.

Lemma PQPrivKey_make_cases (data : list byte) (algo : PQAlgorithm) :
  (PQPrivKey.make data algo
   = {| PQPrivKey.m_data := data; PQPrivKey.m_algorithm := algo;
        PQPrivKey.m_sig_ctx := None |}
   /\ PQPrivKey.IsValid (PQPrivKey.make data algo) = true)
  \/ (PQPrivKey.make data algo
      = PQPrivKey.Clear {| PQPrivKey.m_data := data; PQPrivKey.m_algorithm := algo;
                           PQPrivKey.m_sig_ctx := None |}).
Proof.
  unfold PQPrivKey.make.
  destruct (PQPrivKey.IsValid {| PQPrivKey.m_data := data; PQPrivKey.m_algorithm := algo;
                                 PQPrivKey.m_sig_ctx := None |}) eqn:Hv; cbn [negb].
  - left. split; [reflexivity | exact Hv].
  - right. reflexivity.
Qed.

Lemma PQPrivKey_outcome_of_make (data : list byte) (algo : PQAlgorithm) :
  (PQPrivKey.IsValid (PQPrivKey.make data algo) = true
   /\ recognized (PQPrivKey.GetAlgorithm (PQPrivKey.make data algo))
   /\ length (PQPrivKey.m_data (PQPrivKey.make data algo))
      = PQPrivKey.GetPrivKeySize (PQPrivKey.GetAlgorithm (PQPrivKey.make data algo))
   /\ (0 < length (PQPrivKey.m_data (PQPrivKey.make data algo)))%nat)
  \/ (PQPrivKey_holds_nothing (PQPrivKey.make data algo)
      /\ PQPrivKey.GetPubKey (PQPrivKey.make data algo) = PQPubKey.default).
Proof.
  destruct (PQPrivKey_make_cases data algo) as [[Hm Hv] | Hm].
  - left. split; [exact Hv|].
    destruct (PQPrivKey_valid_facts _ Hv) as (alg_name & Hn & sig & Hs & Hl & Hp).
    unfold PQPrivKey.GetAlgorithm.
    split; [exact (proj1 (GetOQSAlgorithmName_Some _ _ Hn))|].
    split; [|exact Hp].
    rewrite (proj1 (proj2 (sizes_of_scheme _ _ _ Hn Hs))). exact Hl.
  - right. rewrite Hm.
    pose proof (Clear_holds_nothing
                  {| PQPrivKey.m_data := data; PQPrivKey.m_algorithm := algo;
                     PQPrivKey.m_sig_ctx := None |}) as Hc.
    split; [exact Hc|]. apply GetPubKey_invalid. apply Hc.
Qed.

Lemma default_holds_nothing : PQPrivKey_holds_nothing PQPrivKey.default.
Proof. now apply PQPrivKey_unknown_holds_nothing. Qed.

(** X9: a private key made by the constructor or returned by
    GenerateKeyPair is either valid -- a recognized algorithm and exactly
    the scheme's secret-key length, which is not zero -- or holds nothing:
    no bytes, algorithm UNKNOWN, empty signatures and the default public
    key. *)
Theorem PQPrivKey_valid_or_holds_nothing :
  forall k : PQPrivKey.t,
    (exists data algo, k = PQPrivKey.make data algo)
    \/ (exists algo rnd, k = fst (PQPrivKey.GenerateKeyPair algo rnd)) ->
    (PQPrivKey.IsValid k = true
     /\ recognized (PQPrivKey.GetAlgorithm k)
     /\ length (PQPrivKey.m_data k) = PQPrivKey.GetPrivKeySize (PQPrivKey.GetAlgorithm k)
     /\ (0 < length (PQPrivKey.m_data k))%nat)
    \/ (PQPrivKey_holds_nothing k /\ PQPrivKey.GetPubKey k = PQPubKey.default).
Proof.
  intros k [(data & algo & ->) | (algo & rnd & ->)].
  - apply PQPrivKey_outcome_of_make.
  - assert (Hd : PQPrivKey_holds_nothing PQPrivKey.default
                 /\ PQPrivKey.GetPubKey PQPrivKey.default = PQPubKey.default).
    { split; [apply default_holds_nothing|].
      apply GetPubKey_invalid, PQPrivKey_default_invalid. }
    unfold PQPrivKey.GenerateKeyPair.
    destruct (GetOQSAlgorithmName algo) as [alg_name|]; [|right; exact Hd].
    destruct (OQS_SIG_new alg_name) as [sig|]; [|right; exact Hd].
    destruct (OQS_SIG_keypair sig rnd) as [status [pk sk]].
    destruct status; cbn [OQS_STATUS_eqb negb fst]; [|right; exact Hd].
    apply PQPrivKey_outcome_of_make.
Qed.

(** X10: the public key GetPubKey returns is valid exactly when the private
    key is valid and the scheme's public-key length is not zero; it then
    carries the private key's algorithm, and otherwise it is the default
    key. *)
Theorem GetPubKey_valid_iff :
  forall k : PQPrivKey.t,
    (PQPubKey.IsValid (PQPrivKey.GetPubKey k) = true <->
     PQPrivKey.IsValid k = true
     /\ (0 < PQPubKey.GetPubKeySize (PQPrivKey.GetAlgorithm k))%nat)
    /\ (PQPubKey.IsValid (PQPrivKey.GetPubKey k) = true ->
        PQPubKey.GetAlgorithm (PQPrivKey.GetPubKey k) = PQPrivKey.GetAlgorithm k
        /\ length (PQPubKey.GetData (PQPrivKey.GetPubKey k))
           = PQPubKey.GetPubKeySize (PQPrivKey.GetAlgorithm k))
    /\ (PQPubKey.IsValid (PQPrivKey.GetPubKey k) = false ->
        PQPrivKey.GetPubKey k = PQPubKey.default).
Proof.
  intros k. unfold PQPrivKey.GetAlgorithm, PQPubKey.GetAlgorithm, PQPubKey.GetData.
  destruct (PQPrivKey.IsValid k) eqn:Hv.
  2:{ rewrite (GetPubKey_invalid k Hv), PQPubKey_default_invalid.
      repeat split; try discriminate; intros [? _]; discriminate. }
  destruct (PQPrivKey_valid_facts k Hv) as (alg_name & Hn & sig & Hs & Hl & Hp).
  destruct (sizes_of_scheme _ _ _ Hn Hs) as (Hpk & _ & _).
  set (pubkey_data :=
         if (length_public_key sig <=? length (PQPrivKey.m_data k))%nat
         then copy_into (lastn (length_public_key sig) (PQPrivKey.m_data k))
                        (repeat x00 (length_public_key sig))
         else repeat x00 (length_public_key sig)).
  assert (Hg : PQPrivKey.GetPubKey k = PQPubKey.make pubkey_data (PQPrivKey.m_algorithm k)).
  { unfold PQPrivKey.GetPubKey. now rewrite Hv, Hn, Hs. }
  assert (Hlen : length pubkey_data = length_public_key sig).
  { unfold pubkey_data.
    destruct (length_public_key sig <=? length (PQPrivKey.m_data k))%nat eqn:Hle.
    - apply Nat.leb_le in Hle. unfold copy_into.
      rewrite length_app, length_skipn, repeat_length, length_lastn by exact Hle. lia.
    - apply repeat_length. }
  rewrite Hg, Hpk.
  destruct (PQPubKey_make_cases pubkey_data (PQPrivKey.m_algorithm k)) as [[Hm Hmv] | Hm].
  - rewrite Hm in Hmv |- *. rewrite Hmv. cbn [PQPubKey.m_algorithm PQPubKey.m_data].
    destruct (PQPubKey_valid_length _ Hmv) as (_ & Hl' & Hp').
    cbn [PQPubKey.m_algorithm PQPubKey.m_data] in Hl', Hp'.
    repeat split; try discriminate; try assumption; lia.
  - rewrite Hm, PQPubKey_default_invalid.
    repeat split; try discriminate.
    intros [_ Hpos]. exfalso.
    assert (Hvp : PQPubKey.IsValid {| PQPubKey.m_data := pubkey_data;
                                      PQPubKey.m_algorithm := PQPrivKey.m_algorithm k |} = true).
    { apply (PQPubKey_IsValid_intro _ _ alg_name sig); try assumption. lia. }
    unfold PQPubKey.make in Hm. rewrite Hvp in Hm. cbn [negb] in Hm.
    injection Hm as Hd _. rewrite Hd in Hlen. cbn [length] in Hlen. lia.
Qed.

End PrivateKeys.

(** X11: moving a private key hands over exactly what the source held --
    bytes, algorithm and signing context -- to the destination, and leaves
    every third object as it was. *)
Theorem move_transfers_key :
  forall (m : PQPrivKey.store) (this other : PQPrivKey.addr),
    this <> other ->
    PQPrivKey.move_assign m this other this = m other
    /\ PQPrivKey.move_construct m this other this = m other
    /\ forall a : PQPrivKey.addr,
         a <> this -> a <> other ->
         PQPrivKey.move_assign m this other a = m a
         /\ PQPrivKey.move_construct m this other a = m a.
Proof.
  intros m this other Hne.
  assert (Hto : Nat.eqb this other = false) by now apply Nat.eqb_neq.
  assert (Hot : Nat.eqb other this = false) by (apply Nat.eqb_neq; congruence).
  unfold PQPrivKey.move_assign, PQPrivKey.move_construct. rewrite Hto. cbn [negb].
  unfold PQPrivKey.set_algorithm, PQPrivKey.set_sig_ctx, PQPrivKey.set_data, PQPrivKey.put.
  split; [|split].
  - rewrite ?Nat.eqb_refl, ?Hto, ?Hot.
    cbn [PQPrivKey.m_data PQPrivKey.m_algorithm PQPrivKey.m_sig_ctx].
    rewrite ?Nat.eqb_refl, ?Hto, ?Hot. now destruct (m other).
  - rewrite ?Nat.eqb_refl, ?Hto, ?Hot.
    cbn [PQPrivKey.m_data PQPrivKey.m_algorithm PQPrivKey.m_sig_ctx].
    rewrite ?Nat.eqb_refl, ?Hto, ?Hot. now destruct (m other).
  - intros a Hat Hao.
    assert (Ha1 : Nat.eqb a this = false) by now apply Nat.eqb_neq.
    assert (Ha2 : Nat.eqb a other = false) by now apply Nat.eqb_neq.
    now rewrite ?Ha1, ?Ha2.
Qed.

(** ** namespace util *)

(** X12: AlgorithmToString and StringToAlgorithm are inverse to each other
    on the three enumerators and their three names; every other tag is
    named "Unknown" and every other string is read as UNKNOWN. *)
Theorem StringToAlgorithm_AlgorithmToString :
  (forall algo : PQAlgorithm,
      util.StringToAlgorithm (util.AlgorithmToString algo)
      = match GetOQSAlgorithmName algo with Some _ => algo | None => UNKNOWN end)
  /\ (forall str : string,
        util.AlgorithmToString (util.StringToAlgorithm str) = str
        <-> str = "Dilithium3"%string \/ str = "Falcon512"%string \/ str = "Unknown"%string)
  /\ (forall str : string,
        recognized (util.StringToAlgorithm str)
        \/ util.StringToAlgorithm str = UNKNOWN).
Proof.
  split; [|split].
  - intros algo. unfold util.AlgorithmToString, GetOQSAlgorithmName.
    destruct (Z.eqb algo DILITHIUM3) eqn:E1.
    { apply tag_eqb_eq in E1. now subst algo. }
    destruct (Z.eqb algo FALCON512) eqn:E2.
    { apply tag_eqb_eq in E2. now subst algo. }
    reflexivity.
  - intros str. unfold util.StringToAlgorithm.
    destruct (String.eqb str "Dilithium3") eqn:E1.
    { apply String.eqb_eq in E1. subst str. split; [now left | reflexivity]. }
    destruct (String.eqb str "Falcon512") eqn:E2.
    { apply String.eqb_eq in E2. subst str. split; [now right; left | reflexivity]. }
    change (util.AlgorithmToString UNKNOWN) with "Unknown"%string.
    split.
    + intros <-. now right; right.
    + intros [-> | [-> | ->]].
      * rewrite String.eqb_refl in E1. discriminate E1.
      * rewrite String.eqb_refl in E2. discriminate E2.
      * reflexivity.
  - intros str. unfold util.StringToAlgorithm, recognized.
    destruct (String.eqb str "Dilithium3"); [now left; left|].
    destruct (String.eqb str "Falcon512"); [now left; right | now right].
Qed.

(** X13: GetSupportedAlgorithms lists exactly the algorithms that
    IsAlgorithmSupported accepts, each of them once and each of them a
    recognized one; the list is empty exactly when the library enables
    neither scheme. *)
Theorem GetSupportedAlgorithms_spec :
  forall (OQS_SIG_alg_is_enabled : OQS_alg_name -> bool),
    (forall algo : PQAlgorithm,
        In algo (util.GetSupportedAlgorithms OQS_SIG_alg_is_enabled)
        <-> util.IsAlgorithmSupported OQS_SIG_alg_is_enabled algo = true)
    /\ NoDup (util.GetSupportedAlgorithms OQS_SIG_alg_is_enabled)
    /\ Forall recognized (util.GetSupportedAlgorithms OQS_SIG_alg_is_enabled)
    /\ (util.GetSupportedAlgorithms OQS_SIG_alg_is_enabled = []
        <-> OQS_SIG_alg_is_enabled OQS_SIG_alg_dilithium_3 = false
            /\ OQS_SIG_alg_is_enabled OQS_SIG_alg_falcon_512 = false).
Proof.
  intros en.
  assert (Hd : util.IsAlgorithmSupported en DILITHIUM3 = en OQS_SIG_alg_dilithium_3)
    by reflexivity.
  assert (Hf : util.IsAlgorithmSupported en FALCON512 = en OQS_SIG_alg_falcon_512)
    by reflexivity.
  assert (Hcases : forall algo,
             util.IsAlgorithmSupported en algo = true ->
             (algo = DILITHIUM3 /\ en OQS_SIG_alg_dilithium_3 = true)
             \/ (algo = FALCON512 /\ en OQS_SIG_alg_falcon_512 = true)).
  { intros algo. unfold util.IsAlgorithmSupported, GetOQSAlgorithmName.
    destruct (Z.eqb algo DILITHIUM3) eqn:E1.
    { apply tag_eqb_eq in E1. now left. }
    destruct (Z.eqb algo FALCON512) eqn:E2.
    { apply tag_eqb_eq in E2. now right. }
    discriminate. }
  unfold util.GetSupportedAlgorithms. cbv zeta. rewrite Hd, Hf.
  split; [|split; [|split]].
  - intros algo. split.
    + destruct (en OQS_SIG_alg_dilithium_3) eqn:Ed, (en OQS_SIG_alg_falcon_512) eqn:Ef;
        cbn [app In]; intros H;
        unfold util.IsAlgorithmSupported;
        repeat (destruct H as [<- | H]; [cbn; assumption|]); contradiction.
    + intros H. destruct (Hcases algo H) as [[-> E] | [-> E]]; rewrite E.
      * destruct (en OQS_SIG_alg_falcon_512); cbn [app In]; auto.
      * destruct (en OQS_SIG_alg_dilithium_3); cbn [app In]; auto.
  - assert (Hne : ~ In DILITHIUM3 [FALCON512]).
    { intros [H | []]. discriminate H. }
    destruct (en OQS_SIG_alg_dilithium_3), (en OQS_SIG_alg_falcon_512); cbn [app];
      repeat (constructor; try assumption); intros [].
  - destruct (en OQS_SIG_alg_dilithium_3), (en OQS_SIG_alg_falcon_512); cbn [app];
      repeat (apply Forall_cons || apply Forall_nil); unfold recognized; auto.
  - destruct (en OQS_SIG_alg_dilithium_3), (en OQS_SIG_alg_falcon_512); cbn [app];
      split; try (intros H; discriminate H); try (intros [H1 H2]; discriminate);
      auto.
Qed.

Lemma length_resize (n : nat) (v : list byte) : length (resize n v) = n.
Proof.
  unfold resize. rewrite length_app, length_firstn, repeat_length. lia.
Qed.

Section Signing.
Context {lib : liboqs}.

(** X14: Sign of an invalid key is the empty vector.  For a valid key the
    library's signing is called with a secret key of exactly the scheme's
    length; when it reports an error the result is the empty vector, and
    when it reports success the result has the length the library reported
    and, when that length respects the scheme's bound, exactly the bytes the
    library wrote. *)
Theorem Sign_outcome :
  forall (k : PQPrivKey.t) (rnd : entropy) (hash : list byte),
    (PQPrivKey.IsValid k = false -> PQPrivKey.Sign k rnd hash = [])
    /\ (PQPrivKey.IsValid k = true ->
        exists (alg_name : OQS_alg_name) (sig : OQS_SIG)
               (status : OQS_STATUS) (out : list byte),
          GetOQSAlgorithmName (PQPrivKey.GetAlgorithm k) = Some alg_name
          /\ OQS_SIG_new alg_name = Some sig
          /\ length (PQPrivKey.m_data k) = length_secret_key sig
          /\ OQS_SIG_sign sig rnd hash (PQPrivKey.m_data k) = (status, out)
          /\ (status <> OQS_SUCCESS -> PQPrivKey.Sign k rnd hash = [])
          /\ (status = OQS_SUCCESS ->
              length (PQPrivKey.Sign k rnd hash) = length out
              /\ ((length out <= length_signature sig)%nat ->
                  PQPrivKey.Sign k rnd hash = out))).
Proof.
  intros k rnd hash. unfold PQPrivKey.GetAlgorithm. split.
  { intros Hv. unfold PQPrivKey.Sign. now rewrite Hv. }
  intros Hv.
  destruct (PQPrivKey_valid_facts k Hv) as (alg_name & Hn & sig & Hs & Hl & _).
  destruct (OQS_SIG_sign sig rnd hash (PQPrivKey.m_data k)) as [status out] eqn:Hsign.
  assert (Hsg : PQPrivKey.Sign k rnd hash
                = if negb (OQS_STATUS_eqb status OQS_SUCCESS) then []
                  else resize (length out) (written (length_signature sig) out)).
  { unfold PQPrivKey.Sign. now rewrite Hv, Hn, Hs, Hsign. }
  exists alg_name, sig, status, out.
  split; [exact Hn|]. split; [exact Hs|]. split; [exact Hl|].
  split; [exact Hsign|]. rewrite Hsg. split.
  - intros Hne. destruct status; [now contradiction Hne | reflexivity].
  - intros ->. cbn [OQS_STATUS_eqb negb]. split.
    + apply length_resize.
    + intros Hle. now apply resize_written.
Qed.

End Signing.

(** ** The key theorems at the stand-in provider *)

Lemma PQPubKey_Deserialize_Serialize_witness :
  (PQPubKey.IsValid sample.falcon_key = true \/ sample.falcon_key = PQPubKey.default)
  /\ PQPubKey.Deserialize (PQPubKey.Serialize sample.falcon_key) = sample.falcon_key.
Proof.
  split; [left; reflexivity|].
  apply (PQPubKey_Deserialize_Serialize sample.falcon_key). left. reflexivity.
Defined.

Lemma PQPubKey_Deserialize_canonical_witness :
  PQPubKey.IsValid (PQPubKey.Deserialize sample.serialized_key) = true
  /\ PQPubKey.Serialize (PQPubKey.Deserialize sample.serialized_key)
     = sample.serialized_key.
Proof.
  split; [reflexivity|].
  apply (proj2 (PQPubKey_Deserialize_canonical sample.serialized_key)). reflexivity.
Defined.

Lemma PQSignature_Deserialize_Serialize_witness :
  Z.of_nat (length (PQSignature.m_data sample.dilithium_sig)) + 5 < 2 ^ 32
  /\ PQSignature.IsValid sample.dilithium_sig = true
  /\ PQSignature.Deserialize (PQSignature.Serialize sample.dilithium_sig)
     = sample.dilithium_sig.
Proof.
  split; [reflexivity|]. split; [reflexivity|].
  apply (PQSignature_Deserialize_Serialize sample.dilithium_sig);
    [reflexivity | left; reflexivity].
Defined.

Lemma PQSignature_Deserialize_canonical_witness :
  PQSignature.IsValid (PQSignature.Deserialize sample.serialized_sig) = true
  /\ PQSignature.Serialize (PQSignature.Deserialize sample.serialized_sig)
     = sample.serialized_sig.
Proof.
  split; [reflexivity|].
  apply (proj2 (PQSignature_Deserialize_canonical sample.serialized_sig)). reflexivity.
Defined.

Lemma Verify_true_iff_witness :
  PQSignature.Verify sample.dilithium_sig [] sample.dilithium_key = true
  /\ exists (alg_name : OQS_alg_name) (sig : OQS_SIG),
       GetOQSAlgorithmName DILITHIUM3 = Some alg_name
       /\ OQS_SIG_new alg_name = Some sig
       /\ OQS_SIG_verify sig [] [x01; x02; x03; x04] [x01; x02; x03; x04] = OQS_SUCCESS.
Proof.
  split; [reflexivity|].
  assert (H : PQSignature.Verify sample.dilithium_sig [] sample.dilithium_key = true)
    by reflexivity.
  destruct (proj1 (Verify_true_iff sample.dilithium_sig [] sample.dilithium_key) H)
    as (alg_name & sig & Hn & Hs & _ & _ & _ & _ & Hv).
  exists alg_name, sig. repeat split; assumption.
Defined.

Lemma GenerateKeyPair_fail_closed_witness :
  GetOQSAlgorithmName UNKNOWN = None
  /\ PQPrivKey.GenerateKeyPair UNKNOWN sample.drawn
     = (PQPrivKey.default, PQPubKey.default).
Proof.
  split; [reflexivity|].
  apply (GenerateKeyPair_fail_closed UNKNOWN sample.drawn). left. reflexivity.
Defined.

Lemma GenerateKeyPair_success_witness :
  OQS_SIG_keypair (mock.scheme 4 32) sample.drawn
  = (OQS_SUCCESS, (sample.generated_public, sample.drawn))
  /\ PQPrivKey.IsValid (fst (PQPrivKey.GenerateKeyPair DILITHIUM3 sample.drawn)) = true
  /\ PQPubKey.IsValid (snd (PQPrivKey.GenerateKeyPair DILITHIUM3 sample.drawn)) = true.
Proof.
  split; [reflexivity|].
  assert (H := GenerateKeyPair_success DILITHIUM3 sample.drawn OQS_SIG_alg_dilithium_3
                 (mock.scheme 4 32) sample.generated_public sample.drawn
                 eq_refl eq_refl eq_refl eq_refl).
  cbv zeta in H.
  assert (Hpk : (0 < length sample.generated_public)%nat) by (cbn; lia).
  assert (Hsk : (0 < length sample.drawn)%nat) by (cbn; lia).
  destruct (H Hpk eq_refl Hsk) as (Hs & Hp & _).
  split; assumption.
Defined.

Lemma Sign_then_Verify_witness :
  OQS_SIG_keypair (mock.scheme 4 32) sample.drawn
  = (OQS_SUCCESS, (sample.generated_public, sample.drawn))
  /\ OQS_SIG_sign (mock.scheme 4 32) [] sample.message sample.drawn
     = (OQS_SUCCESS, sample.generated_signature)
  /\ PQPrivKey.Sign (fst (PQPrivKey.GenerateKeyPair DILITHIUM3 sample.drawn))
       [] sample.message = sample.generated_signature
  /\ PQSignature.Verify
       (PQSignature.make
          (PQPrivKey.Sign (fst (PQPrivKey.GenerateKeyPair DILITHIUM3 sample.drawn))
             [] sample.message) DILITHIUM3)
       sample.message (snd (PQPrivKey.GenerateKeyPair DILITHIUM3 sample.drawn)) = true
  /\ PQSignature.Verify
       (PQSignature.make
          (PQPrivKey.Sign (fst (PQPrivKey.GenerateKeyPair DILITHIUM3 sample.drawn))
             [] sample.message) DILITHIUM3)
       [x05; x06; x07; x08] (snd (PQPrivKey.GenerateKeyPair DILITHIUM3 sample.drawn)) = false.
Proof.
  split; [reflexivity|]. split; [reflexivity|].
  assert (H := Sign_then_Verify DILITHIUM3 sample.drawn [] sample.message
                 OQS_SIG_alg_dilithium_3 (mock.scheme 4 32)
                 sample.generated_public sample.drawn sample.generated_signature
                 eq_refl eq_refl eq_refl eq_refl).
  cbv zeta in H.
  assert (Hpk : (0 < length sample.generated_public)%nat) by (cbn; lia).
  assert (Hsk : (0 < length sample.drawn)%nat) by (cbn; lia).
  assert (Hout : (0 < length sample.generated_signature
                  <= length_signature (mock.scheme 4 32))%nat) by (cbn; lia).
  destruct (H Hpk eq_refl Hsk eq_refl Hout) as (Hs & _ & _ & Hv).
  split; [exact Hs|]. split; rewrite Hv; reflexivity.
Defined.

Lemma PQPrivKey_valid_or_holds_nothing_witness :
  (exists data algo,
      PQPrivKey.make sample.drawn DILITHIUM3 = PQPrivKey.make data algo)
  /\ PQPrivKey.IsValid (PQPrivKey.make sample.drawn DILITHIUM3) = true
  /\ ((PQPrivKey.IsValid (PQPrivKey.make [x01] DILITHIUM3) = true
       /\ recognized (PQPrivKey.GetAlgorithm (PQPrivKey.make [x01] DILITHIUM3))
       /\ length (PQPrivKey.m_data (PQPrivKey.make [x01] DILITHIUM3))
          = PQPrivKey.GetPrivKeySize (PQPrivKey.GetAlgorithm (PQPrivKey.make [x01] DILITHIUM3))
       /\ (0 < length (PQPrivKey.m_data (PQPrivKey.make [x01] DILITHIUM3)))%nat)
      \/ (PQPrivKey_holds_nothing (PQPrivKey.make [x01] DILITHIUM3)
          /\ PQPrivKey.GetPubKey (PQPrivKey.make [x01] DILITHIUM3) = PQPubKey.default)).
Proof.
  split; [exists sample.drawn, DILITHIUM3; reflexivity|].
  split; [reflexivity|].
  apply (PQPrivKey_valid_or_holds_nothing (PQPrivKey.make [x01] DILITHIUM3)).
  left. exists [x01], DILITHIUM3. reflexivity.
Defined.

Lemma GetPubKey_valid_iff_witness :
  PQPubKey.IsValid (PQPrivKey.GetPubKey sample.private_key) = true
  /\ PQPubKey.GetAlgorithm (PQPrivKey.GetPubKey sample.private_key) = DILITHIUM3.
Proof.
  split; [reflexivity|].
  apply (proj1 (proj2 (GetPubKey_valid_iff sample.private_key))). reflexivity.
Defined.

Lemma move_transfers_key_witness :
  0%nat <> 1%nat
  /\ PQPrivKey.move_assign sample.memory 0%nat 1%nat 0%nat = sample.private_key
  /\ PQPrivKey.move_construct sample.memory 0%nat 1%nat 0%nat = sample.private_key
  /\ PQPrivKey.move_assign sample.memory 0%nat 1%nat 2%nat = PQPrivKey.default.
Proof.
  split; [discriminate|].
  destruct (move_transfers_key sample.memory 0%nat 1%nat) as (Ha & Hc & Hf); [discriminate|].
  split; [exact Ha|]. split; [exact Hc|].
  apply (Hf 2%nat); discriminate.
Defined.

Lemma Sign_outcome_witness :
  PQPrivKey.IsValid sample.private_key = true
  /\ PQPrivKey.Sign sample.private_key [] sample.message = sample.generated_signature
  /\ PQPrivKey.Sign PQPrivKey.default [] sample.message = [].
Proof.
  assert (Hv : PQPrivKey.IsValid sample.private_key = true) by reflexivity.
  split; [exact Hv|].
  split.
  - destruct (proj2 (Sign_outcome sample.private_key [] sample.message) Hv)
      as (alg_name & sig & status & out & Hn & Hs & _ & Hsign & _ & Hok).
    injection Hn as <-. injection Hs as <-.
    injection Hsign as <- <-.
    apply (proj2 (Hok eq_refl)). cbn. lia.
  - apply (proj1 (Sign_outcome PQPrivKey.default [] sample.message)). reflexivity.
Defined.

(* ================================================================== *)
(** * Further properties of addresses *)

(** ** Reading an address text *)

Lemma EBCAddress_default_invalid : EBCAddress.IsValid EBCAddress.default = false.
Proof. reflexivity. Qed.

Lemma char_table_lower (c : ascii) : char_table_entry_lower c = true.
Proof. destruct c as [[] [] [] [] [] [] [] []]; vm_compute; reflexivity. Qed.

(** A character with an entry in [CHARSET_REV] stands, up to case, for the
    character of [CHARSET] at that entry. *)
Lemma rev_of_LowerCase (c : ascii) :
  rev_of c <> -1 ->
  in_width 5 (rev_of c) /\ bech32.charset_at (rev_of c) = bech32.LowerCase c.
Proof.
  intros Hrev. pose proof (char_table_lower c) as H.
  unfold char_table_entry_lower in H.
  destruct (rev_of c =? -1) eqn:E; [apply Z.eqb_eq in E; contradiction|].
  cbn [orb] in H.
  apply andb_prop in H as [H Hc]. apply andb_prop in H as [H0 H1].
  apply Z.leb_le in H0. apply Z.ltb_lt in H1. apply Ascii.eqb_eq in Hc.
  split; [unfold in_width; change (2 ^ 5) with 32; lia | exact Hc].
Qed.

Lemma decode_values_inv (t : list ascii) :
  forall values,
    bech32.decode_values t = Some values ->
    Forall (in_width 5) values
    /\ map bech32.charset_at values = map bech32.LowerCase t
    /\ length values = length t.
Proof.
  induction t as [|c t IH]; intros values H.
  - injection H as <-. repeat split. constructor.
  - cbn [bech32.decode_values] in H.
    change (nth (Z.to_nat (bech32.code c)) bech32.CHARSET_REV (-1)) with (rev_of c) in H.
    cbv zeta in H.
    destruct (rev_of c =? -1) eqn:E; [discriminate H|].
    apply Z.eqb_neq in E.
    destruct (bech32.decode_values t) as [vs|]; [|discriminate H].
    injection H as <-.
    destruct (IH vs eq_refl) as (Hf & Hm & Hl).
    destruct (rev_of_LowerCase c E) as [Hw Hc].
    repeat split.
    + now constructor.
    + cbn [map]. now rewrite Hc, Hm.
    + cbn [length]. now rewrite Hl.
Qed.

Lemma rfind_Some (l : list ascii) (c : ascii) :
  forall i, bech32.rfind l c = Some i ->
            exists p t, l = p ++ c :: t /\ length p = i.
Proof.
  induction l as [|x l IH]; intros i H; [discriminate H|].
  cbn [bech32.rfind] in H.
  destruct (bech32.rfind l c) as [j|].
  - injection H as <-. destruct (IH j eq_refl) as (p & t & -> & Hl).
    exists (x :: p), t. split; [reflexivity | cbn; now rewrite Hl].
  - destruct (Ascii.eqb x c) eqn:E; [|discriminate H].
    injection H as <-. apply Ascii.eqb_eq in E. subst x.
    exists [], l. split; reflexivity.
Qed.

Lemma firstn_length_app {A : Type} (p t : list A) : firstn (length p) (p ++ t) = p.
Proof. rewrite firstn_app, firstn_all, Nat.sub_diag. cbn. apply app_nil_r. Qed.

Lemma skipn_length_app {A : Type} (p t : list A) : skipn (length p) (p ++ t) = t.
Proof. rewrite skipn_app, skipn_all, Nat.sub_diag. reflexivity. Qed.

(** What a Bech32m answer of [Decode] says about the string. *)
Lemma Decode_BECH32M_inv (s : string) :
  bech32.encoding (bech32.Decode s) = bech32.BECH32M ->
  exists p t values,
    list_ascii_of_string s = p ++ "1"%char :: t
    /\ bech32.decode_values t = Some values
    /\ (6 <= length t)%nat
    /\ bech32.VerifyChecksum (map bech32.LowerCase p) values = bech32.BECH32M
    /\ bech32.Decode s
       = {| bech32.encoding := bech32.BECH32M;
            bech32.hrp := string_of_list_ascii (map bech32.LowerCase p);
            bech32.dec_data := firstn (length values - 6) values |}.
Proof.
  unfold bech32.Decode. cbv zeta.
  set (l := list_ascii_of_string s).
  destruct (bech32.CheckCharacters l); cbn [negb]; [|discriminate].
  destruct (90 <? length l)%nat; [discriminate|].
  destruct (bech32.rfind l "1") as [pos|] eqn:Hr; [|discriminate].
  destruct (rfind_Some l "1"%char pos Hr) as (p & t & Hl & Hp).
  destruct ((pos =? 0)%nat || (length l <=? pos + bech32.CHECKSUM_SIZE)%nat) eqn:Epos;
    [discriminate|].
  apply orb_false_iff in Epos as [_ Epos]. apply Nat.leb_gt in Epos.
  unfold bech32.CHECKSUM_SIZE in *.
  assert (Hsk : skipn (pos + 1) l = t).
  { rewrite Hl, <- Hp. replace (length p + 1)%nat with (length (p ++ ["1"%char])).
    - now rewrite (app_assoc p ["1"%char] t : p ++ "1"%char :: t = (p ++ ["1"%char]) ++ t),
        skipn_length_app.
    - rewrite length_app. reflexivity. }
  assert (Hfi : firstn pos l = p).
  { rewrite Hl, <- Hp. apply firstn_length_app. }
  rewrite Hsk, Hfi.
  destruct (bech32.decode_values t) as [values|] eqn:Hd; [|discriminate].
  destruct (bech32.Encoding_eqb (bech32.VerifyChecksum (map bech32.LowerCase p) values)
              bech32.INVALID) eqn:Ev; [discriminate|].
  cbn [bech32.encoding]. intros Henc.
  exists p, t, values. rewrite Henc.
  split; [exact Hl|]. split; [exact Hd|]. split; [|split; reflexivity].
  rewrite Hl, length_app in Epos. cbn [length] in Epos. lia.
Qed.

(** Regrouping in the other direction: what [ConvertBits<5, 8, false>]
    accepts is what [ConvertBits<8, 5, true>] makes of its output. *)
Lemma ConvertBits_5_8_5 (groups out : list Z) :
  Forall (in_width 5) groups ->
  ConvertBits 5 8 false groups = Some out ->
  Forall (in_width 8) out
  /\ ConvertBits 8 5 true out = Some groups
  /\ 8 * Z.of_nat (length out) <= 5 * Z.of_nat (length groups)
     < 8 * Z.of_nat (length out) + 5.
Proof.
  intros HG Hc.
  destruct (ConvertBits_nopad_spec 5 8 groups) as
    (acc & bits & out0 & _ & Hb & Hout & Hval & Hlen & Heq); [lia | lia | exact HG |].
  rewrite Heq in Hc.
  destruct ((5 <=? bits) || negb (acc mod 2 ^ bits =? 0)) eqn:E; [discriminate Hc|].
  injection Hc as <-.
  apply orb_false_iff in E as [E1 E2]. apply Z.leb_gt in E1.
  apply negb_false_iff in E2. apply Z.eqb_eq in E2.
  rewrite E2, Z.add_0_r in Hval.
  destruct (ConvertBits_pad_spec 8 5 out0) as
    (groups' & p & Hc' & HG' & Hp & Hval' & Hlen'); [lia | lia | exact Hout |].
  assert (Hpb : p = bits) by lia. subst p.
  assert (Hll : length groups' = length groups) by lia.
  split; [exact Hout|]. split; [|lia].
  rewrite Hc'. f_equal.
  apply (radix_value_inj 5 groups'); try assumption; [lia | congruence].
Qed.

Lemma map_byte_val_octet (out : list Z) :
  Forall (in_width 8) out -> map byte_val (map octet out) = out.
Proof.
  induction 1 as [|x l Hx _ IH]; [reflexivity|].
  cbn [map]. rewrite IH, byte_val_octet. f_equal.
  apply Z.mod_small. exact Hx.
Qed.

Lemma LowerCase_ebc_hrp_text (p t : list ascii) (values : list Z) :
  map bech32.LowerCase p = ebc_hrp ->
  map bech32.charset_at values = map bech32.LowerCase t ->
  string_of_list_ascii (["e"; "b"; "c"]%char ++ "1"%char :: "1"%char
                          :: map bech32.charset_at values)
  = string_of_list_ascii (map bech32.LowerCase (p ++ "1"%char :: t)).
Proof.
  intros Hp Ht. rewrite map_app, Hp. cbn [map]. rewrite Ht. reflexivity.
Qed.

(** Encoding the address a text was read as gives the text back, in lower
    case. *)
Lemma ToString_FromString (s : string) :
  EBCAddress.IsValid (EBCAddress.FromString s) = true ->
  EBCAddress.ToString (EBCAddress.FromString s) = lower_case s.
Proof.
  intros Hv.
  assert (Henc : bech32.encoding (bech32.Decode s) = bech32.BECH32M).
  { destruct (bech32.encoding (bech32.Decode s)) eqn:E; try reflexivity;
      rewrite FromString_not_BECH32M in Hv by (rewrite E; discriminate);
      discriminate Hv. }
  destruct (Decode_BECH32M_inv s Henc) as (p & t & values & Hl & Hd & Ht & Hck & Hdec).
  destruct (decode_values_inv t values Hd) as (Hw & Hm & Hlen).
  unfold EBCAddress.FromString in *. cbv zeta in *. rewrite Hdec in *.
  cbn [bech32.encoding bech32.hrp bech32.dec_data bech32.Encoding_eqb negb orb] in *.
  destruct (String.eqb (string_of_list_ascii (map bech32.LowerCase p)) EBC_HRP) eqn:Eh;
    cbn [negb] in *; [|discriminate Hv].
  apply String.eqb_eq in Eh.
  assert (Hp : map bech32.LowerCase p = ebc_hrp).
  { unfold ebc_hrp. rewrite <- Eh. now rewrite list_ascii_of_string_of_list_ascii. }
  set (groups := firstn (length values - 6) values) in *.
  set (cs := skipn (length values - 6) values).
  assert (Hsplit : values = groups ++ cs) by (symmetry; apply firstn_skipn).
  assert (Hcl : length cs = 6%nat).
  { unfold cs. rewrite length_skipn. lia. }
  assert (Hwg : Forall (in_width 5) groups /\ Forall (in_width 5) cs).
  { apply Forall_app. now rewrite <- Hsplit. }
  destruct Hwg as [Hwg Hwc].
  assert (Hcs : cs = bech32.CreateChecksum bech32.BECH32M ebc_hrp groups).
  { destruct (list_eq_dec Z.eq_dec cs
                (bech32.CreateChecksum bech32.BECH32M ebc_hrp groups)) as [e|n];
      [exact e|].
    exfalso. apply (VerifyChecksum_other ebc_hrp groups cs Hcl Hwc n).
    now rewrite <- Hsplit, <- Hp. }
  destruct groups as [|g groups'] eqn:Eg; [discriminate Hv|]. rewrite <- Eg in *.
  destruct (ConvertBits 5 8 false groups) as [out|] eqn:Ec; [|discriminate Hv].
  destruct (ConvertBits_5_8_5 groups out Hwg Ec) as (Hwo & Hback & _).
  destruct (length (map octet out) <? 2)%nat eqn:El; [discriminate Hv|].
  match type of Hv with
  | EBCAddress.IsValid (if EBCAddress.IsValid ?a then _ else _) = true =>
      destruct (EBCAddress.IsValid a) eqn:Ea; [|discriminate Hv]
  end.
  unfold EBCAddress.ToString. rewrite Ea. cbn [negb].
  cbn [EBCAddress.m_version EBCAddress.m_algorithm EBCAddress.m_data].
  assert (Hdata : [nth 0 (map octet out) x00; nth 1 (map octet out) x00]
                    ++ skipn 2 (map octet out) = map octet out).
  { apply Nat.ltb_ge in El.
    destruct (map octet out) as [|a [|b r]]; cbn [length] in El; try lia. reflexivity. }
  rewrite octet_byte_val, Hdata, (map_byte_val_octet out Hwo), Hback, Encode_EBC,
    <- Hcs, <- Hsplit.
  unfold lower_case. rewrite Hl.
  now apply LowerCase_ebc_hrp_text.
Qed.

(** X15: an address text that FromString accepts is, once put in lower
    case, the text ToString writes for the address it was read as; two
    accepted texts are read as the same address only if they differ in
    nothing but case. *)
Theorem ToString_FromString_canonical :
  forall s : string,
    IsValidEBCAddress s = true ->
    EBCAddress.ToString (EBCAddress.FromString s) = lower_case s
    /\ forall s' : string,
         EBCAddress.FromString s' = EBCAddress.FromString s ->
         lower_case s' = lower_case s.
Proof.
  intros s Hv. unfold IsValidEBCAddress in Hv.
  split; [now apply ToString_FromString|].
  intros s' He.
  rewrite <- (ToString_FromString s Hv), <- He.
  symmetry. apply ToString_FromString. now rewrite He.
Qed.

(** ** The text of a valid address *)

Lemma length_list_ascii_of_string (s : string) :
  length (list_ascii_of_string s) = String.length s.
Proof. induction s as [|c s IH]; [reflexivity|]. cbn. now rewrite IH. Qed.

Lemma length_lower_case (s : string) : String.length (lower_case s) = String.length s.
Proof.
  unfold lower_case.
  now rewrite length_string_of_list_ascii, length_map, length_list_ascii_of_string.
Qed.

Lemma charset_at_In (v : Z) : in_width 5 v -> In (bech32.charset_at v) bech32.CHARSET.
Proof.
  intros Hv. unfold bech32.charset_at. apply nth_In.
  change (length bech32.CHARSET) with 32%nat.
  unfold in_width in Hv. change (2 ^ 5) with 32 in Hv. lia.
Qed.

Lemma LowerCase_charset_at (v : Z) :
  in_width 5 v -> bech32.LowerCase (bech32.charset_at v) = bech32.charset_at v.
Proof.
  revert v. apply in_width_5_cases. intros n Hn.
  do 32 (destruct n as [|n]; [vm_compute; reflexivity|]). lia.
Qed.

(** The characters [ToString] writes for a valid address. *)
Lemma ToString_text (a : EBCAddress.t) :
  EBCAddress.IsValid a = true ->
  exists values : list Z,
    EBCAddress.ToString a
    = string_of_list_ascii
        (["e"; "b"; "c"; "1"; "1"]%char ++ map bech32.charset_at values)
    /\ Forall (in_width 5) values
    /\ length values = (if (length (EBCAddress.m_data a) =? 20)%nat then 42 else 61)%nat.
Proof.
  intros Hv. unfold EBCAddress.ToString. rewrite Hv. cbn [negb app].
  destruct (ConvertBits_8_5_8
              (EBCAddress.m_version a :: octet (EBCAddress.m_algorithm a)
                 :: EBCAddress.m_data a))
    as (groups & Eenc & Hg & Hl1 & Hl2 & _).
  rewrite Eenc, Encode_EBC.
  destruct (CreateChecksum_spec bech32.BECH32M ebc_hrp groups) as (Hcl & Hcw & _).
  exists (groups ++ bech32.CreateChecksum bech32.BECH32M ebc_hrp groups).
  split; [reflexivity|]. split; [apply Forall_app; now split|].
  rewrite length_app, Hcl. cbn [length] in Hl1, Hl2.
  destruct (EBCAddress_valid_length a Hv) as [H | H]; rewrite H in *; cbn [Nat.eqb]; lia.
Qed.

(** X16: the text of a valid address starts with "ebc11", is 47 characters
    long for a 20-byte payload and 66 for a 32-byte one, and has only
    characters of the Bech32 set after the prefix, so it is already in
    lower case. *)
Theorem ToString_shape :
  forall a : EBCAddress.t,
    EBCAddress.IsValid a = true ->
    (exists rest : string, EBCAddress.ToString a = String.append "ebc11" rest)
    /\ String.length (EBCAddress.ToString a)
       = (if (length (EBCAddress.GetData a) =? 20)%nat then 47 else 66)%nat
    /\ (forall (i : nat) (c : ascii),
           (5 <= i)%nat ->
           String.get i (EBCAddress.ToString a) = Some c ->
           In c bech32.CHARSET)
    /\ lower_case (EBCAddress.ToString a) = EBCAddress.ToString a.
Proof.
  intros a Hv. unfold EBCAddress.GetData.
  destruct (ToString_text a Hv) as (values & Ht & Hw & Hl).
  split; [|split; [|split]].
  - exists (string_of_list_ascii (map bech32.charset_at values)). rewrite Ht. reflexivity.
  - rewrite Ht, length_string_of_list_ascii, length_app, length_map, Hl.
    now destruct (length (EBCAddress.m_data a) =? 20)%nat.
  - intros i c Hi Hg.
    rewrite Ht, get_string_of_list_ascii in Hg.
    rewrite nth_error_app2 in Hg by (cbn [length]; lia).
    apply nth_error_In, in_map_iff in Hg. destruct Hg as (v & <- & Hin).
    apply charset_at_In. rewrite Forall_forall in Hw. now apply Hw.
  - rewrite Ht. unfold lower_case. rewrite list_ascii_of_string_of_list_ascii.
    f_equal. rewrite map_app. cbn [map]. f_equal.
    change (map bech32.LowerCase ["e"; "b"; "c"; "1"; "1"]%char)
      with ["e"; "b"; "c"; "1"; "1"]%char.
    f_equal. rewrite map_map. apply map_ext_in. intros v Hin.
    apply LowerCase_charset_at. rewrite Forall_forall in Hw. now apply Hw.
Qed.

(** X17: ToString returns the empty string exactly for an invalid address.
    The text of a valid address is accepted by IsValidEBCAddress exactly
    when the low byte of its algorithm value -- the byte the text carries --
    is not that of UNKNOWN; for an algorithm value that fits in a byte,
    IsValidEBCAddress of the text is the validity of the address. *)
Theorem ToString_empty_iff :
  forall a : EBCAddress.t,
    (EBCAddress.ToString a = ""%string <-> EBCAddress.IsValid a = false)
    /\ IsValidEBCAddress (EBCAddress.ToString a)
       = EBCAddress.IsValid a
         && negb (Z.eqb (byte_val (octet (EBCAddress.GetAlgorithm a))) UNKNOWN)
    /\ (in_width 8 (EBCAddress.GetAlgorithm a) ->
        IsValidEBCAddress (EBCAddress.ToString a) = EBCAddress.IsValid a).
Proof.
  intros a. unfold EBCAddress.GetAlgorithm.
  assert (Hsecond : IsValidEBCAddress (EBCAddress.ToString a)
                    = EBCAddress.IsValid a
                      && negb (Z.eqb (byte_val (octet (EBCAddress.m_algorithm a))) UNKNOWN)).
  { destruct (EBCAddress.IsValid a) eqn:Hv; cbn [andb].
    - unfold IsValidEBCAddress.
      rewrite (FromString_ToString_low_byte a Hv), <- (IsValid_low_byte_address a Hv).
      destruct (EBCAddress.IsValid (low_byte_address a)) eqn:Hl;
        [exact Hl | apply EBCAddress_default_invalid].
    - unfold EBCAddress.ToString. rewrite Hv. reflexivity. }
  split; [|split; [exact Hsecond|]].
  - destruct (EBCAddress.IsValid a) eqn:Hv.
    + destruct (ToString_text a Hv) as (values & Ht & _).
      split; [|discriminate]. rewrite Ht. cbn. discriminate.
    + split; [reflexivity|]. intros _. unfold EBCAddress.ToString. now rewrite Hv.
  - intros Hw. rewrite Hsecond, (byte_val_octet_small _ Hw).
    destruct (Z.eqb (EBCAddress.m_algorithm a) UNKNOWN) eqn:Eu; cbn [negb].
    + unfold EBCAddress.IsValid. now rewrite Eu.
    + apply andb_true_r.
Qed.

(** X18: the text of a valid address fixes its version, its payload and
    the low byte of its algorithm value: two valid addresses with the same
    text agree in these, and are equal when both algorithm values fit in a
    byte. *)
Theorem ToString_injective :
  forall a b : EBCAddress.t,
    EBCAddress.IsValid a = true -> EBCAddress.IsValid b = true ->
    EBCAddress.ToString a = EBCAddress.ToString b ->
    EBCAddress.GetVersion a = EBCAddress.GetVersion b
    /\ EBCAddress.GetData a = EBCAddress.GetData b
    /\ octet (EBCAddress.GetAlgorithm a) = octet (EBCAddress.GetAlgorithm b)
    /\ (in_width 8 (EBCAddress.GetAlgorithm a) ->
        in_width 8 (EBCAddress.GetAlgorithm b) -> a = b).
Proof.
  intros a b Ha Hb He.
  destruct (ToString_payload a b Ha Hb He) as (Hver & Halg & Hdata).
  unfold EBCAddress.GetVersion, EBCAddress.GetData, EBCAddress.GetAlgorithm.
  repeat split; try assumption.
  intros Hwa Hwb.
  assert (Hg : EBCAddress.m_algorithm a = EBCAddress.m_algorithm b).
  { rewrite <- (byte_val_octet_small _ Hwa), <- (byte_val_octet_small _ Hwb).
    now rewrite Halg. }
  destruct a, b. cbn in *. congruence.
Qed.

(** X19: a string that IsValidEBCAddress accepts has 47 or 66 characters,
    begins with "ebc11" in either case of the letters, and ExtractEBCAddress
    reads it as an address whose payload has 20 or 32 bytes accordingly. *)
Theorem IsValidEBCAddress_shape :
  forall s : string,
    IsValidEBCAddress s = true ->
    (exists rest : string, lower_case s = String.append "ebc11" rest)
    /\ ((String.length s = 47%nat
         /\ length (EBCAddress.GetData (ExtractEBCAddress s)) = 20%nat)
        \/ (String.length s = 66%nat
            /\ length (EBCAddress.GetData (ExtractEBCAddress s)) = 32%nat)).
Proof.
  intros s Hv. unfold IsValidEBCAddress in Hv. unfold ExtractEBCAddress, EBCAddress.GetData.
  pose proof (ToString_FromString s Hv) as Hc.
  destruct (ToString_text _ Hv) as (values & Ht & _ & Hl).
  rewrite Hc in Ht.
  split; [exists (string_of_list_ascii (map bech32.charset_at values)); rewrite Ht; reflexivity|].
  assert (Hlen : String.length s = (5 + length values)%nat).
  { rewrite <- length_lower_case, Ht, length_string_of_list_ascii, length_app, length_map.
    reflexivity. }
  destruct (EBCAddress_valid_length _ Hv) as [H | H]; rewrite H in Hl; cbn [Nat.eqb] in Hl;
    [left | right]; split; try assumption; lia.
Qed.

(** X20: FromString returns either the default address or a valid one, so
    a string is accepted by IsValidEBCAddress exactly when ExtractEBCAddress
    reads something other than the default address from it. *)
Theorem IsValidEBCAddress_iff_not_default :
  forall s : string,
    (IsValidEBCAddress s = true <-> ExtractEBCAddress s <> EBCAddress.default)
    /\ (IsValidEBCAddress s = false <-> ExtractEBCAddress s = EBCAddress.default).
Proof.
  intros s. unfold IsValidEBCAddress, ExtractEBCAddress.
  destruct (FromString_default_or_valid s) as [H | H]; rewrite H.
  - rewrite EBCAddress_default_invalid. split; split; try tauto; try discriminate.
  - split; split; try tauto; try discriminate.
    + intros _ Hd. rewrite Hd, EBCAddress_default_invalid in H. discriminate H.
    + intros Hd. rewrite Hd, EBCAddress_default_invalid in H. discriminate H.
Qed.

(** ** Addresses made from keys and script hashes *)

Section AddressFactories.
Context {lib : liboqs}.
Variable Hash : list byte -> uint256.
Variable RIPEMD160 : list byte -> list byte.

(** X21: ConvertFromLegacy does not look at the legacy address.  Whatever
    that string is, the result is the key's P2PQPKH address -- valid, with
    the key's recognized algorithm, a 20-byte payload, a 47-character text
    and the key-hash script -- when the key is valid, and the default
    address when it is not. *)
Theorem ConvertFromLegacy_of_key :
  forall (legacy_addr : string) (pq_pubkey : PQPubKey.t),
    let address := ConvertFromLegacy Hash RIPEMD160 legacy_addr pq_pubkey in
    address = EBCAddress.FromPQPubKey Hash RIPEMD160 pq_pubkey
    /\ EBCAddress.IsValid address = PQPubKey.IsValid pq_pubkey
    /\ (PQPubKey.IsValid pq_pubkey = false -> address = EBCAddress.default)
    /\ (PQPubKey.IsValid pq_pubkey = true ->
        EBCAddress.IsP2PQPKH address = true
        /\ EBCAddress.GetAlgorithm address = PQPubKey.GetAlgorithm pq_pubkey
        /\ recognized (EBCAddress.GetAlgorithm address)
        /\ EBCAddress.GetData address
           = ebc_address.HashPQPubKey Hash RIPEMD160 pq_pubkey
        /\ length (EBCAddress.GetData address) = 20%nat
        /\ String.length (EBCAddress.ToString address) = 47%nat
        /\ EBCAddress.GetScript address
           = [OP_DUP; OP_HASH160; x14] ++ EBCAddress.GetData address
               ++ [OP_EQUALVERIFY; OP_PQCHECKSIG]).
Proof.
  intros legacy_addr pq_pubkey address. unfold address, ConvertFromLegacy.
  split; [reflexivity|].
  unfold EBCAddress.FromPQPubKey.
  destruct (PQPubKey.IsValid pq_pubkey) eqn:Hv; cbn [negb].
  2:{ split; [reflexivity|]. split; [reflexivity | discriminate]. }
  set (a := {| EBCAddress.m_version := PQ_PUBKEY;
               EBCAddress.m_data := ebc_address.HashPQPubKey Hash RIPEMD160 pq_pubkey;
               EBCAddress.m_algorithm := PQPubKey.GetAlgorithm pq_pubkey |}).
  assert (Hlen : length (ebc_address.HashPQPubKey Hash RIPEMD160 pq_pubkey) = 20%nat).
  { unfold ebc_address.HashPQPubKey. rewrite Hv. cbn [negb]. apply length_written. }
  assert (Hva : EBCAddress.IsValid a = true).
  { unfold EBCAddress.IsValid, a.
    cbn [EBCAddress.m_algorithm EBCAddress.m_version EBCAddress.m_data].
    unfold PQPubKey.GetAlgorithm. rewrite (PQPubKey_valid_not_UNKNOWN pq_pubkey Hv).
    change (Byte.eqb PQ_PUBKEY PQ_PUBKEY) with true. cbv iota. now rewrite Hlen. }
  split; [exact Hva|]. split; [discriminate|]. intros _.
  split; [reflexivity|]. split; [reflexivity|].
  split; [exact (proj1 (PQPubKey_valid_length pq_pubkey Hv))|].
  split; [reflexivity|]. split; [exact Hlen|].
  split; [|now apply GetScript_PQ_PUBKEY].
  destruct (ToString_text a Hva) as (values & Ht & _ & Hl).
  rewrite Ht, length_string_of_list_ascii, length_app, length_map, Hl.
  cbn [EBCAddress.m_data a]. unfold a. cbn [EBCAddress.m_data]. now rewrite Hlen.
Qed.

End AddressFactories.

(** X22: FromScriptHash of a 32-byte hash gives a P2PQSH address that is
    valid exactly when the algorithm value is not UNKNOWN, whether or not it
    names a scheme.  A valid one has the script-hash script over that hash
    and a 66-character text; the text reads back as the address over the
    same hash with the low byte of the algorithm value -- the address itself
    when the value fits in a byte -- or as the default address when that
    byte is the one of UNKNOWN.  With UNKNOWN the address has neither text
    nor script. *)
Theorem FromScriptHash_valid :
  forall (hash : uint256) (algo : PQAlgorithm),
    length hash = 32%nat ->
    let address := EBCAddress.FromScriptHash hash algo in
    EBCAddress.IsValid address = negb (Z.eqb algo UNKNOWN)
    /\ EBCAddress.IsP2PQSH address = true
    /\ (algo <> UNKNOWN ->
        EBCAddress.GetScript address = [OP_HASH256; x20] ++ hash ++ [OP_EQUAL]
        /\ String.length (EBCAddress.ToString address) = 66%nat
        /\ EBCAddress.FromString (EBCAddress.ToString address)
           = (if Z.eqb (byte_val (octet algo)) UNKNOWN then EBCAddress.default
              else EBCAddress.FromScriptHash hash (byte_val (octet algo)))
        /\ (in_width 8 algo ->
            EBCAddress.FromString (EBCAddress.ToString address) = address))
    /\ (algo = UNKNOWN ->
        EBCAddress.GetScript address = [] /\ EBCAddress.ToString address = ""%string).
Proof.
  intros hash algo Hlen address.
  assert (Hv : EBCAddress.IsValid address = negb (Z.eqb algo UNKNOWN)).
  { unfold address, EBCAddress.FromScriptHash, EBCAddress.IsValid.
    cbn [EBCAddress.m_algorithm EBCAddress.m_version EBCAddress.m_data].
    destruct (Z.eqb algo UNKNOWN); [reflexivity|].
    change (Byte.eqb PQ_SCRIPT PQ_PUBKEY) with false.
    change (Byte.eqb PQ_SCRIPT PQ_SCRIPT) with true. cbv iota. now rewrite Hlen. }
  split; [exact Hv|]. split; [reflexivity|]. split.
  - intros Hne. rewrite (tag_eqb_neq _ _ Hne) in Hv. cbn [negb] in Hv.
    split; [now apply GetScript_PQ_SCRIPT|].
    split; [|split].
    + destruct (ToString_text address Hv) as (values & Ht & _ & Hl).
      rewrite Ht, length_string_of_list_ascii, length_app, length_map, Hl.
      unfold address. cbn [EBCAddress.FromScriptHash EBCAddress.m_data]. now rewrite Hlen.
    + rewrite (FromString_ToString_low_byte address Hv),
        (IsValid_low_byte_address address Hv).
      unfold address. cbn [EBCAddress.FromScriptHash EBCAddress.m_algorithm].
      now destruct (Z.eqb (byte_val (octet algo)) UNKNOWN).
    + intros Hw. now apply FromString_ToString.
  - intros ->. rewrite tag_eqb_refl in Hv. cbn [negb] in Hv.
    unfold EBCAddress.GetScript, EBCAddress.ToString. now rewrite Hv.
Qed.

(** ** Scripts of addresses *)

Lemma GetScript_invalid (a : EBCAddress.t) :
  EBCAddress.IsValid a = false -> EBCAddress.GetScript a = [].
Proof. intros Hv. unfold EBCAddress.GetScript. now rewrite Hv. Qed.

Lemma GetScript_cases (a : EBCAddress.t) :
  (EBCAddress.GetScript a = []
   /\ (EBCAddress.IsValid a = false \/ EBCAddress.IsWitness a = true))
  \/ (EBCAddress.IsValid a = true /\ EBCAddress.m_version a = PQ_PUBKEY
      /\ length (EBCAddress.m_data a) = 20%nat
      /\ EBCAddress.GetScript a
         = [OP_DUP; OP_HASH160; x14] ++ EBCAddress.m_data a
             ++ [OP_EQUALVERIFY; OP_PQCHECKSIG])
  \/ (EBCAddress.IsValid a = true /\ EBCAddress.m_version a = PQ_SCRIPT
      /\ length (EBCAddress.m_data a) = 32%nat
      /\ EBCAddress.GetScript a = [OP_HASH256; x20] ++ EBCAddress.m_data a ++ [OP_EQUAL]).
Proof.
  destruct (EBCAddress.IsValid a) eqn:Hv.
  2:{ left. split; [now apply GetScript_invalid | now left]. }
  destruct (EBCAddress_valid_versions a Hv) as [_ [[Hver Hl] | [[Hver Hl] | [[Hver Hl] | [Hver Hl]]]]].
  - right. left. repeat split; try assumption. now apply GetScript_PQ_PUBKEY.
  - right. right. repeat split; try assumption. now apply GetScript_PQ_SCRIPT.
  - left. assert (Hw : EBCAddress.IsWitness a = true).
    { unfold EBCAddress.IsWitness. now rewrite Hver. }
    split; [now apply GetScript_witness | now right].
  - left. assert (Hw : EBCAddress.IsWitness a = true).
    { unfold EBCAddress.IsWitness. now rewrite Hver. }
    split; [now apply GetScript_witness | now right].
Qed.

(** X23: GetScript returns the empty script exactly for an invalid address
    and for an address of a witness version; every other script is the
    25-byte key-hash script or the 35-byte script-hash script. *)
Theorem GetScript_empty_iff :
  forall a : EBCAddress.t,
    (EBCAddress.GetScript a = [] <->
     EBCAddress.IsValid a = false \/ EBCAddress.IsWitness a = true)
    /\ (EBCAddress.GetScript a <> [] ->
        (EBCAddress.IsP2PQPKH a = true /\ length (EBCAddress.GetScript a) = 25%nat)
        \/ (EBCAddress.IsP2PQSH a = true /\ length (EBCAddress.GetScript a) = 35%nat)).
Proof.
  intros a. unfold EBCAddress.IsP2PQPKH, EBCAddress.IsP2PQSH.
  destruct (GetScript_cases a) as [[He Hc] | [(Hv & Hver & Hl & Hs) | (Hv & Hver & Hl & Hs)]].
  - split; [tauto | intros Hne; contradiction].
  - split.
    + split.
      * intros He. rewrite Hs in He. discriminate He.
      * intros [H | H]; [congruence|].
        unfold EBCAddress.IsWitness in H. rewrite Hver in H. discriminate H.
    + intros _. left. rewrite Hver. split; [reflexivity|].
      rewrite Hs, !length_app, Hl. reflexivity.
  - split.
    + split.
      * intros He. rewrite Hs in He. discriminate He.
      * intros [H | H]; [congruence|].
        unfold EBCAddress.IsWitness in H. rewrite Hver in H. discriminate H.
    + intros _. right. rewrite Hver. split; [reflexivity|].
      rewrite Hs, !length_app, Hl. reflexivity.
Qed.

(** X24: a non-empty script determines the version and the payload of the
    address it was made for: two addresses with the same non-empty script
    are both valid and agree on both (they may still differ in the
    algorithm). *)
Theorem GetScript_injective :
  forall a b : EBCAddress.t,
    EBCAddress.GetScript a = EBCAddress.GetScript b ->
    EBCAddress.GetScript a <> [] ->
    EBCAddress.IsValid a = true /\ EBCAddress.IsValid b = true
    /\ EBCAddress.GetVersion a = EBCAddress.GetVersion b
    /\ EBCAddress.GetData a = EBCAddress.GetData b.
Proof.
  intros a b He Hne. unfold EBCAddress.GetVersion, EBCAddress.GetData.
  assert (Hnb : EBCAddress.GetScript b <> []) by (now rewrite <- He).
  destruct (GetScript_cases a) as [[Ha _] | [(Hva & Hvera & Hla & Hsa) | (Hva & Hvera & Hla & Hsa)]];
    [contradiction | |];
    (destruct (GetScript_cases b) as [[Hb _] | [(Hvb & Hverb & Hlb & Hsb) | (Hvb & Hverb & Hlb & Hsb)]];
     [contradiction | |]);
    rewrite Hsa, Hsb in He; cbn [app] in He; try discriminate He.
  - injection He as He. apply app_inv_tail in He.
    repeat split; try assumption; congruence.
  - injection He as He. apply app_inv_tail in He.
    repeat split; try assumption; congruence.
Qed.

(** ** The address theorems at sample addresses *)

Lemma ToString_FromString_canonical_witness :
  IsValidEBCAddress sample.upper_case_text = true
  /\ EBCAddress.ToString (EBCAddress.FromString sample.upper_case_text)
     = sample.p2pqpkh_text
  /\ lower_case sample.p2pqpkh_text = lower_case sample.upper_case_text.
Proof.
  assert (H : IsValidEBCAddress sample.upper_case_text = true) by (vm_compute; reflexivity).
  split; [exact H|].
  destruct (ToString_FromString_canonical sample.upper_case_text H) as [Hc Hs].
  split; [rewrite Hc; reflexivity|].
  apply Hs. vm_compute. reflexivity.
Defined.

Lemma ToString_shape_witness :
  EBCAddress.IsValid sample.p2pqsh_dilithium = true
  /\ String.length (EBCAddress.ToString sample.p2pqsh_dilithium) = 66%nat.
Proof.
  split; [reflexivity|].
  exact (proj1 (proj2 (ToString_shape sample.p2pqsh_dilithium eq_refl))).
Defined.

Lemma ToString_injective_witness :
  EBCAddress.IsValid sample.p2pqpkh_256 = true
  /\ EBCAddress.IsValid sample.p2pqpkh_dilithium = true
  /\ EBCAddress.ToString sample.p2pqpkh_256 = EBCAddress.ToString sample.p2pqpkh_dilithium
  /\ EBCAddress.GetData sample.p2pqpkh_256 = EBCAddress.GetData sample.p2pqpkh_dilithium
  /\ octet (EBCAddress.GetAlgorithm sample.p2pqpkh_256)
     = octet (EBCAddress.GetAlgorithm sample.p2pqpkh_dilithium).
Proof.
  assert (H1 : EBCAddress.IsValid sample.p2pqpkh_256 = true) by reflexivity.
  assert (H2 : EBCAddress.IsValid sample.p2pqpkh_dilithium = true) by reflexivity.
  assert (H3 : EBCAddress.ToString sample.p2pqpkh_256
               = EBCAddress.ToString sample.p2pqpkh_dilithium)
    by (vm_compute; reflexivity).
  split; [exact H1|]. split; [exact H2|]. split; [exact H3|].
  destruct (ToString_injective _ _ H1 H2 H3) as (_ & Hd & Ho & _).
  split; assumption.
Defined.

Lemma IsValidEBCAddress_shape_witness :
  IsValidEBCAddress sample.p2pqpkh_text = true
  /\ ((String.length sample.p2pqpkh_text = 47%nat
       /\ length (EBCAddress.GetData (ExtractEBCAddress sample.p2pqpkh_text)) = 20%nat)
      \/ (String.length sample.p2pqpkh_text = 66%nat
          /\ length (EBCAddress.GetData (ExtractEBCAddress sample.p2pqpkh_text)) = 32%nat)).
Proof.
  assert (H : IsValidEBCAddress sample.p2pqpkh_text = true) by (vm_compute; reflexivity).
  split; [exact H|].
  exact (proj2 (IsValidEBCAddress_shape sample.p2pqpkh_text H)).
Defined.

Lemma ConvertFromLegacy_of_key_witness :
  PQPubKey.IsValid sample.falcon_key = true
  /\ EBCAddress.IsValid
       (ConvertFromLegacy sample.digest sample.digest "1BoatSLRHtKNngkdXEeobR76b53LETtpyT"
          sample.falcon_key) = true
  /\ String.length
       (EBCAddress.ToString
          (ConvertFromLegacy sample.digest sample.digest "1BoatSLRHtKNngkdXEeobR76b53LETtpyT"
             sample.falcon_key)) = 47%nat.
Proof.
  assert (H : PQPubKey.IsValid sample.falcon_key = true) by reflexivity.
  split; [exact H|].
  assert (T := ConvertFromLegacy_of_key sample.digest sample.digest
                 "1BoatSLRHtKNngkdXEeobR76b53LETtpyT" sample.falcon_key).
  cbv zeta in T. destruct T as (_ & Hv & _ & Hk).
  split; [rewrite Hv; exact H|].
  exact (proj1 (proj2 (proj2 (proj2 (proj2 (proj2 (Hk H))))))).
Defined.

Lemma FromScriptHash_valid_witness :
  length sample.hash32 = 32%nat
  /\ EBCAddress.IsValid (EBCAddress.FromScriptHash sample.hash32 FALCON512) = true
  /\ EBCAddress.GetScript (EBCAddress.FromScriptHash sample.hash32 FALCON512)
     = [OP_HASH256; x20] ++ sample.hash32 ++ [OP_EQUAL].
Proof.
  assert (H : length sample.hash32 = 32%nat) by reflexivity.
  split; [exact H|].
  assert (T := FromScriptHash_valid sample.hash32 FALCON512 H).
  cbv zeta in T. destruct T as (Hv & _ & Hk & _).
  split; [exact Hv|].
  apply Hk. discriminate.
Defined.

Lemma GetScript_injective_witness :
  EBCAddress.GetScript sample.p2pqpkh_dilithium = EBCAddress.GetScript sample.p2pqpkh_falcon
  /\ EBCAddress.GetScript sample.p2pqpkh_dilithium <> []
  /\ EBCAddress.GetData sample.p2pqpkh_dilithium = EBCAddress.GetData sample.p2pqpkh_falcon.
Proof.
  assert (H1 : EBCAddress.GetScript sample.p2pqpkh_dilithium
               = EBCAddress.GetScript sample.p2pqpkh_falcon) by reflexivity.
  assert (H2 : EBCAddress.GetScript sample.p2pqpkh_dilithium <> []) by discriminate.
  split; [exact H1|]. split; [exact H2|].
  exact (proj2 (proj2 (proj2 (GetScript_injective _ _ H1 H2)))).
Defined.

(** ** From key generation to the address *)

Section GeneratedAddress.
Context {lib : liboqs}.
Variable Hash : list byte -> uint256.
Variable RIPEMD160 : list byte -> list byte.

(** X25: the address made from a freshly generated public key is a valid
    P2PQPKH address under the requested algorithm, its text starts with
    "ebc11" and reads back as the same address, and its script contains
    OP_PQCHECKSIG -- provided the library generated the key pair and filled
    the public-key buffer. *)
Theorem address_of_generated_key :
  forall (algo : PQAlgorithm) (rnd : entropy)
         (alg_name : OQS_alg_name) (sig : OQS_SIG) (pk sk : list byte),
    GetOQSAlgorithmName algo = Some alg_name ->
    OQS_SIG_new alg_name = Some sig ->
    OQS_SIG_keypair sig rnd = (OQS_SUCCESS, (pk, sk)) ->
    length pk = length_public_key sig -> (0 < length pk)%nat ->
    let pubkey := snd (PQPrivKey.GenerateKeyPair algo rnd) in
    let address := EBCAddress.FromPQPubKey Hash RIPEMD160 pubkey in
    EBCAddress.IsValid address = true
    /\ EBCAddress.IsP2PQPKH address = true
    /\ EBCAddress.GetAlgorithm address = algo
    /\ (exists rest : string, EBCAddress.ToString address = String.append "ebc11" rest)
    /\ EBCAddress.FromString (EBCAddress.ToString address) = address
    /\ In OP_PQCHECKSIG (EBCAddress.GetScript address).
Proof.
  intros algo rnd alg_name sig pk sk Hn Hs Hk Hlp Hpp pubkey address.
  pose proof (PQPubKey_IsValid_intro pk algo alg_name sig Hn Hs Hlp Hpp) as Hvp.
  assert (Hpub : pubkey = {| PQPubKey.m_data := pk; PQPubKey.m_algorithm := algo |}).
  { unfold pubkey, PQPrivKey.GenerateKeyPair. rewrite Hn, Hs, Hk.
    cbn [OQS_STATUS_eqb negb snd]. rewrite (written_exact _ pk) by exact Hlp.
    unfold PQPubKey.make. now rewrite Hvp. }
  rewrite <- Hpub in Hvp.
  destruct (FromPQPubKey_valid Hash RIPEMD160 pubkey Hvp) as (Hv & Hp & Ha & Hr & Hin).
  fold address in Hv, Hp, Ha, Hr, Hin.
  split; [exact Hv|]. split; [exact Hp|].
  split; [rewrite Ha, Hpub; reflexivity|].
  split; [|split; assumption].
  destruct (ToString_text address Hv) as (values & Ht & _).
  exists (string_of_list_ascii (map bech32.charset_at values)). rewrite Ht. reflexivity.
Qed.

End GeneratedAddress.

Lemma address_of_generated_key_witness :
  OQS_SIG_keypair (mock.scheme 4 32) sample.drawn
  = (OQS_SUCCESS, (sample.generated_public, sample.drawn))
  /\ EBCAddress.IsValid
       (EBCAddress.FromPQPubKey sample.digest sample.digest
          (snd (PQPrivKey.GenerateKeyPair DILITHIUM3 sample.drawn))) = true
  /\ EBCAddress.GetAlgorithm
       (EBCAddress.FromPQPubKey sample.digest sample.digest
          (snd (PQPrivKey.GenerateKeyPair DILITHIUM3 sample.drawn))) = DILITHIUM3.
Proof.
  split; [reflexivity|].
  assert (Hpk : (0 < length sample.generated_public)%nat) by (cbn; lia).
  assert (T := address_of_generated_key sample.digest sample.digest DILITHIUM3 sample.drawn
                 OQS_SIG_alg_dilithium_3 (mock.scheme 4 32)
                 sample.generated_public sample.drawn
                 eq_refl eq_refl eq_refl eq_refl Hpk).
  cbv zeta in T. destruct T as (Hv & _ & Ha & _).
  split; assumption.
Defined.
